(** * Leasehold chain module: peers, transport and chain orchestration

    A shallow embedding of the JavaScript sources [peers.js], [transport]
    and [chain] of the Leasehold DPoS side-chain module, together with the
    properties that its specification states about them.

    Conventions of the embedding:
    - an [async] method is a function of the state it reads (and writes);
      [await] is sequencing;
    - a JavaScript exception is the [Throw] completion;
    - JavaScript numbers that the code computes with are integers below
      2^53 (array lengths, counts) and one final quotient; they are
      modelled by exact rationals, see [Js.JsNumber];
    - collaborators that live outside the repository (schema validator,
      cryptography, transaction pool, block processing) are section
      variables. *)

From Stdlib Require Import ZArith QArith Qround Qabs String Ascii List Bool Lia Lqa.
From stdpp Require Import base gmap strings list.

Import ListNotations.
Local Open Scope string_scope.
Local Open Scope list_scope.
Local Open Scope Z_scope.

(* ===================================================================== *)
(** * JavaScript primitives shared by the three source files *)
(* ===================================================================== *)

Module Js.

(** A thrown [Error] object: [name], [message] and the optional [type]
    tag that [postTransaction] attaches. *)
Record JsError := mkError {
  err_name : string;
  err_message : string;
  err_type : option string
}.

(** [new Error(message)] *)
Definition Error (message : string) : JsError :=
  mkError "Error" message None.

(** The [TypeError] raised by a property access on [undefined]. *)
Definition TypeError (message : string) : JsError :=
  mkError "TypeError" message None.

(** One entry of the array that [validator.validate] returns. *)
Record ValidationError := mkValidationError {
  message : string;
  path : string
}.

(** What a [throw] statement can carry in these files: an [Error]
    object, an array of transaction errors, or the array of validation
    errors ([throw errors]). *)
Inductive Thrown :=
| ThrownError (e : JsError)
| ThrownErrors (es : list JsError)
| ThrownValidation (es : list ValidationError).

(** Completion of a statement list: normal or abrupt (exception). *)
Inductive Completion (A : Type) :=
| Normal (a : A)
| Throw (t : Thrown).
Arguments Normal {A} a.
Arguments Throw {A} t.

Definition cbind {A B} (c : Completion A) (k : A -> Completion B) : Completion B :=
  match c with
  | Normal a => k a
  | Throw t => Throw t
  end.

(** [Array.prototype.filter] with a callback that may throw. *)
Fixpoint filterC {A} (p : A -> Completion bool) (l : list A) : Completion (list A) :=
  match l with
  | [] => Normal []
  | x :: l' =>
      cbind (p x) (fun b =>
      cbind (filterC p l') (fun r =>
      Normal (if b then x :: r else r)))
  end.

(** Scalar JavaScript values, as far as configuration options need them. *)
Inductive JsVal :=
| JUndefined
| JNull
| JBool (b : bool)
| JNum (z : Z)
| JStr (s : string).

(** [ToBoolean] on those values. *)
Definition truthy (v : JsVal) : bool :=
  match v with
  | JUndefined | JNull => false
  | JBool b => b
  | JNum z => negb (z =? 0)
  | JStr s => negb (String.eqb s "")
  end.

(** Numbers. Every intermediate value of the arithmetic in [peers.js] is
    an integer of magnitude at most 10^6 or the quotient of two such
    integers; [Math.round] of the IEEE quotient equals [Math.round] of the
    exact quotient (the exact quotient is either a representable
    half-integer or at least 1/200 away from one), so the finite values
    are modelled by exact rationals. Division by zero does not throw in
    JavaScript: it yields [NaN] or an infinity. *)
Inductive JsNumber :=
| Fin (q : Q)
| NaN
| Inf (positive : bool).

Definition of_Z (z : Z) : JsNumber := Fin (inject_Z z).

(** The [/] operator. *)
Definition div (x y : JsNumber) : JsNumber :=
  match x, y with
  | Fin a, Fin b =>
      if Qeq_bool b 0
      then (if Qeq_bool a 0 then NaN else Inf (Qle_bool 0 a))
      else Fin (a / b)%Q
  | Fin _, Inf _ => Fin 0
  | Inf p, Fin b => Inf (Bool.eqb p (Qle_bool 0 b))
  | _, _ => NaN
  end.

(** [Math.round]: nearest integer, ties towards plus infinity. *)
Definition Math_round (x : JsNumber) : JsNumber :=
  match x with
  | Fin a => Fin (inject_Z (Qfloor (a + (1 # 2))))
  | other => other
  end.

(** The [<] operator on numbers; every comparison with [NaN] is false. *)
Definition lt (x y : JsNumber) : bool :=
  match x, y with
  | Fin a, Fin b => negb (Qle_bool b a)
  | Fin _, Inf p => p
  | Inf p, Fin _ => negb p
  | Inf p, Inf p' => negb p && p'
  | _, _ => false
  end.

(** [Math.min] on array lengths. *)
Definition Math_min (x y : Z) : Z := Z.min x y.

(** [Array.prototype.length] *)
Definition len {A} (l : list A) : Z := Z.of_nat (List.length l).

(** The values of a request: what [JSON.parse] yields, and [undefined]
    for a property that is missing. The properties of an object are
    listed once each. *)
#[local] Unset Elimination Schemes.
Inductive Value :=
| VUndefined
| VNull
| VBool (b : bool)
| VNumber (n : JsNumber)
| VString (s : string)
| VArray (elements : list Value)
| VObject (properties : list (string * Value)).
#[local] Set Elimination Schemes.

(** [ToBoolean] *)
Definition to_boolean (v : Value) : bool :=
  match v with
  | VUndefined | VNull => false
  | VBool b => b
  | VNumber (Fin q) => negb (Qeq_bool q 0)
  | VNumber NaN => false
  | VNumber (Inf _) => true
  | VString s => negb (String.eqb s "")
  | VArray _ | VObject _ => true
  end.

(** [object[name]] on the properties of an object. *)
Definition property (name : string) (properties : list (string * Value)) : Value :=
  match List.find (fun entry => String.eqb (fst entry) name) properties with
  | Some (_, v) => v
  | None => VUndefined
  end.

(** [v[name]] on a value that is neither [undefined] nor [null]:
    booleans, numbers, strings and arrays have no property of the names
    read in these files. *)
Definition read_property (name : string) (v : Value) : Value :=
  match v with
  | VObject properties => property name properties
  | _ => VUndefined
  end.

(** [Array.prototype.find] with a callback that may throw. *)
Fixpoint findC {A} (p : A -> Completion bool) (l : list A) : Completion (option A) :=
  match l with
  | [] => Normal None
  | x :: l' =>
      cbind (p x) (fun b => if b then Normal (Some x) else findC p l')
  end.

(** [String.prototype.split(sep)] for a one-character separator: the
    result always has one more element than [s] has separators, so the
    empty string splits into one empty string. *)
Fixpoint split (sep : ascii) (s : string) : list string :=
  match s with
  | EmptyString => [EmptyString]
  | String c s' =>
      if Ascii.eqb c sep then EmptyString :: split sep s'
      else match split sep s' with
           | [] => [String c EmptyString]
           | w :: ws => String c w :: ws
           end
  end.

(** [String.prototype.replace] with the global pattern that matches runs
    of single and double quote characters, and the empty replacement:
    every quote character is dropped. *)
Definition is_quote (c : ascii) : bool :=
  Ascii.eqb c "'"%char || Ascii.eqb c (Ascii.ascii_of_nat 34).

Fixpoint remove_quotes (s : string) : string :=
  match s with
  | EmptyString => EmptyString
  | String c s' =>
      if is_quote c then remove_quotes s' else String c (remove_quotes s')
  end.

(** [/^[0-9]+$/.test(s)] *)
Definition is_digit (c : ascii) : bool :=
  let n := nat_of_ascii c in (48 <=? n)%nat && (n <=? 57)%nat.

Fixpoint all_digits (s : string) : bool :=
  match s with
  | EmptyString => true
  | String c s' => is_digit c && all_digits s'
  end.

Definition is_numeric (s : string) : bool :=
  negb (String.eqb s "") && all_digits s.

(** A method body: reads and writes a state [S], records its calls on
    collaborators as events [E], and completes normally or abruptly.
    State changes made before an exception persist, as in JavaScript. *)
Definition M (E S A : Type) : Type := S -> Completion A * S * list E.

Definition ret {E S A} (a : A) : M E S A := fun s => (Normal a, s, []).

Definition throw {E S A} (t : Thrown) : M E S A := fun s => (Throw t, s, []).

Definition bind {E S A B} (m : M E S A) (k : A -> M E S B) : M E S B :=
  fun s =>
    match m s with
    | (Normal a, s1, tr1) =>
        match k a s1 with
        | (r, s2, tr2) => (r, s2, tr1 ++ tr2)
        end
    | (Throw t, s1, tr1) => (Throw t, s1, tr1)
    end.

(** [try { m } catch (e) { h e }] *)
Definition try_catch {E S A} (m : M E S A) (h : Thrown -> M E S A) : M E S A :=
  fun s =>
    match m s with
    | (Normal a, s1, tr1) => (Normal a, s1, tr1)
    | (Throw t, s1, tr1) =>
        match h t s1 with
        | (r, s2, tr2) => (r, s2, tr1 ++ tr2)
        end
    end.

Definition emit {E S} (e : E) : M E S unit := fun s => (Normal tt, s, [e]).

Definition lift {E S A} (c : Completion A) : M E S A := fun s => (c, s, []).

Definition get {E S} : M E S S := fun s => (Normal s, s, []).

Definition put {E S} (s : S) : M E S unit := fun _ => (Normal tt, s, []).

(** The three components of a run. *)
Definition result_of {E S A} (run : Completion A * S * list E) : Completion A := fst (fst run).
Definition state_of {E S A} (run : Completion A * S * list E) : S := snd (fst run).
Definition trace_of {E S A} (run : Completion A * S * list E) : list E := snd run.

(** A safety triple: run from a state that satisfies [Pre], the method
    body [m] only makes calls that satisfy [P], and it leaves a state
    that satisfies [Post], whether it completes normally or throws. *)
Definition safe {E S A} (Pre : S -> Prop) (P : E -> Prop) (m : M E S A)
    (Post : S -> Prop) : Prop :=
  forall s, Pre s -> Forall P (trace_of (m s)) /\ Post (state_of (m s)).

Declare Scope js_scope.
Delimit Scope js_scope with js.
Notation "x <- m ;; k" := (bind m (fun x => k))
  (at level 100, m at next level, right associativity) : js_scope.
Notation "m ;;; k" := (bind m (fun _ => k))
  (at level 100, right associativity) : js_scope.

End Js.

(* ===================================================================== *)
(** * peers.js *)
(* ===================================================================== *)

Module Peers.
Import Js.

Definition MAX_PEERS : Z := 100.

(** The per-module state that the application state and every peer
    advertise under a module alias ([interchain:updateModuleState]
    publishes [{}] first and [{broadhash, height}] later). *)
Record ModuleInfo := mkModuleInfo {
  broadhash : option string;
  height : option Z
}.

(** A connected peer; [peer.modules] may be missing. *)
Record Peer := mkPeer {
  modules : option (gmap string ModuleInfo)
}.

Record ApplicationState := mkAppState {
  app_modules : gmap string ModuleInfo
}.

(** What the channel answers at the time of a call, when both invokes
    resolve and the application state has its [modules] object:
    ['app:getApplicationState'] and ['network:getConnectedPeers']. *)
Record Channel := mkChannel {
  getApplicationState : ApplicationState;
  getConnectedPeers : list Peer
}.

(** The object that ['app:getApplicationState'] resolves with; nothing
    in [peers.js] checks that it has a [modules] property. *)
Record StateObject := mkStateObject {
  state_modules : option (gmap string ModuleInfo)
}.

(** The two [channel.invoke] calls in general: each promise resolves or
    rejects. *)
Record Invocations := mkInvocations {
  invoke_getApplicationState : Completion StateObject;
  invoke_getConnectedPeers : Completion (list Peer)
}.

(** A channel that answers is a channel whose invokes resolve: a
    statement about a [Channel] is a statement about these invocations. *)
Definition resolved (channel : Channel) : Invocations :=
  mkInvocations
    (Normal (mkStateObject (Some (app_modules (getApplicationState channel)))))
    (Normal (getConnectedPeers channel)).
Coercion resolved : Channel >-> Invocations.

(** The fields the constructor stores (the channel is passed separately
    to each call, as its answers change over time). *)
Record Peers := mkPeers {
  moduleAlias : string;
  forgingForce : bool;
  minBroadhashConsensus : JsNumber;
  broadhashConsensusCalculationInterval : Z
}.

(** [constructor({ moduleAlias, channel, forgingForce, minBroadhashConsensus })] *)
Definition constructor (alias : string) (force : bool) (minConsensus : JsNumber) : Peers :=
  mkPeers alias force minConsensus 5000.

(** [peer => peer.modules && peer.modules[this.moduleAlias]], as a boolean. *)
Definition advertises (alias : string) (peer : Peer) : bool :=
  match modules peer with
  | None => false
  | Some ms => match ms !! alias with Some _ => true | None => false end
  end.

(** [peer.modules[this.moduleAlias].broadhash]; the two property accesses
    raise a [TypeError] on [undefined]. *)
Definition peer_broadhash (alias : string) (peer : Peer) : Completion (option string) :=
  match modules peer with
  | None => Throw (ThrownError (TypeError "Cannot read property of undefined"))
  | Some ms =>
      match ms !! alias with
      | None => Throw (ThrownError (TypeError "Cannot read property 'broadhash' of undefined"))
      | Some info => Normal (broadhash info)
      end
  end.

(** [===] on two [broadhash] fields, each a string or [undefined]. *)
Definition strict_eq (x y : option string) : bool :=
  match x, y with
  | None, None => true
  | Some a, Some b => String.eqb a b
  | _, _ => false
  end.

(** [async calculateConsensus()] *)
Definition calculateConsensus (this : Peers) (channel : Invocations) : Completion JsNumber :=
  cbind (invoke_getApplicationState channel) (fun appState =>
  match state_modules appState with
  | None => Throw (ThrownError (TypeError "Cannot read property of undefined"))
  | Some appModules =>
      match appModules !! moduleAlias this with
      | None => Normal (of_Z 0)
      | Some moduleInfo =>
          let bh := broadhash moduleInfo in
          cbind (invoke_getConnectedPeers channel) (fun connectedPeers =>
          let activePeers := List.filter (advertises (moduleAlias this)) connectedPeers in
          let activeCount := Math_min (len activePeers) MAX_PEERS in
          if activeCount =? 0 then Normal (of_Z 0)
          else
            cbind (filterC (fun peer =>
                     cbind (peer_broadhash (moduleAlias this) peer) (fun pbh =>
                     Normal (strict_eq pbh bh))) activePeers)
              (fun matchingPeers =>
                 let matchedCount := Math_min (len matchingPeers) MAX_PEERS in
                 Normal (div (Math_round (div (of_Z (matchedCount * 10000))
                                              (of_Z activeCount)))
                             (of_Z 100))))
      end
  end).

(** [async getLastConsensus(broadhash)]; the argument is passed on to
    [calculateConsensus], which declares no parameter and ignores it. *)
Definition getLastConsensus (this : Peers) (broadhash_arg : option string)
    (channel : Invocations) : Completion JsNumber :=
  calculateConsensus this channel.

(** [async isPoorConsensus(broadhash)] *)
Definition isPoorConsensus (this : Peers) (broadhash_arg : option string)
    (channel : Invocations) : Completion bool :=
  if forgingForce this then Normal false
  else
    cbind (calculateConsensus this channel) (fun consensus =>
    Normal (lt consensus (minBroadhashConsensus this))).

(** ** The ratio as the specification words it *)

(** A peer whose state for the alias carries the given [broadhash]. *)
Definition matches (alias : string) (bh : option string) (peer : Peer) : bool :=
  match modules peer with
  | None => false
  | Some ms =>
      match ms !! alias with
      | Some info => strict_eq (broadhash info) bh
      | None => false
      end
  end.

Fixpoint count_peers (p : Peer -> bool) (peers : list Peer) : Z :=
  match peers with
  | [] => 0
  | peer :: rest => (if p peer then 1 else 0) + count_peers p rest
  end.

(** Peers advertising the alias, clamped to [MAX_PEERS]. *)
Definition active (alias : string) (peers : list Peer) : Z :=
  Z.min (count_peers (advertises alias) peers) MAX_PEERS.

(** Peers advertising the alias with the chain's broadhash, clamped. *)
Definition matched (alias : string) (bh : option string) (peers : list Peer) : Z :=
  Z.min (count_peers (matches alias bh) peers) MAX_PEERS.

(** ** A sample configuration *)

Definition sample_alias : string := "leasehold_chain".

Definition sample_peer (bh : string) : Peer :=
  mkPeer (Some {[ sample_alias := mkModuleInfo (Some bh) (Some 10) ]}).

(** Three peers advertise the chain, two of them with its broadhash; a
    fourth peer has no module state. *)
Definition sample_channel : Channel :=
  mkChannel
    (mkAppState {[ sample_alias := mkModuleInfo (Some "aa") (Some 10) ]})
    [sample_peer "aa"; sample_peer "bb"; sample_peer "aa"; mkPeer None].

(** No peer is connected. *)
Definition lonely_channel : Channel :=
  mkChannel (mkAppState {[ sample_alias := mkModuleInfo (Some "aa") (Some 10) ]}) [].

Definition sample_peers (force : bool) : Peers :=
  constructor sample_alias force (of_Z 51).



End Peers.

(* ===================================================================== *)
(** * transport *)
(* ===================================================================== *)

Module Transport.
Import Js.

(** Calls on collaborators that a method performs, in order. *)
Inductive Event :=
| LogDebug (msg : string)
| LogError (msg : string)
| Validate (schema : string)
| StorageBlockGet (id : string)
| ReceiveBlockFromNetwork (blockId : string)
| ProcessUnconfirmedTransaction (transactionId : string).

Abbreviation M := (Js.M Event).
Local Open Scope js_scope.

(** ** blocksCommon *)

(** A row of the [blocks] table as the storage entity returns it. *)
Record BlockRow := mkBlockRow {
  id : string;
  height : Z;
  previousBlockId : option string;
  timestamp : Z;
  generatorPublicKey : string;
  numberOfTransactions : Z
}.

(** The storage component, as far as [blocksCommon] uses it: the stored
    block rows, and the error that a query raises when the database
    cannot be reached. [Block.get({id})] returns the rows with that id. *)
Record Storage := mkStorage {
  blocks : list BlockRow;
  failure : option JsError
}.

Definition Block_get (blockId : string) : M Storage (list BlockRow) :=
  fun st =>
    (match failure st with
     | Some e => Throw (ThrownError e)
     | None => Normal (List.filter (fun row => String.eqb (id row) blockId) (blocks st))
     end, st, [StorageBlockGet blockId]).

(** [query]: the only property read is [ids]. *)
Record BlocksCommonQuery := mkBlocksCommonQuery {
  ids : option string
}.

(** [parsedRow] *)
Record ParsedRow := mkParsedRow {
  common_id : string;
  common_height : Z;
  common_previousBlock : option string;
  common_timestamp : Z
}.

Record BlocksCommonResult := mkBlocksCommonResult {
  success : bool;
  common : option ParsedRow
}.

(** [query.ids && query.ids.split(',').length > 1000]; the empty string
    is falsy. *)
Definition more_than_1000_values (query : BlocksCommonQuery) : bool :=
  match ids query with
  | None => false
  | Some s => negb (String.eqb s "") && (len (split "," s) >? 1000)
  end.

(** [!row.length > 0] parses as [(!row.length) > 0]: the negation is
    [true] (1) exactly for length 0. *)
Definition not_length_gt_0 {A} (row : list A) : bool :=
  Z.b2z (negb (negb (len row =? 0))) >? 0.

Section BlocksCommon.

(** [validator.validate(definitions.WSBlocksCommonRequest, query)]; the
    schema definitions are not part of these sources. *)
Variable validate_WSBlocksCommonRequest : BlocksCommonQuery -> list ValidationError.

(** [async blocksCommon(query)] *)
Definition blocksCommon (query : option BlocksCommonQuery) : M Storage BlocksCommonResult :=
  let query := match query with Some q => q | None => mkBlocksCommonQuery None end in
  if more_than_1000_values query then
    throw (ThrownError (Error "ids property contains more than 1000 values"))
  else
    emit (Validate "WSBlocksCommonRequest") ;;;
    match validate_WSBlocksCommonRequest query with
    | e0 :: _ =>
        let error := (message e0 ++ ": " ++ path e0)%string in
        emit (LogDebug "Common block request validation failed") ;;;
        throw (ThrownError (Error error))
    | [] =>
        match ids query with
        | None =>
            throw (ThrownError (TypeError "Cannot read property 'replace' of undefined"))
        | Some s =>
            let escapedIds := List.filter is_numeric (split "," (remove_quotes s)) in
            match escapedIds with
            | [] =>
                emit (LogDebug "Common block request validation failed") ;;;
                throw (ThrownError (Error "Invalid block id sequence"))
            | id0 :: _ =>
                try_catch
                  (row <- Block_get id0 ;;
                   if not_length_gt_0 row then
                     ret (mkBlocksCommonResult true None)
                   else
                     match row with
                     | r0 :: _ =>
                         let parsedRow :=
                           mkParsedRow (id r0) (height r0) (previousBlockId r0) (timestamp r0) in
                         ret (mkBlocksCommonResult true (Some parsedRow))
                     | [] =>
                         throw (ThrownError (TypeError "Cannot destructure undefined"))
                     end)
                  (fun error =>
                     emit (LogError "error.stack") ;;;
                     throw (ThrownError (Error "Failed to get common block")))
            end
        end
    end.

End BlocksCommon.

(** ** postBlock, postTransaction, postTransactions *)

Record Broadcasts := mkBroadcasts {
  active : bool;
  broadcastInterval : Z;
  releaseLimit : Z
}.

(** [this.constants] *)
Record Constants := mkConstants {
  nonce : string;
  broadcasts : Broadcasts;
  maxSharedTransactions : Z
}.

(** The fields of the [Transport] object that the inbound methods read. *)
Record Transport := mkTransport {
  moduleAlias : string;
  constants : Constants
}.

(** A transaction in JSON form. [signatures] is whatever the client
    sent under that name ([undefined] when absent); [fields] stands for
    the properties that the transport layer passes through untouched. *)
Record TransactionJSON := mkTransactionJSON {
  tx_id : option string;
  signatures : Value;
  bundled : bool;
  fields : list (string * JsVal)
}.

(** [typeof signaturePacket === 'string' ? signaturePacket
     : signaturePacket && signaturePacket.signature] *)
Definition sanitize_packet (signaturePacket : Value) : Value :=
  match signaturePacket with
  | VString _ => signaturePacket
  | _ =>
      if to_boolean signaturePacket then read_property "signature" signaturePacket
      else signaturePacket
  end.

Record PostTransactionQuery := mkPostTransactionQuery {
  transaction : option TransactionJSON
}.

Record PostTransactionResult := mkPostTransactionResult {
  post_success : bool;
  transactionId : string
}.

Record PostTransactionsQuery := mkPostTransactionsQuery {
  transactions : option (list (option TransactionJSON))
}.

Section Inbound.

(** In-memory chain and pool state of the node. *)
Variable NodeState : Type.
(** Transaction instances and blocks of the interface adapters. *)
Variable Transaction : Type.
Variable Block : Type.
Variable transaction_id : Transaction -> string.
Variable block_id : Block -> string.

(** [interfaceAdapters.transactions.fromJson] *)
Variable fromJson : option TransactionJSON -> Completion Transaction.
(** [composeTransactionSteps(checkAllowedTransactions(lastBlock),
    validateTransactions(exceptions))] applied to one transaction: the
    [errors] of its response. *)
Variable composedTransactionsCheck : NodeState -> Transaction -> Completion (list JsError).
(** [transactionPoolModule.processUnconfirmedTransaction] *)
Variable processUnconfirmedTransaction :
  Transaction -> bool -> NodeState -> Completion unit * NodeState.
(** [convertErrorsToString] of [utils/error_handlers] *)
Variable convertErrorsToString : Thrown -> string.
(** [validator.validate] with the two request schemas *)
Variable validate_WSTransactionsRequest : option PostTransactionsQuery -> list ValidationError.
Variable validate_WSBlocksBroadcast : option Block -> list ValidationError.
(** [blocksUtils.addBlockProperties], [interfaceAdapters.transactions.fromBlock],
    the assignment to [block.transactions], [blocksUtils.objectNormalize] *)
Variable addBlockProperties : option Block -> Completion Block.
Variable fromBlock : Block -> Completion (list Transaction).
Variable set_transactions : Block -> list Transaction -> Block.
Variable objectNormalize : Block -> Completion Block.
(** [loaderModule.syncing()] and [blocksModule.receiveBlockFromNetwork] *)
Variable syncing : NodeState -> bool.
Variable receiveBlockFromNetwork : Block -> NodeState -> Completion unit * NodeState.

Definition call_processUnconfirmedTransaction (transaction : Transaction) (broadcast : bool)
    : M NodeState unit :=
  fun st =>
    match processUnconfirmedTransaction transaction broadcast st with
    | (r, st') => (r, st', [ProcessUnconfirmedTransaction (transaction_id transaction)])
    end.

Definition call_receiveBlockFromNetwork (block : Block) : M NodeState unit :=
  fun st =>
    match receiveBlockFromNetwork block st with
    | (r, st') => (r, st', [ReceiveBlockFromNetwork (block_id block)])
    end.

(** [async _receiveTransaction(transactionJSON)] *)
Definition _receiveTransaction (transactionJSON : option TransactionJSON)
    : M NodeState string :=
  let id :=
    match transactionJSON with
    | Some t => match tx_id t with Some i => i | None => "undefined" end
    | None => "null"
    end in
  transaction <-
    try_catch
      (transaction <- lift (fromJson transactionJSON) ;;
       st <- get ;;
       errors <- lift (composedTransactionsCheck st transaction) ;;
       if len errors >? 0 then throw (ThrownErrors errors)
       else ret transaction)
      (fun errors =>
         emit (LogDebug "Transaction normalization failed") ;;;
         throw errors) ;;
  emit (LogDebug ("Received transaction " ++ transaction_id transaction)%string) ;;;
  try_catch
    (call_processUnconfirmedTransaction transaction true ;;;
     ret (transaction_id transaction))
    (fun err =>
       emit (LogDebug ("Transaction " ++ id ++ " " ++ convertErrorsToString err)%string) ;;;
       emit (LogDebug "Transaction") ;;;
       throw err).

(** The body of the [try] block of [postTransaction], up to the call of
    [_receiveTransaction]: destructuring [query], copying the
    transaction, mapping its signatures. *)
Definition sanitizedTransaction (query : option PostTransactionQuery)
    : Completion TransactionJSON :=
  match query with
  | None => Throw (ThrownError (TypeError "Cannot destructure property 'transaction'"))
  | Some q =>
      match transaction q with
      | None => Throw (ThrownError (TypeError "Cannot read property 'signatures' of undefined"))
      | Some t =>
          if to_boolean (signatures t) then
            match signatures t with
            | VArray sigs =>
                Normal (mkTransactionJSON (tx_id t) (VArray (List.map sanitize_packet sigs))
                          (bundled t) (fields t))
            | _ =>
                Throw (ThrownError (TypeError "transaction.signatures.map is not a function"))
            end
          else Normal t
      end
  end.

(** [async postTransaction(query)] *)
Definition postTransaction (query : option PostTransactionQuery)
    : M NodeState PostTransactionResult :=
  try_catch
    (sanitized <- lift (sanitizedTransaction query) ;;
     id <- _receiveTransaction (Some sanitized) ;;
     ret (mkPostTransactionResult true id))
    (fun errors =>
       throw (ThrownError
                (mkError "InvalidTransactionError" (convertErrorsToString errors)
                   (Some "InvalidActionError")))).

(** [transaction.bundled = true], when the element is truthy *)
Definition set_bundled (t : option TransactionJSON) : option TransactionJSON :=
  match t with
  | Some t => Some (mkTransactionJSON (tx_id t) (signatures t) true (fields t))
  | None => None
  end.

(** [async _receiveTransactions(transactions = [])] *)
Fixpoint receive_each (transactions : list (option TransactionJSON)) : M NodeState unit :=
  match transactions with
  | [] => ret tt
  | transaction :: rest =>
      try_catch
        (_receiveTransaction (set_bundled transaction) ;;; ret tt)
        (fun err => emit (LogDebug (convertErrorsToString err))) ;;;
      receive_each rest
  end.

Definition _receiveTransactions (transactions : option (list (option TransactionJSON)))
    : M NodeState unit :=
  receive_each (match transactions with Some l => l | None => [] end).

(** [async postTransactions(query)] *)
Definition postTransactions (this : Transport) (query : option PostTransactionsQuery)
    : M NodeState unit :=
  if negb (active (broadcasts (constants this))) then
    emit (LogDebug "Receiving transactions disabled by user through config.json")
  else
    emit (Validate "WSTransactionsRequest") ;;;
    match validate_WSTransactionsRequest query with
    | (_ :: _) as errors =>
        emit (LogDebug "Invalid transactions body") ;;;
        throw (ThrownValidation errors)
    | [] =>
        match query with
        | None => throw (ThrownError (TypeError "Cannot read property 'transactions' of undefined"))
        | Some q => _receiveTransactions (transactions q)
        end
    end.

(** [async postBlock(query = {})]; the only property read is [query.block]. *)
Definition postBlock (this : Transport) (query_block : option Block) : M NodeState unit :=
  if negb (active (broadcasts (constants this))) then
    emit (LogDebug "Receiving blocks disabled by user through config.json")
  else
    emit (Validate "WSBlocksBroadcast") ;;;
    match validate_WSBlocksBroadcast query_block with
    | (_ :: _) as errors =>
        emit (LogDebug "Received post block broadcast request in unexpected format") ;;;
        throw (ThrownValidation errors)
    | [] =>
        block <- lift (addBlockProperties query_block) ;;
        txs <- lift (fromBlock block) ;;
        block <- lift (objectNormalize (set_transactions block txs)) ;;
        st <- get ;;
        if syncing st then
          emit (LogDebug "Client is syncing. Can't receive block at the moment.")
        else
          call_receiveBlockFromNetwork block
    end.

End Inbound.

(** ** What [blocksCommon] returns, in the words of the specification *)

(** [escapedIds]: the candidate ids of a request. *)
Definition candidate_ids (s : string) : list string :=
  List.filter is_numeric (split "," (remove_quotes s)).

Definition parse_row (r : BlockRow) : ParsedRow :=
  mkParsedRow (id r) (height r) (previousBlockId r) (timestamp r).

(** The first stored row whose id is one of the candidate ids. *)
Definition first_row_matching_any (candidates : list string) (rows : list BlockRow)
    : option ParsedRow :=
  option_map parse_row
    (List.find (fun row => existsb (String.eqb (id row)) candidates) rows).

(** The first stored row with one given id. *)
Definition first_row_with_id (blockId : string) (rows : list BlockRow) : option ParsedRow :=
  option_map parse_row (List.find (fun row => String.eqb (id row) blockId) rows).

(** The statement that every candidate id takes part in the lookup, for
    one validator, store and [ids] string. *)
Definition returns_first_match_of_any_candidate
    (validate : BlocksCommonQuery -> list ValidationError)
    (storage : Storage) (s : string) : Prop :=
  len (split "," s) <= 1000 ->
  candidate_ids s <> [] ->
  fst (fst (blocksCommon validate (Some (mkBlocksCommonQuery (Some s))) storage))
  = Normal (mkBlocksCommonResult true
              (first_row_matching_any (candidate_ids s) (blocks storage))).

(** ** A sample node *)

(** A validator for a schema that requires the [ids] property. *)
Definition sample_validate (query : BlocksCommonQuery) : list ValidationError :=
  match ids query with
  | Some _ => []
  | None => [mkValidationError "Missing required property: ids" "#/"]
  end.

Definition sample_block (blockId : string) (h : Z) (previous : string) : BlockRow :=
  mkBlockRow blockId h (Some previous) (h * 10) "c0ffee" 0.

(** A store that holds block 2 but not block 1. *)
Definition sample_storage : Storage :=
  mkStorage [sample_block "2" 2 "7"; sample_block "3" 3 "2"] None.

(** A request with 1001 ids. *)
Definition csv_of_1001_ids : string :=
  String.concat "," (List.repeat "7" 1001).

(** The node state is the list of pooled transaction ids followed by
    the ids of the received blocks; transactions and blocks are their
    ids. *)
Definition SampleState : Type := list string * list string.

Definition sample_fromJson (t : option TransactionJSON) : Completion string :=
  match t with
  | Some t =>
      match tx_id t with
      | Some i => Normal i
      | None => Throw (ThrownErrors [Error "Missing transaction id"])
      end
  | None => Throw (ThrownError (TypeError "Cannot read property 'type' of undefined"))
  end.

Definition sample_check (st : SampleState) (t : string) : Completion (list JsError) :=
  Normal (if existsb (String.eqb t) (fst st)
          then [Error "Transaction is already processed"] else []).

Definition sample_process (t : string) (broadcast : bool) (st : SampleState)
    : Completion unit * SampleState :=
  (Normal tt, (t :: fst st, snd st)).

Definition sample_convert (t : Thrown) : string :=
  match t with
  | ThrownError e => err_message e
  | ThrownErrors es => String.concat ", " (List.map err_message es)
  | ThrownValidation es => String.concat ", " (List.map message es)
  end.

Definition sample_receiveBlock (b : string) (st : SampleState)
    : Completion unit * SampleState :=
  (Normal tt, (fst st, b :: snd st)).

Definition sample_addBlockProperties (b : option string) : Completion string :=
  match b with
  | Some b => Normal b
  | None => Throw (ThrownError (TypeError "Cannot read property 'version' of undefined"))
  end.

Definition sample_transport (receiving : bool) : Transport :=
  mkTransport "leasehold_chain" (mkConstants "nonce" (mkBroadcasts receiving 5000 25) 100).

Definition sample_transaction (i : string) : TransactionJSON :=
  mkTransactionJSON (Some i)
    (VArray [VObject [("signature", VString "5a")]; VString "6b"]) false [].

(** A transaction whose first signature packet wraps an object, and one
    whose signatures are not an array. *)
Definition nested_transaction : TransactionJSON :=
  mkTransactionJSON (Some "43")
    (VArray [VObject [("signature", VObject [("signature", VString "5a")])]; VNull;
             VNumber (of_Z 7)])
    false [].

Definition malformed_transaction : TransactionJSON :=
  mkTransactionJSON (Some "44") (VString "5a,6b") false [].

End Transport.

(* ===================================================================== *)
(** * chain *)
(* ===================================================================== *)

Module Chain.
Import Js.
Local Open Scope js_scope.

(** ** Sanitized transactions *)

(** A Node.js [Buffer] (the [bytea] columns of [trs]). *)
Definition Buffer := list Byte.byte.

(** [ToBoolean] of a string-or-null column. *)
Definition truthy_string (s : option string) : bool :=
  match s with
  | Some s => negb (String.eqb s "")
  | None => false
  end.

(** A row of the [trs] queries of the inbound and outbound actions. *)
Record TrsRow := mkTrsRow {
  id : string;
  type : Z;
  senderId : string;
  senderPublicKey : option Buffer;
  timestamp : Z;
  recipientId : option string;
  amount : string;
  blockId : string;
  transferData : option Buffer;
  signatures : option string
}.

(** A row of [mem_accounts2multisignatures]. *)
Record MemberRow := mkMemberRow {
  dependentId : string
}.

Record Asset := mkAsset {
  data : option string
}.

(** [transactionToHash]: the row without [signature], [signSignature]
    and [signatures], with [asset] added and [senderPublicKey] in hex. *)
Record TransactionToHash := mkTransactionToHash {
  hash_id : string;
  hash_type : Z;
  hash_senderId : string;
  hash_senderPublicKey : string;
  hash_timestamp : Z;
  hash_recipientId : option string;
  hash_amount : string;
  hash_blockId : string;
  hash_transferData : option Buffer;
  hash_asset : Asset
}.

Record Signer := mkSigner {
  signerAddress : option string;
  signature : string
}.

(** The [signatures] property of a sanitized transaction: the stored
    column, or the list of resolved signers. *)
Inductive Signatures :=
| StoredSignatures (s : option string)
| Signers (l : list Signer).

(** [newTxn] *)
Record SanitizedTransaction := mkSanitizedTransaction {
  new_id : string;
  new_type : Z;
  new_senderAddress : string;
  new_senderPublicKey : option string;
  new_timestamp : Z;
  new_recipientAddress : option string;
  new_recipientId : option string;
  new_amount : string;
  new_blockId : string;
  new_message : option string;
  new_transferData : option Buffer;
  new_signatures : Signatures
}.

(** [Promise.all(list.map(async ...))]: rejects as soon as one element
    rejects. *)
Fixpoint mapC {A B} (f : A -> Completion B) (l : list A) : Completion (list B) :=
  match l with
  | [] => Normal []
  | x :: l' =>
      cbind (f x) (fun y =>
      cbind (mapC f l') (fun ys => Normal (y :: ys)))
  end.

Section Sanitize.

(** [Buffer.prototype.toString] with the two encodings used. *)
Variable toString_utf8 : Buffer -> string.
Variable toString_hex : Buffer -> string.
(** [liskTransactions.utils.getTransactionBytes], [liskCryptography.hash],
    [liskCryptography.verifyData], [liskCryptography.getAddressFromPublicKey].
    The library functions throw on input that is not well formed (a
    transaction that cannot be serialized, a signature or a public key
    that is not hex of the right length). *)
Variable getTransactionBytes : TransactionToHash -> Completion Buffer.
Variable hash : Buffer -> Buffer.
Variable verifyData : Buffer -> string -> string -> Completion bool.
Variable getAddressFromPublicKey : string -> Completion string.
(** The query of [_getMultisigWalletMembers] on the store. *)
Variable _getMultisigWalletMembers : string -> Completion (list MemberRow).

(** The object that [_findMultisigMemberWalletAddress] hashes. *)
Definition transactionToHash (transaction : TrsRow) : Completion TransactionToHash :=
  let asset :=
    match transferData transaction with
    | Some d => mkAsset (Some (toString_utf8 d))
    | None => mkAsset None
    end in
  match senderPublicKey transaction with
  | None => Throw (ThrownError (TypeError "Cannot read property 'toString' of null"))
  | Some pk =>
      Normal (mkTransactionToHash (id transaction) (type transaction) (senderId transaction)
                (toString_hex pk) (timestamp transaction) (recipientId transaction)
                (amount transaction) (blockId transaction) (transferData transaction) asset)
  end.

(** [_findMultisigMemberWalletAddress(transaction, signature, memberPublicKeyList)] *)
Definition _findMultisigMemberWalletAddress (transaction : TrsRow) (signature : string)
    (memberPublicKeyList : list string) : Completion (option string) :=
  cbind (transactionToHash transaction) (fun transactionToHash =>
  cbind (findC (fun publicKey =>
                  cbind (getTransactionBytes transactionToHash) (fun bytes =>
                  let txnHash := hash bytes in
                  verifyData txnHash signature publicKey))
               memberPublicKeyList) (fun memberPublicKey =>
    if negb (truthy_string memberPublicKey) then Normal None
    else
      match memberPublicKey with
      | Some pk => cbind (getAddressFromPublicKey pk) (fun address => Normal (Some address))
      | None => Normal None
      end)).

(** The callback of [transactions.map] in [_sanitizeTransactions]. *)
Definition sanitizeTransaction (txn : TrsRow) : Completion SanitizedTransaction :=
  let message :=
    match transferData txn with
    | Some d => Some (toString_utf8 d)
    | None => None
    end in
  let transferData' :=
    match transferData txn with
    | Some _ => None
    | None => transferData txn
    end in
  let senderPublicKey' :=
    match senderPublicKey txn with
    | Some pk => Some (toString_hex pk)
    | None => None
    end in
  let recipientAddress := if truthy_string (recipientId txn) then recipientId txn else None in
  let recipientId' := if truthy_string (recipientId txn) then None else recipientId txn in
  let newTxn sigs :=
    mkSanitizedTransaction (id txn) (type txn) (senderId txn) senderPublicKey'
      (timestamp txn) recipientAddress recipientId' (amount txn) (blockId txn)
      message transferData' sigs in
  if (type txn =? 0) && truthy_string (signatures txn) then
    match signatures txn with
    | None => Normal (newTxn (StoredSignatures (signatures txn)))
    | Some s =>
        let signatureList := split "," s in
        if negb (len signatureList =? 0) then
          cbind (_getMultisigWalletMembers (senderId txn)) (fun multisigMemberList =>
            let memberPublicKeyList := List.map dependentId multisigMemberList in
            cbind (mapC (fun signature =>
                     cbind (_findMultisigMemberWalletAddress txn signature memberPublicKeyList)
                       (fun address => Normal (mkSigner address signature)))
                   signatureList)
              (fun signers => Normal (newTxn (Signers signers))))
        else Normal (newTxn (StoredSignatures (signatures txn)))
    end
  else Normal (newTxn (StoredSignatures (signatures txn))).

(** [async _sanitizeTransactions(transactions)] *)
Definition _sanitizeTransactions (transactions : list TrsRow)
    : Completion (list SanitizedTransaction) :=
  mapC sanitizeTransaction transactions.

(** ** What sanitization returns, in the words of the specification *)

(** The transaction as it is hashed: every column of the row but the
    signatures, the sender public key in hex, and the transfer data as
    text under [asset.data]. *)
Definition canonical_transaction (txn : TrsRow) (publicKey : Buffer) : TransactionToHash :=
  mkTransactionToHash (id txn) (type txn) (senderId txn) (toString_hex publicKey)
    (timestamp txn) (recipientId txn) (amount txn) (blockId txn) (transferData txn)
    (mkAsset (option_map toString_utf8 (transferData txn))).

(** The answer of the library to: does this member public key verify the
    signature against the hash of the canonical transaction? *)
Definition verifies (toHash : TransactionToHash) (signature publicKey : string)
    : Completion bool :=
  cbind (getTransactionBytes toHash) (fun bytes =>
  verifyData (hash bytes) signature publicKey).

(** One resolved signature: the signer address is the address of the
    first member key that verifies it, and is [null] when no member key
    does (or when the first key that does is the empty string). *)
Definition signer_resolved (toHash : TransactionToHash) (memberKeys : list string)
    (sig : string) (signer : Signer) : Prop :=
  signature signer = sig /\
  match signerAddress signer with
  | Some address =>
      exists before publicKey after,
        memberKeys = before ++ publicKey :: after /\
        Forall (fun k => verifies toHash sig k = Normal false) before /\
        verifies toHash sig publicKey = Normal true /\
        publicKey <> "" /\
        getAddressFromPublicKey publicKey = Normal address
  | None =>
      Forall (fun k => verifies toHash sig k = Normal false) memberKeys \/
      exists before after,
        memberKeys = before ++ "" :: after /\
        Forall (fun k => verifies toHash sig k = Normal false) before /\
        verifies toHash sig "" = Normal true
  end.

(** A stored transfer with a non-empty signatures column. *)
Definition signed_transfer (txn : TrsRow) (s : string) : Prop :=
  type txn = 0 /\ signatures txn = Some s /\ s <> "".

(** One sanitized row: the transfer data is returned as text in
    [message], and the signatures of a signed transfer are replaced by
    their signers, one per comma-separated signature, in order, resolved
    among the members of the sender's wallet. *)
Definition row_sanitized (txn : TrsRow) (newTxn : SanitizedTransaction) : Prop :=
  new_message newTxn = option_map toString_utf8 (transferData txn) /\
  new_transferData newTxn = None /\
  forall s, signed_transfer txn s ->
    exists publicKey members signers,
      senderPublicKey txn = Some publicKey /\
      _getMultisigWalletMembers (senderId txn) = Normal members /\
      new_signatures newTxn = Signers signers /\
      Forall2 (signer_resolved (canonical_transaction txn publicKey)
                 (List.map dependentId members))
        (split "," s) signers.

(** The store and the library answer for a signed transfer: the row has
    its sender public key, the member query succeeds, every member key
    has an address, and every verification of one of the signatures with
    one of the member keys returns. *)
Definition answered (txn : TrsRow) : Prop :=
  forall s, signed_transfer txn s ->
    exists publicKey members,
      senderPublicKey txn = Some publicKey /\
      _getMultisigWalletMembers (senderId txn) = Normal members /\
      Forall (fun member =>
                (exists address,
                   getAddressFromPublicKey (dependentId member) = Normal address) /\
                Forall (fun sig =>
                          exists b,
                            verifies (canonical_transaction txn publicKey) sig
                              (dependentId member) = Normal b)
                  (split "," s))
        members.

End Sanitize.

(** ** A sample wallet *)

(** Toy cryptography: a signature by key [k] over bytes [b] is the text
    of [b], a colon, and [k]; an address is the key followed by [L]. *)
Definition sample_utf8 (b : Buffer) : string := string_of_list_byte b.
Definition sample_getTransactionBytes (t : TransactionToHash) : Completion Buffer :=
  Normal (list_byte_of_string (hash_id t)).
Definition sample_hash (b : Buffer) : Buffer := b.
Definition sample_verifyData (h : Buffer) (signature publicKey : string) : Completion bool :=
  if String.eqb signature "" then Throw (ThrownError (Error "bad signature size"))
  else Normal (String.eqb signature (string_of_list_byte h ++ ":" ++ publicKey)%string).
Definition sample_address (publicKey : string) : Completion string :=
  Normal (publicKey ++ "L")%string.

(** The wallet [W] has the members [P1] and [P2]. *)
Definition sample_members (walletAddress : string) : Completion (list MemberRow) :=
  Normal (if String.eqb walletAddress "W" then [mkMemberRow "P1"; mkMemberRow "P2"] else []).

(** A transfer from [W] signed by [P1], by [P2] and by a stranger. *)
Definition sample_transfer : TrsRow :=
  mkTrsRow "77" 0 "W" (Some (list_byte_of_string "key")) 1000 (Some "R") "5" "9"
    (Some (list_byte_of_string "rent")) (Some "77:P1,77:P2,77:P3").

(** ** bootstrap *)

(** The options that [bootstrap] reads and writes: [genesisBlock],
    [loading.rebuildUpToRound], [broadcasts.active], [syncing.active]. *)
Record Options := mkOptions {
  genesisBlock : JsVal;
  rebuildUpToRound : JsVal;
  broadcasts_active : bool;
  syncing_active : bool
}.

(** The calls that [bootstrap] makes on its collaborators. [InitModules]
    records the two flags as the module constructors receive them
    ([broadcasts] for the transport and its broadcaster, [syncingActive]
    for the loader). *)
Inductive BootCall :=
| RequireGenesisBlock
| Invoke (action : string)
| CreateLoggerComponent
| CreateCacheComponent
| CreateStorageComponent
| BootstrapStorage
| BootstrapCache
| MigrationDefineSchema
| MigrationApplyAll
| InitModules (broadcastsActive syncingActive : bool)
| SubscribeAppState
| LoadBlockChain (rebuildUpToRound : JsVal)
| ProcessEmitCleanup (error : option Thrown)
| BlocksOn (event : string)
| PoolOn (event : string)
| LoadUnconfirmedTransactions
| RegisterJob (name : string)
| LoadDelegates
| SubscribeNetwork (endpoint : string)
| Log (level : string) (msg : string).

Abbreviation Boot := (Js.M BootCall Options).

Section Bootstrap.

(** Which collaborator calls throw (or reject), and with what. *)
Variable fails : BootCall -> option Thrown.
(** What [require(this.options.genesisBlockPath)] evaluates to. *)
Variable requiredGenesisBlock : JsVal.
(** Whether the constructor was given a logger, and whether the storage
    component logs to the file of the main logger. *)
Variable logger_given : bool.
Variable same_log_file : bool.

(** A call that is awaited or synchronous: its exception propagates. *)
Definition call (c : BootCall) : Boot unit :=
  emit c ;;;
  match fails c with
  | Some t => throw t
  | None => ret tt
  end.

(** [async _initModules()] *)
Definition _initModules : Boot unit :=
  opts <- get ;;
  call (InitModules (broadcasts_active opts) (syncing_active opts)).

(** [_subscribeToEvents()] *)
Definition _subscribeToEvents : Boot unit :=
  call (BlocksOn "EVENT_BROADCAST_BLOCK") ;;;
  call (BlocksOn "EVENT_DELETE_BLOCK") ;;;
  call (BlocksOn "EVENT_NEW_BLOCK") ;;;
  call (PoolOn "EVENT_UNCONFIRMED_TRANSACTION") ;;;
  emit (Invoke "interchain:updateModuleState") ;;;
  call (BlocksOn "EVENT_NEW_BROADHASH").

(** [_startLoader()] *)
Definition _startLoader : Boot unit :=
  emit LoadUnconfirmedTransactions ;;;
  opts <- get ;;
  if negb (syncing_active opts) then ret tt
  else call (RegisterJob "nextSync").

(** [_calculateConsensus()] *)
Definition _calculateConsensus : Boot unit :=
  call (RegisterJob "calculateConsensus").

(** [async _startForging()] *)
Definition _startForging : Boot unit :=
  try_catch (call LoadDelegates)
            (fun err => emit (Log "error" "Failed to load delegates")) ;;;
  call (RegisterJob "nextForge").

(** [async bootstrap()] *)
Definition bootstrap : Boot unit :=
  call RequireGenesisBlock ;;;
  opts <- get ;;
  put (mkOptions requiredGenesisBlock (rebuildUpToRound opts)
         (broadcasts_active opts) (syncing_active opts)) ;;;
  call (Invoke "app:getComponentConfig logger") ;;;
  call (Invoke "app:getComponentConfig storage") ;;;
  call (Invoke "app:getComponentConfig cache") ;;;
  call (Invoke "app:getApplicationState") ;;;
  (if logger_given then call CreateLoggerComponent
   else
     call CreateLoggerComponent ;;;
     if same_log_file then ret tt else call CreateLoggerComponent) ;;;
  (* Deactivate broadcast and syncing during snapshotting process *)
  opts <- get ;;
  (if truthy (rebuildUpToRound opts) then
     put (mkOptions (genesisBlock opts) (rebuildUpToRound opts) false false)
   else ret tt) ;;;
  try_catch
    (opts <- get ;;
     (if negb (truthy (genesisBlock opts)) then
        throw (ThrownError (Error "Failed to assign nethash from genesis block"))
      else ret tt) ;;;
     emit (Log "debug" "Initiating cache...") ;;;
     call CreateCacheComponent ;;;
     emit (Log "debug" "Initiating storage...") ;;;
     call CreateStorageComponent ;;;
     call BootstrapStorage ;;;
     call BootstrapCache ;;;
     call MigrationDefineSchema ;;;
     try_catch (call MigrationApplyAll)
               (fun error => emit (Log "warn" "Could not apply some migrations")) ;;;
     _initModules ;;;
     call SubscribeAppState ;;;
     emit (Log "info" "Modules ready and launched") ;;;
     (* After binding, it should immediately load blockchain *)
     opts <- get ;;
     call (LoadBlockChain (rebuildUpToRound opts)) ;;;
     opts <- get ;;
     if truthy (rebuildUpToRound opts) then
       emit (ProcessEmitCleanup None)
     else
       _subscribeToEvents ;;;
       _startLoader ;;;
       _calculateConsensus ;;;
       _startForging ;;;
       call (SubscribeNetwork "postTransactions") ;;;
       call (SubscribeNetwork "postBlock"))
    (fun error =>
       emit (Log "fatal" "Chain initialization") ;;;
       emit (ProcessEmitCleanup (Some error))).

End Bootstrap.

(** The calls through which the node takes part in the network: event
    handlers that broadcast blocks and transactions, the loader and its
    sync job, forging, and the two inbound subscriptions. *)
Definition network_facing (c : BootCall) : bool :=
  match c with
  | BlocksOn _ | PoolOn _ => true
  | LoadUnconfirmedTransactions => true
  | RegisterJob _ => true
  | LoadDelegates => true
  | SubscribeNetwork _ => true
  | _ => false
  end.

(** A rebuild up to round 5, configured with broadcasts and syncing on. *)
Definition rebuild_options : Options :=
  mkOptions JUndefined (JNum 5) true true.

(** A regular start with the same configuration. *)
Definition regular_options : Options :=
  mkOptions JUndefined JNull true true.

Definition no_failure (c : BootCall) : option Thrown := None.

(** Module construction with one of the two flags still set. *)
Definition init_with_active_flag (c : BootCall) : bool :=
  match c with
  | InitModules b s => b || s
  | _ => false
  end.

(** A call that a rebuild may make: it does not face the network, and
    it does not construct the modules with a flag still set. *)
Definition rebuild_call (c : BootCall) : Prop :=
  network_facing c = false /\ init_with_active_flag c = false.

(** The two invariants of the options during a rebuild up to [round]:
    the configured round from the start, and both flags false from the
    assignment on. *)
Definition rebuilding (round : JsVal) (o : Options) : Prop :=
  rebuildUpToRound o = round.

Definition deactivated (round : JsVal) (o : Options) : Prop :=
  rebuildUpToRound o = round /\ broadcasts_active o = false /\ syncing_active o = false.

(** The calls of a rebuild in which no collaborator fails, up to the
    loading of the chain. *)
Definition rebuild_prelude (logger_given same_log_file : bool) : list BootCall :=
  [RequireGenesisBlock;
   Invoke "app:getComponentConfig logger";
   Invoke "app:getComponentConfig storage";
   Invoke "app:getComponentConfig cache";
   Invoke "app:getApplicationState"]
  ++ (if logger_given || same_log_file then [CreateLoggerComponent]
      else [CreateLoggerComponent; CreateLoggerComponent])
  ++ [Log "debug" "Initiating cache...";
      CreateCacheComponent;
      Log "debug" "Initiating storage...";
      CreateStorageComponent;
      BootstrapStorage;
      BootstrapCache;
      MigrationDefineSchema;
      MigrationApplyAll;
      InitModules false false;
      SubscribeAppState;
      Log "info" "Modules ready and launched"].

End Chain.

(* ===================================================================== *)
(** * Observations on transport runs *)
(* ===================================================================== *)

Module TransportTraces.
Import Js Transport.

(** The block ids that a run asked the store for, in order. *)
Fixpoint store_queries (trace : list Event) : list string :=
  match trace with
  | [] => []
  | StorageBlockGet blockId :: rest => blockId :: store_queries rest
  | _ :: rest => store_queries rest
  end.

(** The ids of the blocks that a run handed to [receiveBlockFromNetwork]. *)
Fixpoint received_blocks (trace : list Event) : list string :=
  match trace with
  | [] => []
  | ReceiveBlockFromNetwork blockId :: rest => blockId :: received_blocks rest
  | _ :: rest => received_blocks rest
  end.

(** The ids of the transactions that a run handed to the pool. *)
Fixpoint pool_calls (trace : list Event) : list string :=
  match trace with
  | [] => []
  | ProcessUnconfirmedTransaction transactionId :: rest => transactionId :: pool_calls rest
  | _ :: rest => pool_calls rest
  end.

End TransportTraces.

(* ===================================================================== *)
(** * chain: the multisignature wallet action *)
(* ===================================================================== *)

Module ChainActions.
Import Js Chain.

Section Actions.

Variable getAddressFromPublicKey : string -> Completion string.
Variable _getMultisigWalletMembers : string -> Completion (list MemberRow).

(** The action [getMultisigWalletMembers], applied to
    [action.params.walletAddress]. *)
Definition getMultisigWalletMembers (walletAddress : string) : Completion (list string) :=
  cbind (_getMultisigWalletMembers walletAddress) (fun multisigMembers =>
    mapC (fun member => getAddressFromPublicKey (dependentId member)) multisigMembers).

End Actions.

(** What sanitization does to the columns other than [signatures]: the
    sender and the recipient are renamed, the public key is rendered in
    hex and the transfer data as utf-8 text. *)
Definition renamed (toString_utf8 toString_hex : Buffer -> string)
    (txn : TrsRow) (newTxn : SanitizedTransaction) : Prop :=
  new_id newTxn = id txn /\
  new_type newTxn = type txn /\
  new_senderAddress newTxn = senderId txn /\
  new_senderPublicKey newTxn = option_map toString_hex (senderPublicKey txn) /\
  new_timestamp newTxn = timestamp txn /\
  new_amount newTxn = amount txn /\
  new_blockId newTxn = blockId txn /\
  new_message newTxn = option_map toString_utf8 (transferData txn) /\
  new_transferData newTxn = None /\
  (truthy_string (recipientId txn) = true ->
   new_recipientAddress newTxn = recipientId txn /\ new_recipientId newTxn = None) /\
  (truthy_string (recipientId txn) = false ->
   new_recipientAddress newTxn = None /\ new_recipientId newTxn = recipientId txn).

(** The signers of a sanitized transaction, when its signatures were
    resolved. *)
Definition signers_of (newTxn : SanitizedTransaction) : list Signer :=
  match new_signatures newTxn with
  | Signers l => l
  | StoredSignatures _ => []
  end.

(** A row that the wallet [W] signed but whose sender public key is
    missing. *)
Definition keyless_transfer : TrsRow :=
  mkTrsRow "78" 0 "W" None 1001 (Some "R") "5" "9" None (Some "78:P1").

(** A vote: not a transfer, signatures column empty. *)
Definition sample_vote : TrsRow :=
  mkTrsRow "79" 3 "W" (Some (list_byte_of_string "key")) 1002 None "0" "9" None None.

(** A transfer whose signatures column ends with a comma. *)
Definition truncated_transfer : TrsRow :=
  mkTrsRow "80" 0 "W" (Some (list_byte_of_string "key")) 1003 (Some "R") "5" "9" None
    (Some "80:P1,").

(** A store whose member query always fails. *)
Definition failing_members (walletAddress : string) : Completion (list MemberRow) :=
  Throw (ThrownError (Error "connection refused")).

End ChainActions.

(* ===================================================================== *)
(** * chain: observations on bootstrap runs *)
(* ===================================================================== *)

Module BootRuns.
Import Js Chain.

(** A history triple: when the calls made so far satisfy [Pre], the
    calls made so far satisfy [Qn] after a normal completion of [m] and
    [Qe] after an exception. *)
Definition hsafe {E S A} (Pre : list E -> Prop) (m : M E S A)
    (Qn Qe : list E -> Prop) : Prop :=
  forall h s, Pre h ->
    match result_of (m s) with
    | Normal _ => Qn (h ++ trace_of (m s))
    | Throw _ => Qe (h ++ trace_of (m s))
    end.

(** The calls that [bootstrap] makes before its [try] block. *)
Definition prelude_calls : list BootCall :=
  [RequireGenesisBlock;
   Invoke "app:getComponentConfig logger";
   Invoke "app:getComponentConfig storage";
   Invoke "app:getComponentConfig cache";
   Invoke "app:getApplicationState";
   CreateLoggerComponent].

(** The calls of the prelude when none fails. *)
Definition prelude_trace (logger_given same_log_file : bool) : list BootCall :=
  [RequireGenesisBlock;
   Invoke "app:getComponentConfig logger";
   Invoke "app:getComponentConfig storage";
   Invoke "app:getComponentConfig cache";
   Invoke "app:getApplicationState"]
  ++ (if logger_given || same_log_file then [CreateLoggerComponent]
      else [CreateLoggerComponent; CreateLoggerComponent]).

(** What a call of a regular start (no rebuild) looks like, for the
    configured flags [b0] ([broadcasts.active]) and [s0]
    ([syncing.active]): the modules are constructed with the configured
    flags, the sync job is only registered with syncing active, and the
    cleanup signal is only ever emitted with an error. *)
Definition regular_call (b0 s0 : bool) (c : BootCall) : Prop :=
  match c with
  | InitModules b s => b = b0 /\ s = s0
  | RegisterJob name => name = "nextSync" -> s0 = true
  | ProcessEmitCleanup error => error <> None
  | _ => True
  end.

(** The options of a run that was configured with [round], [b0], [s0]. *)
Definition configured (round : JsVal) (b0 s0 : bool) (o : Options) : Prop :=
  rebuildUpToRound o = round /\ broadcasts_active o = b0 /\ syncing_active o = s0.

(** No network-facing call so far. *)
Definition quiet (h : list BootCall) : Prop :=
  Forall (fun c => network_facing c = false) h.

(** Every network-facing call comes after a call of [loadBlockChain]. *)
Definition loaded_first (h : list BootCall) : Prop :=
  forall before c after,
    h = before ++ c :: after -> network_facing c = true ->
    exists round, In (LoadBlockChain round) before.

(** The chain was loaded, and no network-facing call came before. *)
Definition loaded (h : list BootCall) : Prop :=
  loaded_first h /\ exists round, In (LoadBlockChain round) h.

Definition is_cleanup (c : BootCall) : bool :=
  match c with
  | ProcessEmitCleanup _ => true
  | _ => false
  end.

(** No cleanup signal so far. *)
Definition running (h : list BootCall) : Prop :=
  Forall (fun c => is_cleanup c = false) h.

(** The cleanup signal was emitted once, as the last call. *)
Definition cleaned_up (h : list BootCall) : Prop :=
  exists before error, h = before ++ [ProcessEmitCleanup error] /\ running before.

(** The run is still going, or it ended with the cleanup signal. *)
Definition over (h : list BootCall) : Prop := running h \/ cleaned_up h.

End BootRuns.

(* ===================================================================== *)
(** * transport: serving blocks and announcing *)
(* ===================================================================== *)

Module TransportServing.
Import Js.
Local Open Scope js_scope.

(** A block total as the blocks module hands it over: a big number
    object, a string, or nothing. *)
Inductive Amount :=
| AmountUndefined
| AmountBig (z : Z)
| AmountString (s : string).

(** The block that [onBroadcastBlock] receives and sends. *)
Record BroadcastBlock (T : Type) := mkBroadcastBlock {
  block_id : string;
  totalAmount : Amount;
  totalFee : Amount;
  reward : Amount;
  block_transactions : option (list T)
}.
Arguments mkBroadcastBlock {T}.
Arguments block_id {T}.
Arguments totalAmount {T}.
Arguments totalFee {T}.
Arguments reward {T}.
Arguments block_transactions {T}.

Inductive Event :=
| LogDebug (msg : string)
| LogError (msg : string)
| LoadBlocksDataWS (limit : Z) (lastId : string)
| BroadcasterEnqueue (api : string) (transaction : Transport.TransactionJSON)
| BroadcasterBroadcast (broadhash : option string) (api : string)
    (block : BroadcastBlock Transport.TransactionJSON)
| ChannelPublish (event : string) (transaction : Transport.TransactionJSON).

Abbreviation M := (Js.M Event unit).

(** ** blocks *)

Record BlocksQuery := mkBlocksQuery {
  lastBlockId : option string
}.

(** The [tf_data] column of a row of the full blocks list: [null], a
    buffer, or text. *)
Inductive TfData :=
| TfNull
| TfBuffer (b : list Byte.byte)
| TfText (s : string).

Record BlockData := mkBlockData {
  b_id : string;
  b_height : Z;
  tf_data : TfData
}.

Inductive Message :=
| MessageText (s : string)
| MessageError (t : Thrown).

Record BlocksResult := mkBlocksResult {
  blocks_of : option (list BlockData);
  message_of : option Message;
  success_of : bool
}.

Section Blocks.

(** [blocksModule.loadBlocksDataWS({limit, lastId})] and
    [Buffer.prototype.toString('utf8')], which the code guards with a
    [try]. *)
Variable loadBlocksDataWS : Z -> string -> Completion (list BlockData).
Variable toString_utf8 : list Byte.byte -> Completion string.

(** The callback of [_.each(data, ...)]. *)
Definition convert_tf_data (block : BlockData) : M BlockData :=
  match tf_data block with
  | TfNull => ret block
  | TfText s =>
      (* a string is its own [toString]; the empty string is falsy *)
      ret block
  | TfBuffer b =>
      try_catch
        (s <- lift (toString_utf8 b) ;;
         ret (mkBlockData (b_id block) (b_height block) (TfText s)))
        (fun e =>
           emit (LogError "Transport->blocks: Failed to convert data field to UTF-8") ;;;
           ret block)
  end.

Fixpoint each (data : list BlockData) : M (list BlockData) :=
  match data with
  | [] => ret []
  | block :: rest =>
      block' <- convert_tf_data block ;;
      rest' <- each rest ;;
      ret (block' :: rest')
  end.

(** [async blocks(query)] *)
Definition blocks (query : option BlocksQuery) : M BlocksResult :=
  let invalid :=
    mkBlocksResult None (Some (MessageText "Invalid lastBlockId requested")) false in
  match query with
  | None => ret invalid
  | Some q =>
      match lastBlockId q with
      | None => ret invalid
      | Some lastId =>
          if String.eqb lastId "" then ret invalid
          else
            try_catch
              (emit (LoadBlocksDataWS 34 lastId) ;;;
               data <- lift (loadBlocksDataWS 34 lastId) ;;
               data' <- each data ;;
               ret (mkBlocksResult (Some data') None true))
              (fun err => ret (mkBlocksResult (Some []) (Some (MessageError err)) false))
      end
  end.

(** What the conversion does to one row, as a relation. *)
Definition converted (block block' : BlockData) : Prop :=
  b_id block' = b_id block /\
  b_height block' = b_height block /\
  match tf_data block with
  | TfBuffer b =>
      match toString_utf8 b with
      | Normal s => tf_data block' = TfText s
      | Throw _ => tf_data block' = TfBuffer b
      end
  | other => tf_data block' = other
  end.

End Blocks.

(** ** onBroadcastBlock, onUnconfirmedTransaction *)

Section Announce.

Variable Transaction : Type.
(** [transaction.toJSON()] and the [toString] of the big number library *)
Variable toJSON : Transaction -> Transport.TransactionJSON.
Variable big_toString : Z -> string.

(** [if (block.x) { block.x = block.x.toString(); }]: objects and
    non-empty strings are truthy. *)
Definition stringify (a : Amount) : Amount :=
  match a with
  | AmountUndefined => AmountUndefined
  | AmountBig z => AmountString (big_toString z)
  | AmountString s => AmountString s
  end.

(** [onBroadcastBlock(block, broadcast)]; [syncing] is what
    [loaderModule.syncing()] answers and [broadhash] the broadhash of the
    application state. The result is [None] for [null]. *)
Definition onBroadcastBlock (moduleAlias : string) (syncing : bool)
    (broadhash : option string) (block : BroadcastBlock Transaction) (broadcast : bool)
    : M (option unit) :=
  if negb broadcast then ret None
  else if syncing then
    emit (LogDebug
            "Transport->onBroadcastBlock: Aborted - blockchain synchronization in progress") ;;;
    ret None
  else
    let block' :=
      mkBroadcastBlock (block_id block)
        (stringify (totalAmount block))
        (stringify (totalFee block))
        (stringify (reward block))
        (match block_transactions block with
         | Some txs => Some (List.map toJSON txs)
         | None => None
         end) in
    emit (BroadcasterBroadcast broadhash (moduleAlias ++ ":postBlock")%string block') ;;;
    ret (Some tt).

(** [onUnconfirmedTransaction(transaction, broadcast)] *)
Definition onUnconfirmedTransaction (moduleAlias : string) (transaction : Transaction)
    (broadcast : bool) : M unit :=
  if broadcast then
    let transactionJSON := toJSON transaction in
    emit (BroadcasterEnqueue (moduleAlias ++ ":postTransactions")%string transactionJSON) ;;;
    emit (ChannelPublish (moduleAlias ++ ":transactions:change")%string transactionJSON)
  else ret tt.

End Announce.

(** The blocks that a run handed to the broadcaster. *)
Fixpoint broadcasts_of (trace : list Event)
    : list (option string * string * BroadcastBlock Transport.TransactionJSON) :=
  match trace with
  | [] => []
  | BroadcasterBroadcast bh api block :: rest => (bh, api, block) :: broadcasts_of rest
  | _ :: rest => broadcasts_of rest
  end.

(** ** Samples *)

Definition sample_load (limit : Z) (lastId : string) : Completion (list BlockData) :=
  if String.eqb lastId "404" then Throw (ThrownError (Error "Blocks#list error"))
  else Normal [mkBlockData "5" 5 (TfBuffer (list_byte_of_string "rent"));
               mkBlockData "6" 6 TfNull].

Definition sample_toString (b : list Byte.byte) : Completion string :=
  Normal (string_of_list_byte b).

End TransportServing.

(* ===================================================================== *)
(** * chain: event handlers, listeners and cleanup *)
(* ===================================================================== *)

Module ChainEvents.
Import Js Chain.
Local Open Scope js_scope.

(** ** The handlers of block events *)

(** The block object that the blocks module emits; the handlers read
    [id], [height] and [transactions]. *)
Record Block (T : Type) := mkBlock {
  block_id : string;
  block_height : Z;
  transactions : list T
}.
Arguments mkBlock {T}.
Arguments block_id {T}.
Arguments block_height {T}.
Arguments transactions {T}.

Inductive Payload (T : Type) :=
| PayloadTransactions (txs : list T)
| PayloadBlock (block : Block T).
Arguments PayloadTransactions {T}.
Arguments PayloadBlock {T}.

Inductive HandlerCall (T : Type) :=
| OnDeletedTransactions (txs : list T)
| OnConfirmedTransactions (txs : list T)
| Publish (event : string) (payload : Payload T)
| LogInfo (msg : string).
Arguments OnDeletedTransactions {T}.
Arguments OnConfirmedTransactions {T}.
Arguments Publish {T}.
Arguments LogInfo {T}.

Section Handlers.

Variable T : Type.
Variable moduleAlias : string.

(** The listener of [EVENT_DELETE_BLOCK]. The block object is shared
    with the emitter and with the other listeners, and
    [Array.prototype.reverse] reverses it in place: the state of the
    handler is the block object. *)
Definition on_delete_block : Js.M (HandlerCall T) (Block T) unit :=
  block <- get ;;
  (if negb (len (transactions block) =? 0) then
     (* const transactions = block.transactions.reverse(); *)
     put (mkBlock (block_id block) (block_height block) (List.rev (transactions block))) ;;;
     block <- get ;;
     let transactions' := transactions block in
     emit (OnDeletedTransactions transactions') ;;;
     emit (Publish (moduleAlias ++ ":transactions:confirmed:change")%string
             (PayloadTransactions (transactions block)))
   else ret tt) ;;;
  emit (LogInfo "Deleted a block from the leasehold chain") ;;;
  block <- get ;;
  emit (Publish (moduleAlias ++ ":blocks:change")%string (PayloadBlock block)).

(** The listener of [EVENT_NEW_BLOCK]. *)
Definition on_new_block : Js.M (HandlerCall T) (Block T) unit :=
  block <- get ;;
  (if negb (len (transactions block) =? 0) then
     emit (OnConfirmedTransactions (transactions block)) ;;;
     emit (Publish (moduleAlias ++ ":transactions:confirmed:change")%string
             (PayloadTransactions (transactions block)))
   else ret tt) ;;;
  emit (LogInfo "New block added to the leasehold chain") ;;;
  emit (Publish (moduleAlias ++ ":blocks:change")%string (PayloadBlock block)).

End Handlers.

(** ** Listeners *)

(** The listeners of the two event emitters, counted per event name. *)
Record Emitters := mkEmitters {
  blocks_listeners : gmap string nat;
  pool_listeners : gmap string nat
}.

(** [emitter.on(event, listener)] *)
Definition add_listener (event : string) (listeners : gmap string nat) : gmap string nat :=
  <[event := S (default 0%nat (listeners !! event))]> listeners.

(** [emitter.removeAllListeners(event)] *)
Definition removeAllListeners (event : string) (listeners : gmap string nat)
    : gmap string nat :=
  delete event listeners.

(** The effect of one call of [bootstrap] on the emitters. *)
Definition register (c : BootCall) (e : Emitters) : Emitters :=
  match c with
  | BlocksOn event => mkEmitters (add_listener event (blocks_listeners e)) (pool_listeners e)
  | PoolOn event => mkEmitters (blocks_listeners e) (add_listener event (pool_listeners e))
  | _ => e
  end.

Definition registered (trace : list BootCall) (e : Emitters) : Emitters :=
  List.fold_left (fun e c => register c e) trace e.

(** [_subscribeToEvents()], when no registration throws, as it acts on
    the emitters. *)
Definition subscribed (e : Emitters) : Emitters :=
  registered
    (trace_of (_subscribeToEvents no_failure (mkOptions JUndefined JNull true true)))
    e.

(** [_unsubscribeToEvents()]: five calls, all on [this.blocks]. *)
Definition _unsubscribeToEvents (e : Emitters) : Emitters :=
  let b := blocks_listeners e in
  let b := removeAllListeners "EVENT_BROADCAST_BLOCK" b in
  let b := removeAllListeners "EVENT_DELETE_BLOCK" b in
  let b := removeAllListeners "EVENT_NEW_BLOCK" b in
  let b := removeAllListeners "EVENT_NEW_BROADHASH" b in
  let b := removeAllListeners "EVENT_UNCONFIRMED_TRANSACTION" b in
  mkEmitters b (pool_listeners e).

(** The names of the four block events. *)
Definition block_events : list string :=
  ["EVENT_BROADCAST_BLOCK"; "EVENT_DELETE_BLOCK"; "EVENT_NEW_BLOCK"; "EVENT_NEW_BROADHASH"].

(** One subscription and one unsubscription. *)
Definition cycle (e : Emitters) : Emitters := _unsubscribeToEvents (subscribed e).

(** ** cleanup *)

(** A component or module of the scope: [cleanup] is absent, or it is an
    asynchronous function with the given outcome. *)
Record Component := mkComponent {
  cleanup_of : option (Completion unit)
}.

(** [this.scope]: [components] is set with the scope, [modules] by
    [_initModules]. *)
Record Scope := mkScope {
  modules : option (list (string * Component));
  components : option (list (string * Component))
}.

(** The chain object, as far as [cleanup] reads it: [this.blocks] (with
    the emitters) is set by [_initModules], [this.scope] by [bootstrap]. *)
Record ChainObject := mkChainObject {
  emitters : option Emitters;
  scope : option Scope
}.

Inductive CleanupCall :=
| LogFatal (msg : string)
| LogInfoMsg (msg : string)
| LogErrorMsg (msg : string)
| ComponentCleanup (key : string)
| ModuleCleanup (key : string).

Section Cleanup.

Variable error_toString : Thrown -> string.
Variable convertErrorsToString : Thrown -> string.

(** [Object.keys(components).forEach(async key => ...)]: each cleanup is
    started; its outcome is not awaited by [cleanup]. *)
Fixpoint cleanup_components (cs : list (string * Component))
    : Js.M CleanupCall ChainObject unit :=
  match cs with
  | [] => ret tt
  | (key, c) :: rest =>
      (match cleanup_of c with
       | Some _ => emit (ComponentCleanup key)
       | None => ret tt
       end) ;;;
      cleanup_components rest
  end.

(** [Object.keys(modules).map(key => ...)]: every cleanup is started
    before any is awaited; the result is the list of their outcomes. *)
Fixpoint start_module_cleanups (ms : list (string * Component))
    : Js.M CleanupCall ChainObject (list (Completion unit)) :=
  match ms with
  | [] => ret []
  | (key, m) :: rest =>
      outcome <- (match cleanup_of m with
                  | Some r => emit (ModuleCleanup key) ;;; ret r
                  | None => ret (Normal tt)
                  end) ;;
      outcomes <- start_module_cleanups rest ;;
      ret (outcome :: outcomes)
  end.

(** The rejection of [Promise.all]: here the first rejected promise in
    key order. *)
Fixpoint first_rejection (outcomes : list (Completion unit)) : option Thrown :=
  match outcomes with
  | [] => None
  | Throw t :: _ => Some t
  | Normal _ :: rest => first_rejection rest
  end.

(** [async cleanup(error)] *)
Definition cleanup (error : option Thrown) : Js.M CleanupCall ChainObject unit :=
  this <- get ;;
  (* this._unsubscribeToEvents() *)
  match emitters this with
  | None =>
      throw (ThrownError (TypeError "Cannot read property 'removeAllListeners' of undefined"))
  | Some e =>
      put (mkChainObject (Some (_unsubscribeToEvents e)) (scope this)) ;;;
      match scope this with
      | None => throw (ThrownError (TypeError "Cannot destructure property 'modules' of null"))
      | Some sc =>
          (match error with
           | Some err => emit (LogFatal (error_toString err))
           | None => ret tt
           end) ;;;
          emit (LogInfoMsg "Cleaning chain...") ;;;
          (match components sc with
           | Some cs => cleanup_components cs
           | None => ret tt
           end) ;;;
          match modules sc with
          | None =>
              throw (ThrownError (TypeError "Cannot convert undefined or null to object"))
          | Some ms =>
              outcomes <- start_module_cleanups ms ;;
              (match first_rejection outcomes with
               | Some moduleCleanupError =>
                   emit (LogErrorMsg (convertErrorsToString moduleCleanupError))
               | None => ret tt
               end) ;;;
              emit (LogInfoMsg "Cleaned up successfully")
          end
      end
  end.

End Cleanup.

(** The keys of the entries that have a [cleanup]. *)
Definition with_cleanup (entries : list (string * Component)) : list string :=
  List.map fst (List.filter (fun e => match cleanup_of (snd e) with
                                      | Some _ => true
                                      | None => false
                                      end) entries).

Fixpoint component_cleanups (trace : list CleanupCall) : list string :=
  match trace with
  | [] => []
  | ComponentCleanup key :: rest => key :: component_cleanups rest
  | _ :: rest => component_cleanups rest
  end.

Fixpoint module_cleanups (trace : list CleanupCall) : list string :=
  match trace with
  | [] => []
  | ModuleCleanup key :: rest => key :: module_cleanups rest
  | _ :: rest => module_cleanups rest
  end.

(** ** Samples *)

Definition sample_scope : Scope :=
  mkScope
    (Some [("interfaceAdapters", mkComponent None);
           ("blocks", mkComponent (Some (Normal tt)));
           ("loader", mkComponent (Some (Throw (ThrownError (Error "busy")))));
           ("transport", mkComponent (Some (Normal tt)))])
    (Some [("storage", mkComponent (Some (Normal tt)));
           ("cache", mkComponent (Some (Throw (ThrownError (Error "closed")))));
           ("logger", mkComponent None)]).

Definition no_listeners : Emitters := mkEmitters ∅ ∅.

End ChainEvents.

(* ===================================================================== *)
(** * The module wrapper *)
(* ===================================================================== *)

Module LeaseholdChainModule.
Import Js Chain.

Definition DEFAULT_MODULE_ALIAS : string := "leasehold_chain".

(** [options.alias || DEFAULT_MODULE_ALIAS], with [options] replaced by
    the empty object when missing. *)
Definition alias_of (options : option (option string)) : string :=
  match options with
  | Some (Some a) => if String.eqb a "" then DEFAULT_MODULE_ALIAS else a
  | _ => DEFAULT_MODULE_ALIAS
  end.

Inductive ModuleCall :=
| ChainCall (c : BootCall)
| ChannelPublish (event : string).

(** [async load(channel, options)]: the chain is bootstrapped, then the
    bootstrap event is published. *)
Definition load (alias : string) (fails : BootCall -> option Thrown)
    (requiredGenesisBlock : JsVal) (logger_given same_log_file : bool)
    : Js.M ModuleCall Options unit :=
  fun options =>
    let run := bootstrap fails requiredGenesisBlock logger_given same_log_file options in
    match result_of run with
    | Normal _ =>
        (Normal tt, state_of run,
         List.map ChainCall (trace_of run) ++ [ChannelPublish (alias ++ ":bootstrap")%string])
    | Throw t => (Throw t, state_of run, List.map ChainCall (trace_of run))
    end.

End LeaseholdChainModule.

(* ===================================================================== *)
(** * chain: the jobs of the job queue *)
(* ===================================================================== *)

Module ChainTasks.
Import Js.
Local Open Scope js_scope.

Inductive TaskCall : Type :=
  | LogDebug (message : string)
  | LogError (error : Thrown) (message : option string)
  | SequenceAdd
  | LoaderSync
  | BeforeForge
  | Forge.

Definition is_sync (c : TaskCall) : bool :=
  match c with LoaderSync => true | _ => false end.

Definition is_forge (c : TaskCall) : bool :=
  match c with Forge => true | _ => false end.

Section Tasks.

(** The state of the node, as the loader, the blocks module, the forger
    and the rounds module see it. *)
Variable NodeState : Type.
Variable loader_syncing : NodeState -> bool.
Variable blocks_isStale : NodeState -> bool.
Variable forger_delegatesEnabled : NodeState -> bool.
Variable rounds_ticking : NodeState -> bool.
Variable loader_sync : NodeState -> Completion unit * NodeState.
Variable forger_beforeForge : NodeState -> Completion unit * NodeState.
Variable forger_forge : NodeState -> Completion unit * NodeState.
(** What the tasks that are ahead in the sequence do to the node before
    a task that is added now gets its turn. *)
Variable pending : NodeState -> NodeState.

Local Abbreviation M := (Js.M TaskCall NodeState).

Definition external (c : TaskCall) (f : NodeState -> Completion unit * NodeState)
    : M unit :=
  fun st =>
    match f st with
    | (r, st') => (r, st', [c])
    end.

(** [await this.scope.sequence.add(worker)]: the worker runs after the
    tasks that are ahead of it, and its outcome is the outcome of the
    call. *)
Definition sequence_add (worker : M unit) : M unit :=
  emit SequenceAdd ;;;
  st <- get ;;
  put (pending st) ;;;
  worker.

(** [async _syncTask()] *)
Definition _syncTask : M unit :=
  emit (LogDebug "Sync time triggered") ;;;
  st <- get ;;
  if negb (loader_syncing st) && blocks_isStale st then
    sequence_add
      (try_catch (external LoaderSync loader_sync)
         (fun error => emit (LogError error (Some "Sync timer"))))
  else ret tt.

(** [async _forgingTask()] *)
Definition _forgingTask : M unit :=
  sequence_add
    (try_catch
       (external BeforeForge forger_beforeForge ;;;
        st <- get ;;
        if negb (forger_delegatesEnabled st) then
          emit (LogDebug "No delegates are enabled")
        else if loader_syncing st || rounds_ticking st then
          emit (LogDebug "Client not ready to forge")
        else
          external Forge forger_forge)
       (fun error => emit (LogError error None))).

End Tasks.

(** A node for examples: whether it is syncing, and its height. *)
Definition SampleNode : Type := bool * Z.

Definition sample_sync (st : SampleNode) : Completion unit * SampleNode :=
  (Throw (ThrownError (Error "Failed to sync")), (false, snd st)).

Definition sample_forge (st : SampleNode) : Completion unit * SampleNode :=
  (Normal tt, (fst st, snd st + 1)).

End ChainTasks.

(* ===================================================================== *)
(** * Facts about the JavaScript primitives *)
(* ===================================================================== *)

Module JsFacts.
Import Js.

Lemma split_nonempty (sep : ascii) (s : string) : split sep s <> [].
Proof.
  destruct s as [|c s']; simpl; [discriminate|].
  destruct (Ascii.eqb c sep); [discriminate|].
  destruct (split sep s'); discriminate.
Qed.

Lemma len_split_nonzero (sep : ascii) (s : string) : (len (split sep s) =? 0) = false.
Proof.
  pose proof (split_nonempty sep s) as H. unfold len.
  destruct (split sep s) as [|w ws]; [congruence | reflexivity].
Qed.

(** [Array.prototype.find] returns the first element that satisfies the
    callback. *)
Lemma find_first {A} (p : A -> bool) (l : list A) (x : A) :
  List.find p l = Some x ->
  exists before after,
    l = before ++ x :: after /\ Forall (fun y => p y = false) before /\ p x = true.
Proof.
  induction l as [|y l IH]; simpl; [discriminate|].
  destruct (p y) eqn:Hy.
  - intros H. injection H as ->. exists [], l. auto.
  - intros H. destruct (IH H) as (before & after & -> & Hb & Hx).
    exists (y :: before), after. auto.
Qed.

Lemma find_none_all {A} (p : A -> bool) (l : list A) :
  List.find p l = None -> Forall (fun y => p y = false) l.
Proof.
  induction l as [|y l IH]; simpl; [constructor|].
  destruct (p y) eqn:Hy; [discriminate|]. auto.
Qed.

(** ** Rules for safety triples *)

Section Safe.

Context {E S : Type}.
Variable P : E -> Prop.

Lemma safe_ret {A} (Pre : S -> Prop) (a : A) : safe Pre P (ret a) Pre.
Proof. intros s Hs. split; [constructor | exact Hs]. Qed.

Lemma safe_throw {A} (Pre : S -> Prop) (t : Thrown) : safe Pre P (throw (A := A) t) Pre.
Proof. intros s Hs. split; [constructor | exact Hs]. Qed.

Lemma safe_emit (Pre : S -> Prop) (e : E) : P e -> safe Pre P (emit e) Pre.
Proof. intros He s Hs. split; [repeat constructor; exact He | exact Hs]. Qed.

Lemma safe_put (Pre Post : S -> Prop) (s' : S) : Post s' -> safe Pre P (put s') Post.
Proof. intros Hs' s Hs. split; [constructor | exact Hs']. Qed.

Lemma safe_bind {A B} (Pre Mid Post : S -> Prop) (m : M E S A) (k : A -> M E S B) :
  safe Pre P m Mid ->
  (forall a, safe Mid P (k a) Post) ->
  (forall s, Mid s -> Post s) ->
  safe Pre P (bind m k) Post.
Proof.
  intros Hm Hk Hthrow s Hs. destruct (Hm s Hs) as [Htr Hmid].
  unfold bind. unfold state_of, trace_of in *.
  destruct (m s) as [[[a|t] s1] tr1]; simpl in *.
  - destruct (Hk a s1 Hmid) as [Htr2 Hpost].
    unfold state_of, trace_of in *.
    destruct (k a s1) as [[r s2] tr2]; simpl in *.
    split; [apply Forall_app; auto | exact Hpost].
  - split; [exact Htr | apply Hthrow, Hmid].
Qed.

Lemma safe_bind_get {B} (Pre Post : S -> Prop) (k : S -> M E S B) :
  (forall o, Pre o -> safe Pre P (k o) Post) ->
  safe Pre P (bind get k) Post.
Proof.
  intros Hk s Hs. destruct (Hk s Hs s Hs) as [Htr Hpost].
  unfold bind, get. unfold state_of, trace_of in *.
  destruct (k s s) as [[r s2] tr2]; simpl in *. auto.
Qed.

Lemma safe_try_catch {A} (Pre Mid Post : S -> Prop) (m : M E S A)
    (h : Thrown -> M E S A) :
  safe Pre P m Mid ->
  (forall t, safe Mid P (h t) Post) ->
  (forall s, Mid s -> Post s) ->
  safe Pre P (try_catch m h) Post.
Proof.
  intros Hm Hh Hnormal s Hs. destruct (Hm s Hs) as [Htr Hmid].
  unfold try_catch. unfold state_of, trace_of in *.
  destruct (m s) as [[[a|t] s1] tr1]; simpl in *.
  - auto.
  - destruct (Hh t s1 Hmid) as [Htr2 Hpost].
    unfold state_of, trace_of in *.
    destruct (h t s1) as [[r s2] tr2]; simpl in *.
    split; [apply Forall_app; auto | exact Hpost].
Qed.

Lemma safe_weaken {A} (Pre Pre' Post Post' : S -> Prop) (m : M E S A) :
  (forall s, Pre' s -> Pre s) ->
  (forall s, Post s -> Post' s) ->
  safe Pre P m Post -> safe Pre' P m Post'.
Proof.
  intros Hpre Hpost Hm s Hs. destruct (Hm s (Hpre s Hs)) as [Htr Hp].
  split; [exact Htr | apply Hpost, Hp].
Qed.

End Safe.

End JsFacts.

(* ===================================================================== *)
(** * Properties of peers.js *)
(* ===================================================================== *)

Module PeersSpec.
Import Js Peers.

Lemma len_filter_count (p : Peer -> bool) (peers : list Peer) :
  len (List.filter p peers) = count_peers p peers.
Proof.
  unfold len. induction peers as [|peer rest IH]; simpl; [reflexivity|].
  destruct (p peer); simpl length; lia.
Qed.

Lemma count_peers_nonneg (p : Peer -> bool) (peers : list Peer) :
  0 <= count_peers p peers.
Proof.
  induction peers as [|peer rest IH]; simpl; [lia|]. destruct (p peer); lia.
Qed.

Lemma matches_advertises (alias : string) (bh : option string) (peer : Peer) :
  matches alias bh peer = true -> advertises alias peer = true.
Proof.
  unfold matches, advertises.
  destruct (modules peer) as [ms|]; [|discriminate].
  destruct (ms !! alias); [reflexivity | discriminate].
Qed.

Lemma peer_broadhash_active (alias : string) (bh : option string) (peer : Peer) :
  advertises alias peer = true ->
  cbind (peer_broadhash alias peer) (fun pbh => Normal (strict_eq pbh bh))
  = Normal (matches alias bh peer).
Proof.
  unfold matches, advertises, peer_broadhash.
  destruct (modules peer) as [ms|]; [|discriminate].
  destruct (ms !! alias); [reflexivity | discriminate].
Qed.

(** The second filter runs over the active peers only, where both
    property accesses succeed: it never throws, and it keeps exactly the
    peers that [matches] describes. *)
Lemma filterC_matching (alias : string) (bh : option string) (peers : list Peer) :
  filterC (fun peer =>
             cbind (peer_broadhash alias peer) (fun pbh => Normal (strict_eq pbh bh)))
          (List.filter (advertises alias) peers)
  = Normal (List.filter (matches alias bh) peers).
Proof.
  induction peers as [|peer rest IH]; simpl; [reflexivity|].
  destruct (advertises alias peer) eqn:Hadv.
  - simpl. rewrite (peer_broadhash_active alias bh peer Hadv). simpl.
    rewrite IH. simpl. destruct (matches alias bh peer); reflexivity.
  - destruct (matches alias bh peer) eqn:Hm; [|exact IH].
    apply matches_advertises in Hm. congruence.
Qed.

(** The quotient of the last line of [calculateConsensus] is finite as
    soon as the active count is not zero. *)
Lemma ratio_finite (m a : Z) :
  a <> 0 ->
  div (Math_round (div (of_Z (m * 10000)) (of_Z a))) (of_Z 100)
  = Fin (inject_Z (Qfloor (inject_Z (m * 10000) / inject_Z a + (1 # 2))) / inject_Z 100).
Proof.
  intros Ha. unfold of_Z, div, Math_round.
  assert (Hz : Qeq_bool (inject_Z a) 0 = false).
  { apply not_true_is_false. intros H. apply Qeq_bool_iff in H.
    unfold Qeq, inject_Z in H. simpl in H. lia. }
  rewrite Hz. reflexivity.
Qed.

(** The value of [calculateConsensus] on each of its three paths. *)
Lemma calculateConsensus_cases (this : Peers) (channel : Channel) :
  let peers := getConnectedPeers channel in
  match app_modules (getApplicationState channel) !! moduleAlias this with
  | None => calculateConsensus this channel = Normal (of_Z 0)
  | Some moduleInfo =>
      let a := active (moduleAlias this) peers in
      let m := matched (moduleAlias this) (broadhash moduleInfo) peers in
      (a = 0 /\ calculateConsensus this channel = Normal (of_Z 0)) \/
      (0 < a /\
       calculateConsensus this channel =
         Normal (div (Math_round (div (of_Z (m * 10000)) (of_Z a))) (of_Z 100)))
  end.
Proof.
  intros peers. unfold calculateConsensus, resolved.
  cbn [invoke_getApplicationState invoke_getConnectedPeers state_modules cbind].
  destruct (app_modules (getApplicationState channel) !! moduleAlias this)
    as [moduleInfo|] eqn:Hinfo; [|reflexivity].
  fold peers. rewrite filterC_matching. simpl cbind.
  rewrite !len_filter_count. unfold Math_min. fold (active (moduleAlias this) peers).
  fold (matched (moduleAlias this) (broadhash moduleInfo) peers).
  set (a := active (moduleAlias this) peers).
  set (m := matched (moduleAlias this) (broadhash moduleInfo) peers).
  assert (Ha : 0 <= a).
  { unfold a, active, MAX_PEERS.
    pose proof (count_peers_nonneg (advertises (moduleAlias this)) peers). lia. }
  destruct (a =? 0) eqn:Ea.
  - left. apply Z.eqb_eq in Ea. split; [exact Ea | reflexivity].
  - right. apply Z.eqb_neq in Ea. split; [lia | reflexivity].
Qed.


Lemma no_peer_advertises (alias : string) (peers : list Peer) :
  Forall (fun peer => advertises alias peer = false) peers ->
  count_peers (advertises alias) peers = 0.
Proof.
  induction 1 as [|peer rest Hp _ IH]; simpl; [reflexivity|].
  rewrite Hp, IH. reflexivity.
Qed.

(** [Math.round] moves its argument by at most one half. *)
Lemma round_bounds (x : Q) :
  (inject_Z (Qfloor (x + (1 # 2))) - (1 # 2) <= x)%Q /\
  (x < inject_Z (Qfloor (x + (1 # 2))) + (1 # 2))%Q.
Proof.
  pose proof (Qfloor_le (x + (1 # 2))) as Hle.
  pose proof (Qlt_floor (x + (1 # 2))) as Hlt.
  rewrite inject_Z_plus in Hlt. change (inject_Z 1) with 1%Q in Hlt.
  generalize dependent (inject_Z (Qfloor (x + (1 # 2)))). intros n Hle Hlt.
  split; lra.
Qed.

Lemma inject_Z_nonzero (a : Z) : a <> 0 -> ~ (inject_Z a == 0)%Q.
Proof. intros Ha H. unfold Qeq, inject_Z in H. simpl in H. lia. Qed.

Lemma hundredths (n : Z) : (inject_Z n / inject_Z 100 == n # 100)%Q.
Proof. unfold Qeq, Qdiv, Qmult, Qinv, inject_Z. simpl. lia. Qed.

(** C2. With the chain's module present in the application state,
    [calculateConsensus] returns a number of two decimals: matched/active
    * 100 rounded to two decimals, where active counts the connected
    peers that advertise the alias and matched those among them whose
    broadhash equals the chain's, both clamped to MAX_PEERS = 100; it is
    100.00 when matched = active (and some peer is active) and 0 when
    matched = 0. *)
Theorem calculateConsensus_ratio (this : Peers) (channel : Channel) (moduleInfo : ModuleInfo) :
  app_modules (getApplicationState channel) !! moduleAlias this = Some moduleInfo ->
  exists q : Q,
    calculateConsensus this channel = Normal (Fin q) /\
    (exists n : Z, q == n # 100)%Q /\
    (0 < active (moduleAlias this) (getConnectedPeers channel) ->
     (Qabs (q - inject_Z 100
                * inject_Z (matched (moduleAlias this) (broadhash moduleInfo)
                              (getConnectedPeers channel))
                / inject_Z (active (moduleAlias this) (getConnectedPeers channel)))
        <= 1 # 200)%Q) /\
    (0 < active (moduleAlias this) (getConnectedPeers channel) ->
     matched (moduleAlias this) (broadhash moduleInfo) (getConnectedPeers channel)
     = active (moduleAlias this) (getConnectedPeers channel) ->
     (q == 100)%Q) /\
    (matched (moduleAlias this) (broadhash moduleInfo) (getConnectedPeers channel) = 0 ->
     (q == 0)%Q).
Proof.
  intros Hinfo.
  pose proof (calculateConsensus_cases this channel) as Hc. cbv zeta in Hc.
  rewrite Hinfo in Hc.
  set (a := active (moduleAlias this) (getConnectedPeers channel)) in *.
  set (m := matched (moduleAlias this) (broadhash moduleInfo) (getConnectedPeers channel)) in *.
  destruct Hc as [[Ha0 Hc] | [Hpos Hc]].
  { exists (inject_Z 0). split; [exact Hc|].
    split; [exists 0; reflexivity|].
    split; [lia|]. split; [lia|]. reflexivity. }
  rewrite ratio_finite in Hc by lia.
  assert (Hnz : ~ (inject_Z a == 0)%Q) by (apply inject_Z_nonzero; lia).
  set (x := (inject_Z (m * 10000) / inject_Z a)%Q) in *.
  eexists. split; [exact Hc|].
  split; [eexists; apply hundredths|].
  assert (Hx : (x / inject_Z 100 == inject_Z 100 * inject_Z m / inject_Z a)%Q).
  { unfold x. rewrite inject_Z_mult. change (inject_Z 100) with 100%Q.
    change (inject_Z 10000) with 10000%Q. field. exact Hnz. }
  split; [|split].
  - intros _. rewrite <- Hx. change (inject_Z 100) with 100%Q.
    destruct (round_bounds x) as [Hlo Hhi].
    generalize dependent (inject_Z (Qfloor (x + (1 # 2)))). intros n _ Hlo Hhi.
    clear Hx. clearbody x.
    unfold Qdiv. change (/ 100)%Q with (1 # 100)%Q.
    apply Qabs_Qle_condition. split; lra.
  - intros _ Hma. change (inject_Z 100) with 100%Q.
    assert (Hx' : (x == 10000)%Q).
    { unfold x. rewrite Hma, inject_Z_mult. change (inject_Z 10000) with 10000%Q.
      field. exact Hnz. }
    rewrite Hx'. reflexivity.
  - intros Hm0. change (inject_Z 100) with 100%Q.
    assert (Hx' : (x == 0)%Q).
    { unfold x. rewrite Hm0. change (inject_Z (0 * 10000)) with 0%Q.
      field. exact Hnz. }
    rewrite Hx'. reflexivity.
Qed.

Lemma calculateConsensus_ratio_witness :
  exists q : Q,
    calculateConsensus (sample_peers false) sample_channel = Normal (Fin q) /\
    (Qabs (q - inject_Z 100 * inject_Z 2 / inject_Z 3) <= 1 # 200)%Q.
Proof.
  destruct (calculateConsensus_ratio (sample_peers false) sample_channel
              (mkModuleInfo (Some "aa") (Some 10)))
    as (q & Hq & _ & Hclose & _).
  - vm_compute. reflexivity.
  - exists q. split; [exact Hq|]. apply Hclose. vm_compute. reflexivity.
Defined.

(** On a channel whose invokes resolve, with a state that has its
    [modules], the general function is the function of the answers. *)
Lemma calculateConsensus_resolved (this : Peers) (channel : Invocations)
    (appModules : gmap string ModuleInfo) (connectedPeers : list Peer) :
  invoke_getApplicationState channel = Normal (mkStateObject (Some appModules)) ->
  invoke_getConnectedPeers channel = Normal connectedPeers ->
  calculateConsensus this channel
  = calculateConsensus this (mkChannel (mkAppState appModules) connectedPeers).
Proof.
  intros Hstate Hpeers. unfold calculateConsensus, resolved.
  cbn [invoke_getApplicationState invoke_getConnectedPeers getApplicationState
       getConnectedPeers app_modules].
  rewrite Hstate, Hpeers. reflexivity.
Qed.






(** C8. [getLastConsensus] returns what [calculateConsensus] returns in
    the state at the time of the call, whatever its argument and whatever
    states earlier calls were made in: nothing is cached. *)
Theorem getLastConsensus_forwards (this : Peers) (broadhash_arg : option string)
    (earlier : list Invocations) (channel : Invocations) :
  List.map (getLastConsensus this broadhash_arg) (earlier ++ [channel])
  = List.map (calculateConsensus this) earlier ++ [calculateConsensus this channel].
Proof.
  rewrite List.map_app. reflexivity.
Qed.

End PeersSpec.

(* ===================================================================== *)
(** * Properties of transport *)
(* ===================================================================== *)

Module TransportSpec.
Import Js Transport.
Local Open Scope js_scope.

(** ** blocksCommon *)

Lemma not_length_gt_0_spec {A} (row : list A) :
  not_length_gt_0 row = match row with [] => true | _ :: _ => false end.
Proof.
  unfold not_length_gt_0, len. destruct row as [|r rest]; [reflexivity|].
  simpl length. rewrite Nat2Z.inj_succ.
  destruct (Z.succ (Z.of_nat (length rest)) =? 0) eqn:E; [|reflexivity].
  apply Z.eqb_eq in E. lia.
Qed.

(** The head of the rows that [Block.get] answers is the first stored
    row with the id. *)
Lemma find_head_filter (p : BlockRow -> bool) (rows : list BlockRow) :
  List.find p rows = List.head (List.filter p rows).
Proof.
  induction rows as [|r rest IH]; simpl; [reflexivity|].
  destruct (p r); [reflexivity | exact IH].
Qed.

Lemma more_than_1000_values_false (query : BlocksCommonQuery) (s : string) :
  ids query = Some s -> len (split "," s) <= 1000 ->
  more_than_1000_values query = false.
Proof.
  intros Hids Hlen. unfold more_than_1000_values. rewrite Hids.
  apply andb_false_iff. right. rewrite Z.gtb_ltb. apply Z.ltb_ge. exact Hlen.
Qed.

(** C4. A request whose [ids] string splits into more than 1000 values
    is rejected with the error "ids property contains more than 1000
    values", before validation and without any query on the store. *)
Theorem blocksCommon_more_than_1000
    (validate : BlocksCommonQuery -> list ValidationError)
    (storage : Storage) (query : BlocksCommonQuery) (s : string) :
  ids query = Some s ->
  1000 < len (split "," s) ->
  blocksCommon validate (Some query) storage
  = (Throw (ThrownError (Error "ids property contains more than 1000 values")),
     storage, []).
Proof.
  intros Hids Hlen. unfold blocksCommon, more_than_1000_values. rewrite Hids.
  assert (Hne : String.eqb s "" = false).
  { destruct s; [|reflexivity]. simpl in Hlen. unfold len in Hlen. simpl in Hlen. lia. }
  rewrite Hne. simpl negb.
  assert (Hgt : (len (split "," s) >? 1000) = true).
  { rewrite Z.gtb_ltb. apply Z.ltb_lt. exact Hlen. }
  rewrite Hgt. reflexivity.
Qed.

Lemma blocksCommon_more_than_1000_witness :
  blocksCommon sample_validate (Some (mkBlocksCommonQuery (Some csv_of_1001_ids)))
    sample_storage
  = (Throw (ThrownError (Error "ids property contains more than 1000 values")),
     sample_storage, []).
Proof.
  apply (blocksCommon_more_than_1000 sample_validate sample_storage
           (mkBlocksCommonQuery (Some csv_of_1001_ids)) csv_of_1001_ids).
  - reflexivity.
  - vm_compute. reflexivity.
Defined.

(** C1, as amended. A request that passes validation, with at most 1000
    values of which at least one is numeric after quote-stripping, makes
    one query on the store, for the first numeric value only; when the
    store answers, the result is [{success: true, common: r}] with [r]
    the first stored row with that id (fields id, height, previousBlock,
    timestamp), or [common: null] when no stored block has that id. *)
Theorem blocksCommon_first_candidate
    (validate : BlocksCommonQuery -> list ValidationError)
    (storage : Storage) (query : BlocksCommonQuery) (s id0 : string)
    (others : list string) :
  validate query = [] ->
  ids query = Some s ->
  len (split "," s) <= 1000 ->
  candidate_ids s = id0 :: others ->
  failure storage = None ->
  blocksCommon validate (Some query) storage
  = (Normal (mkBlocksCommonResult true (first_row_with_id id0 (blocks storage))),
     storage,
     [Validate "WSBlocksCommonRequest"; StorageBlockGet id0]).
Proof.
  intros Hvalid Hids Hlen Hcand Hstore. unfold blocksCommon.
  rewrite (more_than_1000_values_false query s Hids Hlen).
  rewrite Hvalid, Hids. fold (candidate_ids s). rewrite Hcand.
  unfold try_catch, bind, emit, Block_get. rewrite Hstore. cbv beta iota.
  rewrite not_length_gt_0_spec.
  unfold first_row_with_id. rewrite find_head_filter.
  destruct (List.filter (fun row => String.eqb (id row) id0) (blocks storage))
    as [|r0 rest]; reflexivity.
Qed.

Lemma blocksCommon_first_candidate_witness :
  blocksCommon sample_validate (Some (mkBlocksCommonQuery (Some "'2',x,3")))
    sample_storage
  = (Normal (mkBlocksCommonResult true (Some (mkParsedRow "2" 2 (Some "7") 20))),
     sample_storage,
     [Validate "WSBlocksCommonRequest"; StorageBlockGet "2"]).
Proof.
  apply (blocksCommon_first_candidate sample_validate sample_storage
           (mkBlocksCommonQuery (Some "'2',x,3")) "'2',x,3" "2" ["3"]).
  - reflexivity.
  - reflexivity.
  - vm_compute. discriminate.
  - reflexivity.
  - reflexivity.
Defined.

(** C1, as stated, fails: with ids "1,2" and a store that holds block 2
    but not block 1, the result is [common: null], although the second
    candidate id matches a stored block. *)
Lemma blocksCommon_any_candidate_counterexample :
  ~ returns_first_match_of_any_candidate sample_validate sample_storage "1,2".
Proof.
  unfold returns_first_match_of_any_candidate. intros H.
  assert (Hlen : len (split "," "1,2") <= 1000) by (vm_compute; discriminate).
  assert (Hcand : candidate_ids "1,2" <> []) by (vm_compute; discriminate).
  specialize (H Hlen Hcand). vm_compute in H. discriminate H.
Qed.

(** ** postTransaction, postTransactions, postBlock *)

Section Inbound.

Variables NodeState Transaction Block : Type.
Variable transaction_id : Transaction -> string.
Variable block_id : Block -> string.
Variable fromJson : option TransactionJSON -> Completion Transaction.
Variable composedTransactionsCheck : NodeState -> Transaction -> Completion (list JsError).
Variable processUnconfirmedTransaction :
  Transaction -> bool -> NodeState -> Completion unit * NodeState.
Variable convertErrorsToString : Thrown -> string.
Variable validate_WSTransactionsRequest : option PostTransactionsQuery -> list ValidationError.
Variable validate_WSBlocksBroadcast : option Block -> list ValidationError.
Variable addBlockProperties : option Block -> Completion Block.
Variable fromBlock : Block -> Completion (list Transaction).
Variable set_transactions : Block -> list Transaction -> Block.
Variable objectNormalize : Block -> Completion Block.
Variable syncing : NodeState -> bool.
Variable receiveBlockFromNetwork : Block -> NodeState -> Completion unit * NodeState.

Local Abbreviation receiveTransaction :=
  (_receiveTransaction NodeState Transaction transaction_id fromJson
     composedTransactionsCheck processUnconfirmedTransaction convertErrorsToString).
Local Abbreviation postTransaction' :=
  (postTransaction NodeState Transaction transaction_id fromJson
     composedTransactionsCheck processUnconfirmedTransaction convertErrorsToString).
Local Abbreviation postTransactions' :=
  (postTransactions NodeState Transaction transaction_id fromJson
     composedTransactionsCheck processUnconfirmedTransaction convertErrorsToString
     validate_WSTransactionsRequest).
Local Abbreviation postBlock' :=
  (postBlock NodeState Transaction Block block_id validate_WSBlocksBroadcast
     addBlockProperties fromBlock set_transactions objectNormalize syncing
     receiveBlockFromNetwork).

Lemma len_cons_gt_0 {A} (x : A) (l : list A) : (len (x :: l) >? 0) = true.
Proof. reflexivity. Qed.

(** When [_receiveTransaction] returns, the transaction was built by
    [fromJson], passed the checks without errors, and was handed to the
    pool, whose state is the only thing that changed; the value returned
    is the id of that transaction. *)
Lemma _receiveTransaction_returns (transactionJSON : option TransactionJSON)
    (st st' : NodeState) (id : string) (tr : list Event) :
  receiveTransaction transactionJSON st = (Normal id, st', tr) ->
  exists transaction,
    fromJson transactionJSON = Normal transaction /\
    composedTransactionsCheck st transaction = Normal [] /\
    processUnconfirmedTransaction transaction true st = (Normal tt, st') /\
    id = transaction_id transaction.
Proof.
  unfold _receiveTransaction, call_processUnconfirmedTransaction.
  unfold bind, try_catch, lift, get, emit, throw, ret.
  destruct (fromJson transactionJSON) as [transaction|t] eqn:Hf; [|discriminate].
  destruct (composedTransactionsCheck st transaction) as [errors|t] eqn:Hc; [|discriminate].
  destruct errors as [|e errors]; [|rewrite len_cons_gt_0; discriminate].
  change (len [] >? 0) with false. cbv beta iota.
  destruct (processUnconfirmedTransaction transaction true st) as [[[]|t] st2] eqn:Hp;
    [|discriminate].
  intros H. injection H as Hid Hst _. subst st2.
  exists transaction. auto.
Qed.

(** C5. [postTransaction] either returns [{success: true,
    transactionId}] with the id of the transaction that the pool took in,
    or throws an error named InvalidTransactionError whose message is the
    stringified underlying errors: what the copying of the transaction
    threw, or else what [_receiveTransaction] threw on the copy. It
    returns exactly when both succeed; no other value is returned. *)
Theorem postTransaction_outcome (query : option PostTransactionQuery) (st : NodeState) :
  match postTransaction' query st with
  | (Normal result, st', tr) =>
      exists sanitized transaction,
        sanitizedTransaction query = Normal sanitized /\
        receiveTransaction (Some sanitized) st
        = (Normal (transaction_id transaction), st', tr) /\
        fromJson (Some sanitized) = Normal transaction /\
        processUnconfirmedTransaction transaction true st = (Normal tt, st') /\
        result = mkPostTransactionResult true (transaction_id transaction)
  | (Throw t, st', tr) =>
      exists errors,
        t = ThrownError
              (mkError "InvalidTransactionError" (convertErrorsToString errors)
                 (Some "InvalidActionError")) /\
        ((sanitizedTransaction query = Throw errors /\ st' = st /\ tr = []) \/
         exists sanitized,
           sanitizedTransaction query = Normal sanitized /\
           receiveTransaction (Some sanitized) st = (Throw errors, st', tr))
  end.
Proof.
  unfold postTransaction.
  unfold try_catch at 1. unfold bind at 1. unfold lift at 1.
  destruct (sanitizedTransaction query) as [sanitized|t] eqn:Hs.
  - unfold bind at 1.
    destruct (receiveTransaction (Some sanitized) st) as [[[id|t] st1] tr1] eqn:Hr.
    + unfold ret. cbv beta iota.
      destruct (_receiveTransaction_returns _ _ _ _ _ Hr) as (transaction & Hf & _ & Hp & Hid).
      exists sanitized, transaction. subst id. rewrite !app_nil_r. auto.
    + unfold throw. cbv beta iota. exists t. split; [reflexivity|].
      right. exists sanitized. rewrite !app_nil_r. auto.
  - unfold throw. cbv beta iota. exists t. split; [reflexivity|]. left. auto.
Qed.

(** C6. With [broadcasts.active] false, [postBlock] and
    [postTransactions] only log that receiving is disabled: the payload
    is not validated, [receiveBlockFromNetwork] is not invoked, no
    transaction reaches the pool, and the node state is unchanged. *)
Theorem receiving_disabled (this : Transport) :
  active (broadcasts (constants this)) = false ->
  (forall (query_block : option Block) (st : NodeState),
     postBlock' this query_block st
     = (Normal tt, st,
        [LogDebug "Receiving blocks disabled by user through config.json"])) /\
  (forall (query : option PostTransactionsQuery) (st : NodeState),
     postTransactions' this query st
     = (Normal tt, st,
        [LogDebug "Receiving transactions disabled by user through config.json"])).
Proof.
  intros Hoff. unfold postBlock, postTransactions. rewrite Hoff.
  split; reflexivity.
Qed.

End Inbound.

(** The sample node takes a well-formed transaction in. *)
Example postTransaction_accepts :
  postTransaction SampleState string (fun i => i) sample_fromJson sample_check
    sample_process sample_convert
    (Some (mkPostTransactionQuery (Some (sample_transaction "42")))) ([], [])
  = (Normal (mkPostTransactionResult true "42"), (["42"], []),
     [LogDebug "Received transaction 42"; ProcessUnconfirmedTransaction "42"]).
Proof. reflexivity. Qed.

(** It rejects a transaction that is already in the pool. *)
Example postTransaction_rejects :
  postTransaction SampleState string (fun i => i) sample_fromJson sample_check
    sample_process sample_convert
    (Some (mkPostTransactionQuery (Some (sample_transaction "42")))) (["42"], [])
  = (Throw (ThrownError (mkError "InvalidTransactionError"
                           "Transaction is already processed"
                           (Some "InvalidActionError"))),
     (["42"], []),
     [LogDebug "Transaction normalization failed"]).
Proof. reflexivity. Qed.

Lemma receiving_disabled_witness :
  postBlock SampleState string string (fun b => b) (fun _ => [])
    sample_addBlockProperties (fun _ => Normal []) (fun b _ => b)
    (fun b => Normal b) (fun _ => false) sample_receiveBlock
    (sample_transport false) (Some "1337") ([], ["1336"])
  = (Normal tt, ([], ["1336"]),
     [LogDebug "Receiving blocks disabled by user through config.json"]) /\
  postTransactions SampleState string (fun i => i) sample_fromJson sample_check
    sample_process sample_convert (fun _ => [])
    (sample_transport false)
    (Some (mkPostTransactionsQuery (Some [Some (sample_transaction "42")])))
    ([], ["1336"])
  = (Normal tt, ([], ["1336"]),
     [LogDebug "Receiving transactions disabled by user through config.json"]).
Proof.
  pose proof (receiving_disabled SampleState string string (fun i => i) (fun b => b)
                sample_fromJson sample_check sample_process sample_convert
                (fun _ => []) (fun _ => []) sample_addBlockProperties
                (fun _ => Normal []) (fun b _ => b) (fun b => Normal b)
                (fun _ => false) sample_receiveBlock (sample_transport false) eq_refl)
    as [Hblock Htxs].
  split; [apply Hblock | apply Htxs].
Defined.

(** With receiving enabled, the same two calls change the node state. *)
Example receiving_enabled :
  snd (fst (postBlock SampleState string string (fun b => b) (fun _ => [])
              sample_addBlockProperties (fun _ => Normal []) (fun b _ => b)
              (fun b => Normal b) (fun _ => false) sample_receiveBlock
              (sample_transport true) (Some "1337") ([], ["1336"])))
  = ([], ["1337"; "1336"]) /\
  snd (fst (postTransactions SampleState string (fun i => i) sample_fromJson
              sample_check sample_process sample_convert (fun _ => [])
              (sample_transport true)
              (Some (mkPostTransactionsQuery (Some [Some (sample_transaction "42")])))
              ([], ["1336"])))
  = (["42"], ["1336"]).
Proof. split; reflexivity. Qed.

End TransportSpec.

(* ===================================================================== *)
(** * Properties of chain *)
(* ===================================================================== *)

Module ChainSpec.
Import Js JsFacts Chain.
Local Open Scope js_scope.

(** ** Sanitized transactions *)

Lemma mapC_normal {A B} (f : A -> Completion B) (g : A -> B) (l : list A) :
  (forall x, f x = Normal (g x)) -> mapC f l = Normal (List.map g l).
Proof.
  intros Hf. induction l as [|x l IH]; simpl; [reflexivity|].
  rewrite Hf, IH. reflexivity.
Qed.

Lemma mapC_inv {A B} (f : A -> Completion B) (l : list A) (ys : list B) :
  mapC f l = Normal ys -> Forall2 (fun x y => f x = Normal y) l ys.
Proof.
  revert ys. induction l as [|x l IH]; simpl; intros ys H.
  - injection H as <-. constructor.
  - destruct (f x) as [y|t] eqn:Hx; [|discriminate]. simpl in H.
    destruct (mapC f l) as [ys'|t]; [|discriminate]. simpl in H.
    injection H as <-. constructor; auto.
Qed.

Lemma mapC_returns {A B} (f : A -> Completion B) (l : list A) :
  Forall (fun x => exists y, f x = Normal y) l -> exists ys, mapC f l = Normal ys.
Proof.
  induction 1 as [|x l [y Hy] _ [ys Hys]]; simpl.
  - eexists. reflexivity.
  - rewrite Hy, Hys. eexists. reflexivity.
Qed.

(** What [find] returns when no call of its callback throws. *)
Lemma findC_inv {A} (p : A -> Completion bool) (l : list A) (r : option A) :
  findC p l = Normal r ->
  match r with
  | Some x =>
      exists before after,
        l = before ++ x :: after /\
        Forall (fun k => p k = Normal false) before /\
        p x = Normal true
  | None => Forall (fun k => p k = Normal false) l
  end.
Proof.
  induction l as [|k l IH]; simpl; intros H.
  - injection H as <-. constructor.
  - destruct (p k) as [[|]|t] eqn:Hk; simpl in H; [| |discriminate].
    + injection H as <-. exists [], l. auto.
    + specialize (IH H). destruct r as [x|].
      * destruct IH as (before & after & -> & Hbefore & Hx).
        exists (k :: before), after. auto.
      * constructor; assumption.
Qed.

Lemma findC_returns {A} (p : A -> Completion bool) (l : list A) :
  Forall (fun k => exists b, p k = Normal b) l -> exists r, findC p l = Normal r.
Proof.
  induction 1 as [|k l [b Hb] _ [r Hr]]; simpl.
  - eexists. reflexivity.
  - rewrite Hb. destruct b; simpl; eexists; [reflexivity | exact Hr].
Qed.

Section Sanitize.

Variable toString_utf8 : Buffer -> string.
Variable toString_hex : Buffer -> string.
Variable getTransactionBytes : TransactionToHash -> Completion Buffer.
Variable hash : Buffer -> Buffer.
Variable verifyData : Buffer -> string -> string -> Completion bool.
Variable getAddressFromPublicKey : string -> Completion string.
Variable _getMultisigWalletMembers : string -> Completion (list MemberRow).

Local Abbreviation find_address :=
  (_findMultisigMemberWalletAddress toString_utf8 toString_hex getTransactionBytes hash
     verifyData getAddressFromPublicKey).
Local Abbreviation to_hash := (transactionToHash toString_utf8 toString_hex).
Local Abbreviation canonical := (canonical_transaction toString_utf8 toString_hex).
Local Abbreviation verifies' := (verifies getTransactionBytes hash verifyData).
Local Abbreviation resolved :=
  (signer_resolved getTransactionBytes hash verifyData getAddressFromPublicKey).
Local Abbreviation sanitize :=
  (sanitizeTransaction toString_utf8 toString_hex getTransactionBytes hash verifyData
     getAddressFromPublicKey _getMultisigWalletMembers).
Local Abbreviation sanitizeAll :=
  (_sanitizeTransactions toString_utf8 toString_hex getTransactionBytes hash verifyData
     getAddressFromPublicKey _getMultisigWalletMembers).
Local Abbreviation sanitized_row :=
  (row_sanitized toString_utf8 toString_hex getTransactionBytes hash verifyData
     getAddressFromPublicKey _getMultisigWalletMembers).
Local Abbreviation answered' :=
  (answered toString_utf8 toString_hex getTransactionBytes hash verifyData
     getAddressFromPublicKey _getMultisigWalletMembers).

(** The object that is hashed is the canonical transaction. *)
Lemma transactionToHash_canonical (txn : TrsRow) :
  to_hash txn
  = match senderPublicKey txn with
    | Some publicKey => Normal (canonical txn publicKey)
    | None => Throw (ThrownError (TypeError "Cannot read property 'toString' of null"))
    end.
Proof.
  unfold transactionToHash, canonical_transaction.
  destruct (senderPublicKey txn); [|reflexivity].
  destruct (transferData txn); reflexivity.
Qed.

(** The signer address that the code computes for one signature, when it
    computes one. *)
Lemma _findMultisigMemberWalletAddress_inv (txn : TrsRow) (sig : string)
    (keys : list string) (address : option string) :
  find_address txn sig keys = Normal address ->
  exists publicKey,
    senderPublicKey txn = Some publicKey /\
    resolved (canonical txn publicKey) keys sig (mkSigner address sig).
Proof.
  unfold _findMultisigMemberWalletAddress. rewrite transactionToHash_canonical.
  destruct (senderPublicKey txn) as [publicKey|]; [|discriminate].
  cbn [cbind]. fold (verifies' (canonical txn publicKey) sig).
  destruct (findC (verifies' (canonical txn publicKey) sig) keys) as [found|t] eqn:Hfind;
    [|discriminate].
  cbn [cbind]. apply findC_inv in Hfind. intros H.
  exists publicKey. split; [reflexivity|].
  unfold signer_resolved. cbn [signature signerAddress]. split; [reflexivity|].
  destruct found as [pk|].
  - destruct Hfind as (before & after & Hkeys & Hbefore & Hpk).
    cbn [truthy_string] in H. destruct (String.eqb_spec pk "") as [->|Hne];
      cbn [negb] in H; cbv iota in H.
    + injection H as <-. right. exists before, after. auto.
    + destruct (getAddressFromPublicKey pk) as [a|t] eqn:Ha; [|discriminate].
      cbn [cbind] in H. injection H as <-.
      exists before, pk, after. auto.
  - cbn in H. injection H as <-. left. exact Hfind.
Qed.

(** It computes one when the row has its sender public key and the
    library answers for the member keys. *)
Lemma _findMultisigMemberWalletAddress_returns (txn : TrsRow) (publicKey : Buffer)
    (sig : string) (keys : list string) :
  senderPublicKey txn = Some publicKey ->
  Forall (fun k => exists b, verifies' (canonical txn publicKey) sig k = Normal b) keys ->
  Forall (fun k => exists address, getAddressFromPublicKey k = Normal address) keys ->
  exists address, find_address txn sig keys = Normal address.
Proof.
  intros Hpk Hverify Haddress.
  unfold _findMultisigMemberWalletAddress. rewrite transactionToHash_canonical, Hpk.
  cbn [cbind]. fold (verifies' (canonical txn publicKey) sig).
  destruct (findC_returns _ _ Hverify) as [found Hfound].
  rewrite Hfound. cbn [cbind]. pose proof (findC_inv _ _ _ Hfound) as Hinv.
  destruct found as [pk|]; [|eexists; reflexivity].
  destruct (negb (truthy_string (Some pk))); [eexists; reflexivity|].
  destruct Hinv as (before & after & -> & _ & _).
  rewrite List.Forall_forall in Haddress.
  destruct (Haddress pk) as [a Ha]; [apply List.in_elt|].
  rewrite Ha. eexists. reflexivity.
Qed.

(** The two shapes of a sanitized row. *)
Lemma sanitizeTransaction_inv (txn : TrsRow) (newTxn : SanitizedTransaction) :
  sanitize txn = Normal newTxn ->
  ChainActions.renamed toString_utf8 toString_hex txn newTxn /\
  ((forall s, ~ signed_transfer txn s) /\
   new_signatures newTxn = StoredSignatures (signatures txn) \/
   exists s members signers,
     signed_transfer txn s /\
     _getMultisigWalletMembers (senderId txn) = Normal members /\
     new_signatures newTxn = Signers signers /\
     Forall2 (fun sig signer =>
                exists address,
                  find_address txn sig (List.map dependentId members) = Normal address /\
                  signer = mkSigner address sig)
       (split "," s) signers).
Proof.
  unfold sanitizeTransaction.
  assert (Hren : forall sigs,
    ChainActions.renamed toString_utf8 toString_hex txn
      (mkSanitizedTransaction (id txn) (type txn) (senderId txn)
         match senderPublicKey txn with Some pk => Some (toString_hex pk) | None => None end
         (timestamp txn)
         (if truthy_string (recipientId txn) then recipientId txn else None)
         (if truthy_string (recipientId txn) then None else recipientId txn)
         (amount txn) (blockId txn)
         match transferData txn with Some d => Some (toString_utf8 d) | None => None end
         match transferData txn with Some _ => None | None => transferData txn end
         sigs)).
  { intros sigs. unfold ChainActions.renamed. simpl.
    destruct (truthy_string (recipientId txn)), (transferData txn), (senderPublicKey txn);
      repeat split; intros; try discriminate; reflexivity. }
  destruct (Z.eqb_spec (type txn) 0) as [Htype|Htype]; simpl andb; cbv iota.
  2:{ intros H. injection H as <-. split; [apply Hren|]. left.
      split; [|reflexivity]. intros s (Ht & _). contradiction. }
  destruct (truthy_string (signatures txn)) eqn:Htruthy.
  2:{ intros H. injection H as <-. split; [apply Hren|]. left.
      split; [|reflexivity]. intros s (_ & Hs & Hne). rewrite Hs in Htruthy.
      simpl in Htruthy. apply Hne. apply String.eqb_eq.
      destruct (String.eqb s ""); [reflexivity | discriminate]. }
  destruct (signatures txn) as [s|] eqn:Hsigs; [|discriminate Htruthy].
  rewrite len_split_nonzero. simpl negb. cbv iota.
  destruct (_getMultisigWalletMembers (senderId txn)) as [members|t] eqn:Hmembers;
    [|discriminate].
  simpl cbind.
  destruct (mapC _ (split "," s)) as [signers|t] eqn:Hmap; [|discriminate].
  simpl cbind. intros H. injection H as <-. split; [apply Hren|].
  right. exists s, members, signers. repeat split; auto.
  - simpl in Htruthy. intros ->. discriminate Htruthy.
  - apply mapC_inv in Hmap.
    eapply List.Forall2_impl; [|exact Hmap]. intros sig signer Hsig. simpl in Hsig.
    destruct (find_address txn sig (List.map dependentId members)) as [address|t];
      [|discriminate].
    simpl in Hsig. injection Hsig as <-. exists address. auto.
Qed.

Lemma sanitizeTransaction_sanitized (txn : TrsRow) (newTxn : SanitizedTransaction) :
  sanitize txn = Normal newTxn -> sanitized_row txn newTxn.
Proof.
  intros Hs. destruct (sanitizeTransaction_inv txn newTxn Hs) as [Hren Hsigs].
  destruct Hren as (_ & _ & _ & _ & _ & _ & _ & Hmsg & Hdata & _).
  unfold row_sanitized. split; [exact Hmsg|]. split; [exact Hdata|].
  intros s Hsigned. destruct Hsigs as [[Hnot _] | Hres].
  { exfalso. exact (Hnot s Hsigned). }
  destruct Hres as (s' & members & signers & (_ & Hs' & _) & Hmembers & Hnew & Hall).
  assert (s' = s) by (destruct Hsigned as (_ & Hs0 & _); congruence). subst s'.
  pose proof (split_nonempty "," s) as Hne.
  assert (Hpk : exists publicKey, senderPublicKey txn = Some publicKey).
  { destruct Hall as [|sig signer sigs sgs (a & Ha & _) _]; [congruence|].
    destruct (_findMultisigMemberWalletAddress_inv _ _ _ _ Ha) as (pk & Hpk & _).
    exists pk. exact Hpk. }
  destruct Hpk as [publicKey Hpk].
  exists publicKey, members, signers. repeat split; auto.
  eapply List.Forall2_impl; [|exact Hall].
  intros sig signer (a & Ha & ->).
  destruct (_findMultisigMemberWalletAddress_inv _ _ _ _ Ha) as (pk & Hpk' & Hres).
  assert (pk = publicKey) by congruence. subst pk. exact Hres.
Qed.

Lemma sanitizeTransaction_returns (txn : TrsRow) :
  answered' txn -> exists newTxn, sanitize txn = Normal newTxn.
Proof.
  intros Hanswered. unfold sanitizeTransaction.
  destruct (Z.eqb_spec (type txn) 0) as [Htype|Htype]; simpl andb; cbv iota;
    [|eexists; reflexivity].
  destruct (truthy_string (signatures txn)) eqn:Htruthy; [|eexists; reflexivity].
  destruct (signatures txn) as [s|] eqn:Hsigs; [|discriminate Htruthy].
  rewrite len_split_nonzero. simpl negb. cbv iota.
  destruct (Hanswered s) as (publicKey & members & Hpk & Hmembers & Hall).
  { repeat split; auto. intros ->. discriminate Htruthy. }
  rewrite Hmembers. cbn [cbind].
  assert (Hmap : exists signers,
    mapC (fun signature =>
            cbind (find_address txn signature (List.map dependentId members))
              (fun address => Normal (mkSigner address signature)))
         (split "," s) = Normal signers).
  { apply mapC_returns. rewrite List.Forall_forall. intros sig Hsig.
    destruct (_findMultisigMemberWalletAddress_returns txn publicKey sig
                (List.map dependentId members) Hpk) as [a Ha].
    - rewrite List.Forall_forall. intros k Hk.
      apply List.in_map_iff in Hk as (member & <- & Hmember).
      rewrite List.Forall_forall in Hall. destruct (Hall member Hmember) as [_ Hv].
      rewrite List.Forall_forall in Hv. exact (Hv sig Hsig).
    - rewrite List.Forall_forall. intros k Hk.
      apply List.in_map_iff in Hk as (member & <- & Hmember).
      rewrite List.Forall_forall in Hall. destruct (Hall member Hmember) as [Ha _].
      exact Ha.
    - rewrite Ha. eexists. reflexivity. }
  destruct Hmap as [signers Hmap]. rewrite Hmap. eexists. reflexivity.
Qed.

(** C3. Sanitization returns one row per stored row, in order. For
    every stored transaction of type 0 with a non-empty signatures column
    it replaces [signatures] by one [{signerAddress, signature}] per
    comma-separated signature, in order: [signerAddress] is the address
    of the first member public key of the sender's wallet that verifies
    the signature against the hash of the canonical transaction, and
    [null] when no member key verifies it; the transfer data, when
    present, is returned as utf-8 text in [message]. The call returns
    whenever the store and the cryptography library answer for the
    signed transfers of the batch. *)
Theorem sanitize_resolves_signers (transactions : list TrsRow) :
  (Forall answered' transactions ->
   exists sanitized, sanitizeAll transactions = Normal sanitized) /\
  (forall sanitized,
     sanitizeAll transactions = Normal sanitized ->
     Forall2 sanitized_row transactions sanitized).
Proof.
  unfold _sanitizeTransactions. split.
  - intros Hall. apply mapC_returns.
    eapply List.Forall_impl; [|exact Hall]. apply sanitizeTransaction_returns.
  - intros sanitized H. apply mapC_inv in H.
    eapply List.Forall2_impl; [|exact H]. apply sanitizeTransaction_sanitized.
Qed.

End Sanitize.

(** The scenario of the specification, as the second row of a batch: two
    signatures by the wallet members [P1] and [P2] resolve to their
    addresses; a third signature, by a stranger, resolves to [null]. *)
Lemma sanitize_resolves_signers_witness :
  exists vote transfer,
    _sanitizeTransactions sample_utf8 sample_utf8 sample_getTransactionBytes sample_hash
      sample_verifyData sample_address sample_members
      [ChainActions.sample_vote; sample_transfer] = Normal [vote; transfer] /\
    new_signatures transfer
    = Signers [mkSigner (Some "P1L") "77:P1"; mkSigner (Some "P2L") "77:P2";
               mkSigner None "77:P3"] /\
    new_message transfer = Some "rent".
Proof.
  destruct (sanitize_resolves_signers sample_utf8 sample_utf8 sample_getTransactionBytes
              sample_hash sample_verifyData sample_address sample_members
              [ChainActions.sample_vote; sample_transfer]) as [Hreturns Hrows].
  destruct Hreturns as [sanitized Hrun].
  - constructor; [intros s (Htype & _); discriminate Htype|].
    constructor; [|constructor].
    intros s (_ & Hs & _). injection Hs as <-.
    exists (list_byte_of_string "key"), [mkMemberRow "P1"; mkMemberRow "P2"].
    split; [reflexivity|]. split; [reflexivity|].
    repeat constructor; eexists; reflexivity.
  - pose proof (Hrows sanitized Hrun) as Hall.
    vm_compute in Hrun. injection Hrun as <-.
    eexists _, _. split; [reflexivity|]. split; reflexivity.
Defined.

(** A stored signature that the library cannot read (here an empty one,
    after a trailing comma) makes the whole call fail. *)
Example malformed_signature_rejects :
  _sanitizeTransactions sample_utf8 sample_utf8 sample_getTransactionBytes sample_hash
    sample_verifyData sample_address sample_members
    [ChainActions.sample_vote; ChainActions.truncated_transfer]
  = Throw (ThrownError (Error "bad signature size")).
Proof. reflexivity. Qed.

(** ** bootstrap *)

Section Bootstrap.

Variable fails : BootCall -> option Thrown.
Variable requiredGenesisBlock : JsVal.
Variables logger_given same_log_file : bool.

(** The round that the run was configured with. *)
Variable round : JsVal.
Hypothesis round_truthy : truthy round = true.

Local Abbreviation rebuilding := (Chain.rebuilding round).
Local Abbreviation deactivated := (Chain.deactivated round).

Lemma safe_call (Pre : Options -> Prop) (c : BootCall) :
  rebuild_call c -> safe Pre rebuild_call (call fails c) Pre.
Proof.
  intros Hc. unfold call. eapply safe_bind; [apply safe_emit; exact Hc | | auto].
  intros _. destruct (fails c); [apply safe_throw | apply safe_ret].
Qed.

Ltac by_call := apply safe_call; split; reflexivity.
Ltac by_emit := apply safe_emit; split; reflexivity.
Ltac next := eapply safe_bind; [first [by_call | by_emit] | intros _ | auto].

(** The [try] block of a rebuild never reaches the code behind the
    [return]. *)
Lemma safe_try_block :
  safe deactivated rebuild_call
    (opts <- get ;;
     (if negb (truthy (genesisBlock opts)) then
        throw (ThrownError (Error "Failed to assign nethash from genesis block"))
      else ret tt) ;;;
     emit (Log "debug" "Initiating cache...") ;;;
     call fails CreateCacheComponent ;;;
     emit (Log "debug" "Initiating storage...") ;;;
     call fails CreateStorageComponent ;;;
     call fails BootstrapStorage ;;;
     call fails BootstrapCache ;;;
     call fails MigrationDefineSchema ;;;
     try_catch (call fails MigrationApplyAll)
               (fun error => emit (Log "warn" "Could not apply some migrations")) ;;;
     _initModules fails ;;;
     call fails SubscribeAppState ;;;
     emit (Log "info" "Modules ready and launched") ;;;
     opts <- get ;;
     call fails (LoadBlockChain (rebuildUpToRound opts)) ;;;
     opts <- get ;;
     if truthy (rebuildUpToRound opts) then
       emit (ProcessEmitCleanup None)
     else
       _subscribeToEvents fails ;;;
       _startLoader fails ;;;
       _calculateConsensus fails ;;;
       _startForging fails ;;;
       call fails (SubscribeNetwork "postTransactions") ;;;
       call fails (SubscribeNetwork "postBlock"))
    deactivated.
Proof.
  apply safe_bind_get. intros o Ho.
  eapply safe_bind with (Mid := deactivated); [| intros _ | auto].
  { destruct (negb (truthy (genesisBlock o))); [apply safe_throw | apply safe_ret]. }
  next. next. next. next. next. next. next.
  eapply safe_bind with (Mid := deactivated); [| intros _ | auto].
  { eapply safe_try_catch; [by_call | intros t; by_emit | auto]. }
  eapply safe_bind with (Mid := deactivated); [| intros _ | auto].
  { unfold _initModules. apply safe_bind_get. intros o1 (_ & Hb & Hs).
    rewrite Hb, Hs. by_call. }
  next. next.
  apply safe_bind_get. intros o2 Ho2.
  next.
  apply safe_bind_get. intros o3 (Hr & _).
  rewrite Hr, round_truthy. by_emit.
Qed.

(** Every call of a rebuild run is a [rebuild_call], whichever
    collaborators fail. *)
Lemma safe_bootstrap :
  safe rebuilding rebuild_call
    (bootstrap fails requiredGenesisBlock logger_given same_log_file)
    (fun _ => True).
Proof.
  unfold bootstrap. next.
  apply safe_bind_get. intros o Ho.
  eapply safe_bind with (Mid := rebuilding); [| intros _ | auto].
  { apply safe_put. exact Ho. }
  next. next. next. next.
  eapply safe_bind with (Mid := rebuilding); [| intros _ | auto].
  { destruct logger_given; [by_call | next].
    destruct same_log_file; [apply safe_ret | by_call]. }
  apply safe_bind_get. intros o1 Ho1.
  eapply safe_bind with (Mid := deactivated); [| intros _ | auto].
  { rewrite Ho1, round_truthy. apply safe_put. repeat split. exact Ho1. }
  eapply safe_try_catch with (Mid := deactivated);
    [apply safe_try_block | | auto].
  intros t. eapply safe_weaken with (Pre := deactivated) (Post := deactivated); auto.
  next. by_emit.
Qed.

End Bootstrap.

(** A rebuild in which no collaborator fails: the whole run. *)
Lemma bootstrap_rebuild_run (fails : BootCall -> option Thrown)
    (requiredGenesisBlock : JsVal) (logger_given same_log_file : bool) (opts : Options) :
  truthy (rebuildUpToRound opts) = true ->
  truthy requiredGenesisBlock = true ->
  (forall c, fails c = None) ->
  bootstrap fails requiredGenesisBlock logger_given same_log_file opts
  = (Normal tt,
     mkOptions requiredGenesisBlock (rebuildUpToRound opts) false false,
     rebuild_prelude logger_given same_log_file
     ++ [LoadBlockChain (rebuildUpToRound opts); ProcessEmitCleanup None]).
Proof.
  intros Hround Hgenesis Hfails.
  unfold bootstrap, _initModules, call.
  cbv [bind try_catch emit throw ret get put].
  destruct logger_given, same_log_file;
    repeat (first [rewrite Hfails | rewrite Hround | rewrite Hgenesis];
            cbn [rebuildUpToRound genesisBlock broadcasts_active syncing_active negb];
            cbv beta iota);
    reflexivity.
Qed.

(** C10. When [loading.rebuildUpToRound] is truthy, whichever
    collaborators fail, the modules are only ever constructed with
    [broadcasts.active] and [syncing.active] false, and the run never
    subscribes to block, pool or network events, never starts the loader
    or a job, and never loads the forging delegates; when no collaborator
    fails, [bootstrap] loads the chain, emits the cleanup signal and
    returns, leaving both flags false. *)
Theorem rebuild_isolates_node (fails : BootCall -> option Thrown)
    (requiredGenesisBlock : JsVal) (logger_given same_log_file : bool) (opts : Options) :
  truthy (rebuildUpToRound opts) = true ->
  let run := bootstrap fails requiredGenesisBlock logger_given same_log_file opts in
  Forall (fun c => network_facing c = false) (trace_of run) /\
  Forall (fun c => init_with_active_flag c = false) (trace_of run) /\
  ((forall c, fails c = None) ->
   truthy requiredGenesisBlock = true ->
   result_of run = Normal tt /\
   broadcasts_active (state_of run) = false /\
   syncing_active (state_of run) = false /\
   In (InitModules false false) (rebuild_prelude logger_given same_log_file) /\
   trace_of run
   = rebuild_prelude logger_given same_log_file
     ++ [LoadBlockChain (rebuildUpToRound opts); ProcessEmitCleanup None]).
Proof.
  intros Hround run.
  destruct (safe_bootstrap fails requiredGenesisBlock logger_given same_log_file
              (rebuildUpToRound opts) Hround opts eq_refl) as [Hsafe _].
  fold run in Hsafe.
  split; [|split].
  - eapply List.Forall_impl; [|exact Hsafe]. intros c [Hc _]. exact Hc.
  - eapply List.Forall_impl; [|exact Hsafe]. intros c [_ Hc]. exact Hc.
  - intros Hfails Hgenesis. unfold run.
    rewrite (bootstrap_rebuild_run fails requiredGenesisBlock logger_given same_log_file
               opts Hround Hgenesis Hfails).
    repeat split.
    unfold rebuild_prelude. apply in_or_app. right. apply in_or_app. right.
    simpl. tauto.
Qed.

Lemma rebuild_isolates_node_witness :
  Forall (fun c => network_facing c = false)
    (trace_of (bootstrap no_failure (JStr "genesis") true false rebuild_options)) /\
  result_of (bootstrap no_failure (JStr "genesis") true false rebuild_options) = Normal tt /\
  trace_of (bootstrap no_failure (JStr "genesis") true false rebuild_options)
  = rebuild_prelude true false ++ [LoadBlockChain (JNum 5); ProcessEmitCleanup None].
Proof.
  destruct (rebuild_isolates_node no_failure (JStr "genesis") true false rebuild_options
              eq_refl) as (Hnet & _ & H).
  destruct (H (fun c => eq_refl) eq_refl) as (Hres & _ & _ & _ & Htrace).
  split; [exact Hnet|]. split; [exact Hres | exact Htrace].
Defined.

(** A regular start, by contrast, goes on to the network. *)
Example regular_start_subscribes :
  In (SubscribeNetwork "postBlock")
     (trace_of (bootstrap no_failure (JStr "genesis") true false regular_options)) /\
  In (InitModules true true)
     (trace_of (bootstrap no_failure (JStr "genesis") true false regular_options)).
Proof. vm_compute. tauto. Qed.

End ChainSpec.

(* ===================================================================== *)
(** * Further properties of peers.js *)
(* ===================================================================== *)

Module PeersProps.
Import Js Peers PeersSpec.

Lemma count_matches_le_advertises (alias : string) (bh : option string) (peers : list Peer) :
  count_peers (matches alias bh) peers <= count_peers (advertises alias) peers.
Proof.
  induction peers as [|peer rest IH]; simpl; [lia|].
  destruct (matches alias bh peer) eqn:Hm.
  - rewrite (matches_advertises _ _ _ Hm). lia.
  - destruct (advertises alias peer); lia.
Qed.

Lemma matched_le_active (alias : string) (bh : option string) (peers : list Peer) :
  0 <= matched alias bh peers <= active alias peers.
Proof.
  unfold matched, active, MAX_PEERS.
  pose proof (count_matches_le_advertises alias bh peers).
  pose proof (count_peers_nonneg (matches alias bh) peers). lia.
Qed.

(** The value of [calculateConsensus] as a function of the two counts. *)
Lemma calculateConsensus_counts (this : Peers) (channel : Channel) :
  calculateConsensus this channel
  = match app_modules (getApplicationState channel) !! moduleAlias this with
    | None => Normal (of_Z 0)
    | Some moduleInfo =>
        let a := active (moduleAlias this) (getConnectedPeers channel) in
        let m := matched (moduleAlias this) (broadhash moduleInfo)
                   (getConnectedPeers channel) in
        if a =? 0 then Normal (of_Z 0)
        else Normal (div (Math_round (div (of_Z (m * 10000)) (of_Z a))) (of_Z 100))
    end.
Proof.
  pose proof (calculateConsensus_cases this channel) as Hc. cbv zeta in Hc |- *.
  destruct (app_modules (getApplicationState channel) !! moduleAlias this); [|exact Hc].
  destruct Hc as [[Ha Hc] | [Ha Hc]]; rewrite Hc.
  - rewrite Ha. reflexivity.
  - destruct (Z.eqb_spec (active (moduleAlias this) (getConnectedPeers channel)) 0);
      [lia | reflexivity].
Qed.

(** On a channel that answers, the consensus lies between 0 and 100. *)
Lemma calculateConsensus_bounds (this : Peers) (channel : Channel) :
  exists q : Q,
    calculateConsensus this channel = Normal (Fin q) /\ (0 <= q)%Q /\ (q <= 100)%Q.
Proof.
  pose proof (calculateConsensus_cases this channel) as Hc. cbv zeta in Hc.
  destruct (app_modules (getApplicationState channel) !! moduleAlias this)
    as [moduleInfo|].
  2:{ exists (inject_Z 0). split; [exact Hc|]. split; [apply Qle_refl | discriminate]. }
  destruct Hc as [[_ Hc] | [Ha Hc]].
  { exists (inject_Z 0). split; [exact Hc|]. split; [apply Qle_refl | discriminate]. }
  rewrite ratio_finite in Hc by lia.
  eexists. split; [exact Hc|].
  pose proof (matched_le_active (moduleAlias this) (broadhash moduleInfo)
                (getConnectedPeers channel)) as [Hm0 Hma].
  set (a := active (moduleAlias this) (getConnectedPeers channel)) in *.
  set (m := matched (moduleAlias this) (broadhash moduleInfo) (getConnectedPeers channel)) in *.
  assert (Hapos : (0 < inject_Z a)%Q).
  { change 0%Q with (inject_Z 0). rewrite <- Zlt_Qlt. exact Ha. }
  assert (Hx0 : (0 <= inject_Z (m * 10000) / inject_Z a)%Q).
  { apply Qle_shift_div_l; [exact Hapos|]. rewrite Qmult_0_l.
    change 0%Q with (inject_Z 0). rewrite <- Zle_Qle. lia. }
  assert (Hx1 : (inject_Z (m * 10000) / inject_Z a <= 10000)%Q).
  { apply Qle_shift_div_r; [exact Hapos|].
    change 10000%Q with (inject_Z 10000). rewrite <- inject_Z_mult, <- Zle_Qle. lia. }
  set (x := (inject_Z (m * 10000) / inject_Z a)%Q) in *.
  assert (Hn0 : 0 <= Qfloor (x + (1 # 2))).
  { change 0 with (Qfloor (1 # 2)). apply Qfloor_resp_le. lra. }
  assert (Hn1 : Qfloor (x + (1 # 2)) <= 10000).
  { change 10000 with (Qfloor (10000 + (1 # 2))). apply Qfloor_resp_le. lra. }
  rewrite Zle_Qle in Hn0, Hn1.
  generalize dependent (inject_Z (Qfloor (x + (1 # 2)))). intros n _ Hn0 Hn1.
  change (inject_Z 0) with 0%Q in Hn0. change (inject_Z 10000) with 10000%Q in Hn1.
  change (inject_Z 100) with 100%Q.
  unfold Qdiv. change (/ 100)%Q with (1 # 100)%Q. split; lra.
Qed.

(** Whenever [calculateConsensus] returns, the consensus is a percentage:
    a finite number between 0 and 100. It throws only when the invoke of
    the application state rejects, when that state has no [modules]
    object, or when the alias is in the state and the invoke of the
    connected peers rejects. *)
Theorem calculateConsensus_percentage (this : Peers) (channel : Invocations) :
  match calculateConsensus this channel with
  | Normal consensus =>
      exists q : Q, consensus = Fin q /\ (0 <= q)%Q /\ (q <= 100)%Q
  | Throw t =>
      invoke_getApplicationState channel = Throw t \/
      (invoke_getApplicationState channel = Normal (mkStateObject None) /\
       exists message, t = ThrownError (TypeError message)) \/
      (exists appModules moduleInfo,
         invoke_getApplicationState channel = Normal (mkStateObject (Some appModules)) /\
         appModules !! moduleAlias this = Some moduleInfo /\
         invoke_getConnectedPeers channel = Throw t)
  end.
Proof.
  destruct (invoke_getApplicationState channel) as [[[appModules|]]|t] eqn:Hstate.
  - destruct (invoke_getConnectedPeers channel) as [connectedPeers|t] eqn:Hpeers.
    + rewrite (calculateConsensus_resolved this channel appModules connectedPeers
                 Hstate Hpeers).
      destruct (calculateConsensus_bounds this
                  (mkChannel (mkAppState appModules) connectedPeers)) as (q & -> & Hq).
      exists q. split; [reflexivity | exact Hq].
    + unfold calculateConsensus. rewrite Hstate, Hpeers. cbn [cbind state_modules].
      destruct (appModules !! moduleAlias this) as [moduleInfo|] eqn:Hinfo.
      * right. right. exists appModules, moduleInfo. auto.
      * exists (inject_Z 0). split; [reflexivity|]. split; [apply Qle_refl | discriminate].
  - unfold calculateConsensus. rewrite Hstate. cbn [cbind state_modules].
    right. left. split; [reflexivity|]. eexists. reflexivity.
  - unfold calculateConsensus. rewrite Hstate. left. reflexivity.
Qed.

Lemma count_peers_permutation (p : Peer -> bool) (peers peers' : list Peer) :
  Permutation peers peers' -> count_peers p peers = count_peers p peers'.
Proof.
  induction 1 as [|x l l' _ IH|x y l|l l' l'' _ IH1 _ IH2]; simpl; lia.
Qed.

(** The consensus does not depend on the order in which the network
    lists the connected peers. *)
Theorem calculateConsensus_order_independent (this : Peers) (channel channel' : Channel) :
  getApplicationState channel = getApplicationState channel' ->
  Permutation (getConnectedPeers channel) (getConnectedPeers channel') ->
  calculateConsensus this channel = calculateConsensus this channel'.
Proof.
  intros Hstate Hperm. rewrite !calculateConsensus_counts. rewrite <- Hstate.
  destruct (app_modules (getApplicationState channel) !! moduleAlias this); [|reflexivity].
  unfold active, matched.
  rewrite <- !(count_peers_permutation _ _ _ Hperm). reflexivity.
Qed.

Lemma calculateConsensus_order_independent_witness :
  calculateConsensus (sample_peers false) sample_channel
  = calculateConsensus (sample_peers false)
      (mkChannel (getApplicationState sample_channel)
         (List.rev (getConnectedPeers sample_channel))).
Proof.
  apply calculateConsensus_order_independent; [reflexivity|].
  apply Permutation_rev.
Defined.

(** The clamp saturates: as soon as 100 connected peers carry the
    chain's broadhash the consensus is 100, however many more peers
    advertise the chain with another broadhash. *)
Theorem calculateConsensus_saturates (this : Peers) (channel : Channel)
    (moduleInfo : ModuleInfo) :
  app_modules (getApplicationState channel) !! moduleAlias this = Some moduleInfo ->
  MAX_PEERS <= count_peers (matches (moduleAlias this) (broadhash moduleInfo))
                 (getConnectedPeers channel) ->
  exists q : Q, calculateConsensus this channel = Normal (Fin q) /\ (q == 100)%Q.
Proof.
  intros Hinfo Hmany. rewrite calculateConsensus_counts, Hinfo. cbv zeta.
  pose proof (count_matches_le_advertises (moduleAlias this) (broadhash moduleInfo)
                (getConnectedPeers channel)) as Hle.
  unfold active, matched. unfold MAX_PEERS in *.
  rewrite !Z.min_r by lia. simpl Z.eqb. cbv iota.
  rewrite ratio_finite by lia. eexists. split; [reflexivity|].
  vm_compute. reflexivity.
Qed.

Lemma calculateConsensus_saturates_witness :
  exists q : Q,
    calculateConsensus (sample_peers false)
      (mkChannel (getApplicationState sample_channel)
         (List.repeat (sample_peer "aa") 100 ++ List.repeat (sample_peer "bb") 300))
    = Normal (Fin q) /\ (q == 100)%Q.
Proof.
  apply (calculateConsensus_saturates _ _ (mkModuleInfo (Some "aa") (Some 10))).
  - vm_compute. reflexivity.
  - vm_compute. discriminate.
Defined.

(** A node that no connected peer shares its chain with has poor
    consensus for every positive threshold, unless forging is forced. *)
Theorem isPoorConsensus_without_peers (this : Peers) (broadhash_arg : option string)
    (channel : Channel) (minimum : Q) :
  forgingForce this = false ->
  minBroadhashConsensus this = Fin minimum ->
  (0 < minimum)%Q ->
  Forall (fun peer => advertises (moduleAlias this) peer = false)
    (getConnectedPeers channel) ->
  isPoorConsensus this broadhash_arg channel = Normal true.
Proof.
  intros Hforce Hmin Hpos Hnone. unfold isPoorConsensus. rewrite Hforce.
  assert (Hzero : calculateConsensus this channel = Normal (of_Z 0)).
  { rewrite calculateConsensus_counts.
    destruct (app_modules (getApplicationState channel) !! moduleAlias this);
      [|reflexivity].
    cbv zeta. unfold active. rewrite (no_peer_advertises _ _ Hnone). reflexivity. }
  rewrite Hzero, Hmin. simpl. f_equal.
  destruct (Qle_bool minimum (inject_Z 0)) eqn:Hle; [|reflexivity].
  apply Qle_bool_iff in Hle. change (inject_Z 0) with 0%Q in Hle. lra.
Qed.

Lemma isPoorConsensus_without_peers_witness :
  isPoorConsensus (sample_peers false) None lonely_channel = Normal true.
Proof.
  apply (isPoorConsensus_without_peers (sample_peers false) None lonely_channel
           (inject_Z 51)).
  - reflexivity.
  - reflexivity.
  - reflexivity.
  - constructor.
Defined.

End PeersProps.

(* ===================================================================== *)
(** * Laws of method bodies *)
(* ===================================================================== *)

Module JsLaws.
Import Js.

Section Laws.

Context {E S : Type}.

Lemma bind_ret_l {A B} (a : A) (k : A -> M E S B) (s : S) :
  bind (ret a) k s = k a s.
Proof. unfold bind, ret. destruct (k a s) as [[r s2] tr2]. reflexivity. Qed.

Lemma bind_ext {A B} (m : M E S A) (k k' : A -> M E S B) (s : S) :
  (forall a s', k a s' = k' a s') -> bind m k s = bind m k' s.
Proof.
  intros Hk. unfold bind. destruct (m s) as [[[a|t] s1] tr1]; [|reflexivity].
  rewrite Hk. reflexivity.
Qed.

Lemma bind_assoc {A B C} (m : M E S A) (k : A -> M E S B) (k' : B -> M E S C) (s : S) :
  bind (bind m k) k' s = bind m (fun a => bind (k a) k') s.
Proof.
  unfold bind. destruct (m s) as [[[a|t] s1] tr1]; [|reflexivity].
  destruct (k a s1) as [[[b|t] s2] tr2]; [|reflexivity].
  destruct (k' b s2) as [[r s3] tr3]. rewrite app_assoc. reflexivity.
Qed.

(** A [try] whose handler cannot throw completes normally. *)
Lemma try_catch_total (m : M E S unit) (h : Thrown -> M E S unit) (s : S) :
  (forall t s', result_of (h t s') = Normal tt) ->
  result_of (try_catch m h s) = Normal tt.
Proof.
  intros Hh. unfold try_catch, result_of.
  destruct (m s) as [[[[]|t] s1] tr1]; [reflexivity|].
  specialize (Hh t s1). unfold result_of in Hh.
  destruct (h t s1) as [[r s2] tr2]. exact Hh.
Qed.

End Laws.

End JsLaws.

(* ===================================================================== *)
(** * Further properties of transport *)
(* ===================================================================== *)

Module TransportProps.
Import Js JsFacts JsLaws Transport TransportTraces TransportSpec.
Local Open Scope js_scope.

(** ** blocksCommon *)

(** A request without any numeric value is rejected before the store is
    asked: the ids string may be empty, or hold only quotes, letters and
    commas. *)
Theorem blocksCommon_invalid_sequence
    (validate : BlocksCommonQuery -> list ValidationError)
    (storage : Storage) (query : BlocksCommonQuery) (s : string) :
  validate query = [] ->
  ids query = Some s ->
  len (split "," s) <= 1000 ->
  candidate_ids s = [] ->
  blocksCommon validate (Some query) storage
  = (Throw (ThrownError (Error "Invalid block id sequence")), storage,
     [Validate "WSBlocksCommonRequest";
      LogDebug "Common block request validation failed"]).
Proof.
  intros Hvalid Hids Hlen Hcand. unfold blocksCommon.
  rewrite (more_than_1000_values_false query s Hids Hlen).
  rewrite Hvalid, Hids. fold (candidate_ids s). rewrite Hcand. reflexivity.
Qed.

Lemma blocksCommon_invalid_sequence_witness :
  blocksCommon sample_validate (Some (mkBlocksCommonQuery (Some "'',0x1f,12a"))) sample_storage
  = (Throw (ThrownError (Error "Invalid block id sequence")), sample_storage,
     [Validate "WSBlocksCommonRequest";
      LogDebug "Common block request validation failed"]).
Proof.
  apply (blocksCommon_invalid_sequence sample_validate sample_storage
           (mkBlocksCommonQuery (Some "'',0x1f,12a")) "'',0x1f,12a").
  - reflexivity.
  - reflexivity.
  - vm_compute. discriminate.
  - reflexivity.
Defined.

(** A request that fails schema validation is rejected with the message
    and the path of the first validation error; a missing query is
    validated as the empty object. *)
Theorem blocksCommon_validation_error
    (validate : BlocksCommonQuery -> list ValidationError)
    (storage : Storage) (query : option BlocksCommonQuery)
    (e0 : ValidationError) (others : list ValidationError) :
  let q := match query with Some q => q | None => mkBlocksCommonQuery None end in
  more_than_1000_values q = false ->
  validate q = e0 :: others ->
  blocksCommon validate query storage
  = (Throw (ThrownError (Error (message e0 ++ ": " ++ path e0)%string)), storage,
     [Validate "WSBlocksCommonRequest";
      LogDebug "Common block request validation failed"]).
Proof.
  intros q Hfew Hvalid. unfold blocksCommon. fold q. rewrite Hfew, Hvalid. reflexivity.
Qed.

Lemma blocksCommon_validation_error_witness :
  blocksCommon sample_validate None sample_storage
  = (Throw (ThrownError (Error "Missing required property: ids: #/")), sample_storage,
     [Validate "WSBlocksCommonRequest";
      LogDebug "Common block request validation failed"]).
Proof.
  apply (blocksCommon_validation_error sample_validate sample_storage None
           (mkValidationError "Missing required property: ids" "#/") []);
    reflexivity.
Defined.

(** When the store query fails, the error of the store is logged and
    replaced by the error "Failed to get common block". *)
Theorem blocksCommon_store_failure
    (validate : BlocksCommonQuery -> list ValidationError)
    (storage : Storage) (query : BlocksCommonQuery) (s id0 : string)
    (others : list string) (e : JsError) :
  validate query = [] ->
  ids query = Some s ->
  len (split "," s) <= 1000 ->
  candidate_ids s = id0 :: others ->
  failure storage = Some e ->
  blocksCommon validate (Some query) storage
  = (Throw (ThrownError (Error "Failed to get common block")), storage,
     [Validate "WSBlocksCommonRequest"; StorageBlockGet id0; LogError "error.stack"]).
Proof.
  intros Hvalid Hids Hlen Hcand Hstore. unfold blocksCommon.
  rewrite (more_than_1000_values_false query s Hids Hlen).
  rewrite Hvalid, Hids. fold (candidate_ids s). rewrite Hcand.
  unfold try_catch, bind, emit, throw, Block_get. rewrite Hstore. reflexivity.
Qed.

Lemma blocksCommon_store_failure_witness :
  blocksCommon sample_validate (Some (mkBlocksCommonQuery (Some "2,3")))
    (mkStorage [] (Some (Error "connection refused")))
  = (Throw (ThrownError (Error "Failed to get common block")),
     mkStorage [] (Some (Error "connection refused")),
     [Validate "WSBlocksCommonRequest"; StorageBlockGet "2"; LogError "error.stack"]).
Proof.
  apply (blocksCommon_store_failure sample_validate _
           (mkBlocksCommonQuery (Some "2,3")) "2,3" "2" ["3"] (Error "connection refused")).
  - reflexivity.
  - reflexivity.
  - vm_compute. discriminate.
  - reflexivity.
  - reflexivity.
Defined.

Lemma candidate_numeric (s id0 : string) (others : list string) :
  candidate_ids s = id0 :: others -> is_numeric id0 = true.
Proof.
  intros Hcand.
  assert (Hin : In id0 (candidate_ids s)) by (rewrite Hcand; left; reflexivity).
  unfold candidate_ids in Hin. apply List.filter_In in Hin. tauto.
Qed.

(** Every run of [blocksCommon], on every input: the run, by cases. *)
Lemma blocksCommon_run
    (validate : BlocksCommonQuery -> list ValidationError)
    (storage : Storage) (query : option BlocksCommonQuery) :
  let run := blocksCommon validate query storage in
  state_of run = storage /\
  ((store_queries (trace_of run) = [] /\ exists t, result_of run = Throw t) \/
   (exists s id0 others,
      match query with Some q => ids q = Some s | None => False end /\
      candidate_ids s = id0 :: others /\
      store_queries (trace_of run) = [id0] /\
      ((exists t, result_of run = Throw t) \/
       result_of run
       = Normal (mkBlocksCommonResult true (first_row_with_id id0 (blocks storage)))))).
Proof.
  cbv zeta. unfold blocksCommon.
  set (q := match query with Some q => q | None => mkBlocksCommonQuery None end).
  destruct (more_than_1000_values q); [split; [reflexivity | left; split; eauto]|].
  destruct (validate q) as [|e0 others] eqn:Hvalid;
    [|split; [reflexivity | left; split; [reflexivity | eexists; reflexivity]]].
  destruct (ids q) as [s|] eqn:Hids;
    [|split; [reflexivity | left; split; [reflexivity | eexists; reflexivity]]].
  fold (candidate_ids s).
  destruct (candidate_ids s) as [|id0 others] eqn:Hcand;
    [split; [reflexivity | left; split; [reflexivity | eexists; reflexivity]]|].
  assert (Hq : match query with Some q => ids q = Some s | None => False end).
  { destruct query as [q'|]; [exact Hids | discriminate Hids]. }
  unfold try_catch, bind, emit, throw, ret, Block_get.
  destruct (failure storage) as [e|] eqn:Hstore.
  - split; [reflexivity|]. right. exists s, id0, others.
    repeat split; auto. left. eexists. reflexivity.
  - cbv beta iota. rewrite not_length_gt_0_spec.
    assert (Hfirst :
      first_row_with_id id0 (blocks storage)
      = option_map parse_row
          (List.head (List.filter (fun row => String.eqb (id row) id0) (blocks storage)))).
    { unfold first_row_with_id. rewrite find_head_filter. reflexivity. }
    destruct (List.filter (fun row => String.eqb (id row) id0) (blocks storage))
      as [|r0 rest]; (split; [reflexivity|]); right; exists s, id0, others;
      rewrite Hfirst; repeat split; auto.
Qed.

(** [blocksCommon] is read-only and frugal: on every input it leaves the
    store as it was and asks it at most one question, for an id that is a
    non-empty string of digits. *)
Theorem blocksCommon_one_numeric_query
    (validate : BlocksCommonQuery -> list ValidationError)
    (storage : Storage) (query : option BlocksCommonQuery) :
  let run := blocksCommon validate query storage in
  state_of run = storage /\
  (store_queries (trace_of run) = [] \/
   exists id0, store_queries (trace_of run) = [id0] /\ is_numeric id0 = true).
Proof.
  destruct (blocksCommon_run validate storage query) as [Hstate Hcases].
  cbv zeta. split; [exact Hstate|].
  destruct Hcases as [[Hnone _] | (s & id0 & others & _ & Hcand & Hq & _)].
  - left. exact Hnone.
  - right. exists id0. split; [exact Hq | exact (candidate_numeric _ _ _ Hcand)].
Qed.

Lemma first_row_with_id_stored (blockId : string) (rows : list BlockRow) (p : ParsedRow) :
  first_row_with_id blockId rows = Some p ->
  exists row, In row rows /\ id row = blockId /\ p = parse_row row.
Proof.
  unfold first_row_with_id. destruct (List.find _ rows) as [row|] eqn:Hfind; [|discriminate].
  intros H. injection H as <-. apply List.find_some in Hfind as [Hin Heq].
  apply String.eqb_eq in Heq. exists row. auto.
Qed.

(** Whatever [blocksCommon] returns is a success value, and a common
    block that it returns is a stored block whose id is a numeric value
    of the request. *)
Theorem blocksCommon_returns_stored_block
    (validate : BlocksCommonQuery -> list ValidationError)
    (storage : Storage) (query : option BlocksCommonQuery)
    (result : BlocksCommonResult) :
  result_of (blocksCommon validate query storage) = Normal result ->
  success result = true /\
  forall p, common result = Some p ->
    exists q s row,
      query = Some q /\ ids q = Some s /\
      In (common_id p) (candidate_ids s) /\
      In row (blocks storage) /\ p = parse_row row.
Proof.
  intros Hres.
  destruct (blocksCommon_run validate storage query) as [_ Hcases]. cbv zeta in Hcases.
  destruct Hcases as [[_ [t Ht]] | (s & id0 & others & Hq & Hcand & _ & Hr)];
    [congruence|].
  destruct Hr as [[t Ht] | Hr]; [congruence|].
  rewrite Hr in Hres. injection Hres as <-. split; [reflexivity|].
  simpl. intros p Hp.
  destruct (first_row_with_id_stored _ _ _ Hp) as (row & Hin & Hid & ->).
  destruct query as [q|]; [|contradiction].
  exists q, s, row. repeat split; auto.
  simpl. rewrite Hid, Hcand. left. reflexivity.
Qed.

Lemma blocksCommon_returns_stored_block_witness :
  exists row, In row (blocks sample_storage) /\
    parse_row row = mkParsedRow "3" 3 (Some "2") 30.
Proof.
  destruct (blocksCommon_returns_stored_block sample_validate sample_storage
              (Some (mkBlocksCommonQuery (Some "3,2")))
              (mkBlocksCommonResult true (Some (mkParsedRow "3" 3 (Some "2") 30)))
              eq_refl) as [_ H].
  destruct (H _ eq_refl) as (q & s & row & _ & _ & _ & Hin & Hp).
  exists row. split; [exact Hin | symmetry; exact Hp].
Defined.

(** ** Inbound transactions and blocks *)

Section Inbound.

Variables NodeState Transaction Block : Type.
Variable transaction_id : Transaction -> string.
Variable block_id : Block -> string.
Variable fromJson : option TransactionJSON -> Completion Transaction.
Variable composedTransactionsCheck : NodeState -> Transaction -> Completion (list JsError).
Variable processUnconfirmedTransaction :
  Transaction -> bool -> NodeState -> Completion unit * NodeState.
Variable convertErrorsToString : Thrown -> string.
Variable validate_WSTransactionsRequest : option PostTransactionsQuery -> list ValidationError.
Variable validate_WSBlocksBroadcast : option Block -> list ValidationError.
Variable addBlockProperties : option Block -> Completion Block.
Variable fromBlock : Block -> Completion (list Transaction).
Variable set_transactions : Block -> list Transaction -> Block.
Variable objectNormalize : Block -> Completion Block.
Variable syncing : NodeState -> bool.
Variable receiveBlockFromNetwork : Block -> NodeState -> Completion unit * NodeState.

Local Abbreviation receiveTransaction :=
  (_receiveTransaction NodeState Transaction transaction_id fromJson
     composedTransactionsCheck processUnconfirmedTransaction convertErrorsToString).
Local Abbreviation receiveEach :=
  (receive_each NodeState Transaction transaction_id fromJson
     composedTransactionsCheck processUnconfirmedTransaction convertErrorsToString).
Local Abbreviation receiveTransactions :=
  (_receiveTransactions NodeState Transaction transaction_id fromJson
     composedTransactionsCheck processUnconfirmedTransaction convertErrorsToString).
Local Abbreviation postTransactions' :=
  (postTransactions NodeState Transaction transaction_id fromJson
     composedTransactionsCheck processUnconfirmedTransaction convertErrorsToString
     validate_WSTransactionsRequest).
Local Abbreviation postBlock' :=
  (postBlock NodeState Transaction Block block_id validate_WSBlocksBroadcast
     addBlockProperties fromBlock set_transactions objectNormalize syncing
     receiveBlockFromNetwork).

(** A transaction that cannot be built from its JSON form, or that the
    checks reject, never reaches the pool: [_receiveTransaction] throws
    the same errors again and leaves the node state as it was. *)
Theorem _receiveTransaction_rejects (transactionJSON : option TransactionJSON)
    (st : NodeState) (t : Thrown) :
  fromJson transactionJSON = Throw t \/
  (exists transaction,
     fromJson transactionJSON = Normal transaction /\
     (composedTransactionsCheck st transaction = Throw t \/
      exists e es,
        composedTransactionsCheck st transaction = Normal (e :: es) /\
        t = ThrownErrors (e :: es))) ->
  receiveTransaction transactionJSON st
  = (Throw t, st, [LogDebug "Transaction normalization failed"]).
Proof.
  unfold _receiveTransaction, bind, try_catch, lift, get, emit, throw, ret.
  intros [Hf | (transaction & Hf & [Hc | (e & es & Hc & ->)])]; rewrite Hf;
    try rewrite Hc; reflexivity.
Qed.

(** One element of a batch: whatever happens to it, the batch goes on. *)
Lemma receive_one_total (transaction : option TransactionJSON) (st : NodeState) :
  result_of
    (try_catch (bind (receiveTransaction (set_bundled transaction)) (fun _ => ret tt))
       (fun err => emit (LogDebug (convertErrorsToString err))) st)
  = Normal tt.
Proof. apply try_catch_total. reflexivity. Qed.

(** [_receiveTransactions] never throws: the errors of single
    transactions are logged and the rest of the batch is still
    processed. *)
Theorem _receiveTransactions_never_throws
    (transactions : option (list (option TransactionJSON))) (st : NodeState) :
  result_of (receiveTransactions transactions st) = Normal tt.
Proof.
  unfold _receiveTransactions.
  generalize (match transactions with Some l => l | None => [] end). clear transactions.
  intros l. revert st. induction l as [|transaction rest IH]; intros st; [reflexivity|].
  simpl receive_each. unfold bind at 1.
  pose proof (receive_one_total transaction st) as Hone. unfold result_of in Hone.
  destruct (try_catch _ _ st) as [[r s1] tr1]. simpl in Hone. subst r.
  specialize (IH s1). unfold result_of in *.
  destruct (receiveEach rest s1) as [[r2 s2] tr2]. exact IH.
Qed.

(** A batch made of two lists behaves as the batch of the first list
    followed by the batch of the second: same final state, same calls. *)
Theorem _receiveTransactions_app (l1 l2 : list (option TransactionJSON)) (st : NodeState) :
  receiveTransactions (Some (l1 ++ l2)) st
  = bind (receiveTransactions (Some l1)) (fun _ => receiveTransactions (Some l2)) st.
Proof.
  unfold _receiveTransactions. revert st.
  induction l1 as [|transaction rest IH]; intros st.
  - simpl. rewrite bind_ret_l. reflexivity.
  - simpl. rewrite bind_assoc. apply bind_ext. intros _ s'. apply IH.
Qed.

(** An invalid [postTransactions] body is rejected with the validation
    errors, and none of its transactions is looked at. *)
Theorem postTransactions_invalid_body (this : Transport)
    (query : option PostTransactionsQuery) (st : NodeState)
    (e : ValidationError) (es : list ValidationError) :
  active (broadcasts (constants this)) = true ->
  validate_WSTransactionsRequest query = e :: es ->
  postTransactions' this query st
  = (Throw (ThrownValidation (e :: es)), st,
     [Validate "WSTransactionsRequest"; LogDebug "Invalid transactions body"]).
Proof.
  intros Hon Hvalid. unfold postTransactions. rewrite Hon, Hvalid. reflexivity.
Qed.

(** [postBlock] hands a block to [receiveBlockFromNetwork] only when
    receiving is enabled, the payload is valid and the node is not
    syncing; in every other case the node state is untouched. *)
Theorem postBlock_guard (this : Transport) (query_block : option Block) (st : NodeState) :
  let run := postBlock' this query_block st in
  (received_blocks (trace_of run) = [] -> state_of run = st) /\
  (forall b, In b (received_blocks (trace_of run)) ->
     active (broadcasts (constants this)) = true /\
     validate_WSBlocksBroadcast query_block = [] /\
     syncing st = false /\
     exists block,
       block_id block = b /\
       state_of run = snd (receiveBlockFromNetwork block st)).
Proof.
  cbv zeta.
  unfold postBlock, bind, lift, get, emit, throw, call_receiveBlockFromNetwork.
  destruct (active (broadcasts (constants this))); cbn [negb]; cbv beta iota;
    [|split; [reflexivity | intros b []]].
  destruct (validate_WSBlocksBroadcast query_block) as [|e es]; cbv beta iota;
    [|split; [reflexivity | intros b []]].
  destruct (addBlockProperties query_block) as [block0|t]; cbv beta iota;
    [|split; [reflexivity | intros b []]].
  destruct (fromBlock block0) as [txs|t]; cbv beta iota;
    [|split; [reflexivity | intros b []]].
  destruct (objectNormalize (set_transactions block0 txs)) as [block|t]; cbv beta iota;
    [|split; [reflexivity | intros b []]].
  destruct (syncing st) eqn:Hsync; cbv beta iota; [split; [reflexivity | intros b []]|].
  destruct (receiveBlockFromNetwork block st) as [r st'] eqn:Hreceive.
  cbn. split; [discriminate|].
  intros b [<- | []]. repeat split. exists block. rewrite Hreceive. auto.
Qed.

End Inbound.

Lemma _receiveTransaction_rejects_witness :
  _receiveTransaction SampleState string (fun i => i) sample_fromJson sample_check
    sample_process sample_convert (Some (sample_transaction "42")) (["42"], [])
  = (Throw (ThrownErrors [Error "Transaction is already processed"]), (["42"], []),
     [LogDebug "Transaction normalization failed"]).
Proof.
  apply (_receiveTransaction_rejects SampleState string (fun i => i) sample_fromJson
           sample_check sample_process sample_convert).
  right. exists "42". split; [reflexivity|].
  right. exists (Error "Transaction is already processed"), []. split; reflexivity.
Defined.

Lemma postBlock_guard_witness :
  exists block,
    block = "1337" /\
    state_of (postBlock SampleState string string (fun b => b) (fun _ => [])
                sample_addBlockProperties (fun _ => Normal []) (fun b _ => b)
                (fun b => Normal b) (fun _ => false) sample_receiveBlock
                (sample_transport true) (Some "1337") ([], ["1336"]))
    = snd (sample_receiveBlock block ([], ["1336"])).
Proof.
  destruct (postBlock_guard SampleState string string (fun b => b) (fun _ => [])
              sample_addBlockProperties (fun _ => Normal []) (fun b _ => b)
              (fun b => Normal b) (fun _ => false) sample_receiveBlock
              (sample_transport true) (Some "1337") ([], ["1336"])) as [_ H].
  destruct (H "1337") as (_ & _ & _ & block & Hid & Hst).
  - vm_compute. left. reflexivity.
  - exists block. split; assumption.
Defined.

Lemma postTransactions_invalid_body_witness :
  postTransactions SampleState string (fun i => i) sample_fromJson sample_check
    sample_process sample_convert
    (fun q => match q with None => [mkValidationError "should be object" ""] | _ => [] end)
    (sample_transport true) None ([], [])
  = (Throw (ThrownValidation [mkValidationError "should be object" ""]), ([], []),
     [Validate "WSTransactionsRequest"; LogDebug "Invalid transactions body"]).
Proof.
  apply (postTransactions_invalid_body SampleState string (fun i => i) sample_fromJson
           sample_check sample_process sample_convert); reflexivity.
Defined.

(** In a batch the duplicate is logged and the other transactions go
    through. *)
Example batch_continues :
  state_of
    (postTransactions SampleState string (fun i => i) sample_fromJson sample_check
       sample_process sample_convert (fun _ => []) (sample_transport true)
       (Some (mkPostTransactionsQuery
                (Some [Some (sample_transaction "1"); Some (sample_transaction "1");
                       None; Some (sample_transaction "2")])))
       ([], []))
  = (["2"; "1"], []).
Proof. reflexivity. Qed.

(** ** The signatures that postTransaction passes on *)

(** [postTransaction] hands [_receiveTransaction] a copy of the
    transaction with the same id and fields. A falsy [signatures] is
    kept. An array of signatures keeps its length and order: strings and
    falsy elements are kept, and every other element is replaced by its
    [signature] property, whatever that is ([undefined] when there is
    none). Any other [signatures] makes the copy fail with a type error,
    as a missing query or transaction does. *)
Theorem sanitizedTransaction_signatures (query : option PostTransactionQuery) :
  match sanitizedTransaction query with
  | Normal sanitized =>
      exists t,
        query = Some (mkPostTransactionQuery (Some t)) /\
        tx_id sanitized = tx_id t /\
        bundled sanitized = bundled t /\
        fields sanitized = fields t /\
        match signatures t with
        | VArray sigs =>
            exists sigs',
              signatures sanitized = VArray sigs' /\
              Forall2 (fun p p' =>
                         match p with
                         | VString s => p' = VString s
                         | VObject properties => p' = property "signature" properties
                         | VUndefined | VNull | VBool false => p' = p
                         | VNumber n => p' = if to_boolean p then VUndefined else p
                         | VBool true | VArray _ => p' = VUndefined
                         end) sigs sigs'
        | other => to_boolean other = false /\ signatures sanitized = other
        end
  | Throw t =>
      (exists message, t = ThrownError (TypeError message)) /\
      (query = None \/
       query = Some (mkPostTransactionQuery None) \/
       exists tx,
         query = Some (mkPostTransactionQuery (Some tx)) /\
         to_boolean (signatures tx) = true /\
         forall sigs, signatures tx <> VArray sigs)
  end.
Proof.
  unfold sanitizedTransaction. destruct query as [[[t|]]|]; cbn [transaction].
  - destruct (signatures t) as [| |b|n|str|sigs|properties] eqn:Hsigs;
      cbn [to_boolean]; cbv beta iota.
    + exists t. rewrite Hsigs. repeat split.
    + exists t. rewrite Hsigs. repeat split.
    + destruct b.
      * split; [eexists; reflexivity|]. right. right. exists t.
        rewrite Hsigs. repeat split. intros sigs H. discriminate H.
      * exists t. rewrite Hsigs. repeat split.
    + destruct (to_boolean (VNumber n)) eqn:Hn; cbn [to_boolean] in Hn; rewrite Hn.
      * split; [eexists; reflexivity|]. right. right. exists t.
        rewrite Hsigs. repeat split; [exact Hn|]. intros sigs H. discriminate H.
      * exists t. rewrite Hsigs. repeat split. exact Hn.
    + destruct (negb (String.eqb str "")) eqn:Hstr.
      * split; [eexists; reflexivity|]. right. right. exists t.
        rewrite Hsigs. repeat split; [exact Hstr|]. intros sigs H. discriminate H.
      * exists t. rewrite Hsigs. repeat split. exact Hstr.
    + exists t. cbn [tx_id bundled fields signatures]. rewrite Hsigs. repeat split.
      exists (List.map sanitize_packet sigs). split; [reflexivity|].
      clear. induction sigs as [|p sigs IH]; simpl; constructor; [|exact IH].
      destruct p as [| |[]|n|str|elements|properties]; try reflexivity.
    + split; [eexists; reflexivity|]. right. right. exists t.
      rewrite Hsigs. repeat split. intros sigs H. discriminate H.
  - split; [eexists; reflexivity|]. right. left. reflexivity.
  - split; [eexists; reflexivity|]. left. reflexivity.
Qed.

(** Signature objects are unwrapped once. *)
Example sanitizedTransaction_unwraps :
  option_map signatures
    (match sanitizedTransaction
             (Some (mkPostTransactionQuery (Some (sample_transaction "42")))) with
     | Normal sanitized => Some sanitized
     | Throw _ => None
     end)
  = Some (VArray [VString "5a"; VString "6b"]).
Proof. reflexivity. Qed.

(** Nothing checks what the [signature] property holds: an object stays
    an object, and a number is replaced by [undefined]. *)
Example sanitizedTransaction_keeps_nested_object :
  option_map signatures
    (match sanitizedTransaction
             (Some (mkPostTransactionQuery (Some nested_transaction))) with
     | Normal sanitized => Some sanitized
     | Throw _ => None
     end)
  = Some (VArray [VObject [("signature", VString "5a")]; VNull; VUndefined]).
Proof. reflexivity. Qed.

(** Signatures that are not an array are not passed on at all. *)
Example sanitizedTransaction_needs_array :
  sanitizedTransaction (Some (mkPostTransactionQuery (Some malformed_transaction)))
  = Throw (ThrownError (TypeError "transaction.signatures.map is not a function")).
Proof. reflexivity. Qed.

End TransportProps.

(* ===================================================================== *)
(** * Further properties of chain: sanitized transactions *)
(* ===================================================================== *)

Module SanitizeProps.
Import Js JsFacts Chain ChainActions ChainSpec.

(** Joining the pieces of a split with the separator gives the string
    back. *)
Lemma concat_split (sep : ascii) (s : string) :
  String.concat (String sep EmptyString) (split sep s) = s.
Proof.
  induction s as [|c s' IH]; [reflexivity|]. simpl split.
  destruct (Ascii.eqb_spec c sep) as [->|Hne].
  - pose proof (split_nonempty sep s') as Hs.
    destruct (split sep s') as [|w ws]; [congruence|].
    change (String.concat (String sep "") ("" :: w :: ws))
      with (String sep (String.concat (String sep "") (w :: ws))).
    rewrite IH. reflexivity.
  - pose proof (split_nonempty sep s') as Hs.
    destruct (split sep s') as [|w ws]; [congruence|].
    destruct ws as [|w' ws]; simpl in *; rewrite <- IH; reflexivity.
Qed.

Lemma mapC_throws {A B} (f : A -> Completion B) (l : list A) (x : A) (t : Thrown) :
  In x l -> f x = Throw t -> exists t', mapC f l = Throw t'.
Proof.
  induction l as [|y l IH]; simpl; [contradiction|].
  intros [-> | Hin] Hx.
  - rewrite Hx. eexists. reflexivity.
  - destruct (f y); [|eexists; reflexivity]. simpl.
    destruct (IH Hin Hx) as [t' Ht']. rewrite Ht'. eexists. reflexivity.
Qed.

Section Sanitize.

Variable toString_utf8 : Buffer -> string.
Variable toString_hex : Buffer -> string.
Variable getTransactionBytes : TransactionToHash -> Completion Buffer.
Variable hash : Buffer -> Buffer.
Variable verifyData : Buffer -> string -> string -> Completion bool.
Variable getAddressFromPublicKey : string -> Completion string.
Variable _getMultisigWalletMembers : string -> Completion (list MemberRow).

Local Abbreviation sanitize :=
  (sanitizeTransaction toString_utf8 toString_hex getTransactionBytes hash verifyData
     getAddressFromPublicKey _getMultisigWalletMembers).
Local Abbreviation sanitizeAll :=
  (_sanitizeTransactions toString_utf8 toString_hex getTransactionBytes hash verifyData
     getAddressFromPublicKey _getMultisigWalletMembers).
Local Abbreviation find_address :=
  (_findMultisigMemberWalletAddress toString_utf8 toString_hex getTransactionBytes hash
     verifyData getAddressFromPublicKey).

Local Abbreviation renamed := (ChainActions.renamed toString_utf8 toString_hex).

Local Abbreviation sanitizeTransaction_inv :=
  (ChainSpec.sanitizeTransaction_inv toString_utf8 toString_hex getTransactionBytes hash
     verifyData getAddressFromPublicKey _getMultisigWalletMembers).

(** Rows that are not transfers, and transfers without signatures, keep
    their signatures column and are sanitized without any query for
    wallet members, whatever the store would answer. *)
Theorem sanitize_leaves_unsigned_rows (txn : TrsRow) :
  type txn <> 0 \/ truthy_string (signatures txn) = false ->
  exists newTxn,
    sanitize txn = Normal newTxn /\
    new_signatures newTxn = StoredSignatures (signatures txn) /\
    forall otherStore,
      sanitizeTransaction toString_utf8 toString_hex getTransactionBytes hash verifyData
        getAddressFromPublicKey otherStore txn = Normal newTxn.
Proof.
  intros Hcase. unfold sanitizeTransaction.
  assert (Hif : (type txn =? 0) && truthy_string (signatures txn) = false).
  { destruct Hcase as [Htype | Hsig].
    - apply Z.eqb_neq in Htype. rewrite Htype. reflexivity.
    - rewrite Hsig. apply andb_false_r. }
  rewrite Hif. eexists. repeat split.
Qed.

(** A batch of rows is sanitized row by row and in order: as many
    results as rows, each carrying the id, type, timestamp, amount and
    block id of its row, the sender under [senderAddress], the public key
    in hex, the transfer data as utf-8 [message], and the recipient under
    [recipientAddress] when there is one. *)
Theorem _sanitizeTransactions_positional (transactions : list TrsRow)
    (sanitized : list SanitizedTransaction) :
  sanitizeAll transactions = Normal sanitized ->
  Forall2 renamed transactions sanitized.
Proof.
  unfold _sanitizeTransactions. intros H. apply mapC_inv in H.
  eapply Forall2_impl; [exact H|]. intros txn newTxn Hs.
  apply sanitizeTransaction_inv in Hs. tauto.
Qed.

(** Resolving the signers loses nothing: the signatures of the signers,
    joined by commas, are the stored signatures column. *)
Theorem sanitize_keeps_signatures (txn : TrsRow) (newTxn : SanitizedTransaction)
    (signers : list Signer) :
  sanitize txn = Normal newTxn ->
  new_signatures newTxn = Signers signers ->
  signatures txn = Some (String.concat "," (List.map signature signers)).
Proof.
  intros Hs Hsigners.
  destruct (sanitizeTransaction_inv txn newTxn Hs) as [_ [[_ Hstored] | Hres]];
    [congruence|].
  destruct Hres as (s & members & signers' & (_ & Hsigs & _) & _ & Hnew & Hall).
  assert (signers' = signers) by congruence. subst signers'.
  rewrite Hsigs. f_equal. rewrite <- (concat_split "," s) at 1. f_equal.
  clear -Hall. induction Hall as [|sig signer sigs signers (a & _ & ->) _ IH];
    simpl; [reflexivity|]. rewrite IH. reflexivity.
Qed.

(** Every signer address that sanitization reports is an address that
    the action [getMultisigWalletMembers] lists for the sender. *)
Theorem signers_are_wallet_members (txn : TrsRow) (newTxn : SanitizedTransaction)
    (addresses : list string) (signer : Signer) (address : string) :
  sanitize txn = Normal newTxn ->
  getMultisigWalletMembers getAddressFromPublicKey _getMultisigWalletMembers
    (senderId txn) = Normal addresses ->
  In signer (signers_of newTxn) ->
  signerAddress signer = Some address ->
  In address addresses.
Proof.
  intros Hs Haddr Hin Hsome. unfold signers_of in Hin.
  destruct (sanitizeTransaction_inv txn newTxn Hs) as [_ [[_ Hstored] | Hres]].
  { rewrite Hstored in Hin. contradiction. }
  destruct Hres as (s & members & signers & _ & Hmembers & Hnew & Hall).
  rewrite Hnew in Hin.
  unfold getMultisigWalletMembers in Haddr. rewrite Hmembers in Haddr. simpl in Haddr.
  apply mapC_inv in Haddr.
  assert (Hone : exists sig a,
    find_address txn sig (List.map dependentId members) = Normal a /\
    signer = mkSigner a sig).
  { clear -Hall Hin. induction Hall as [|sig sg sigs sgs (a & Ha & ->) _ IH].
    - contradiction.
    - destruct Hin as [<- | Hin]; [exists sig, a; auto | auto]. }
  destruct Hone as (sig & a & Hfind & ->). simpl in Hsome. subst a.
  destruct (ChainSpec._findMultisigMemberWalletAddress_inv _ _ _ _ _ _ _ _ _ _ Hfind)
    as (publicKey & _ & _ & Hresolved).
  cbn [signerAddress] in Hresolved.
  destruct Hresolved as (before & pk & after & Hkeys & _ & _ & _ & Hpk).
  assert (Hin' : In pk (List.map dependentId members)).
  { rewrite Hkeys. apply List.in_elt. }
  apply List.in_map_iff in Hin' as (member & <- & Hmember).
  clear -Haddr Hmember Hpk.
  induction Haddr as [|m y ms ys Hy _ IH]; [contradiction|].
  destruct Hmember as [-> | Hmember].
  - left. congruence.
  - right. apply IH. exact Hmember.
Qed.

(** One row that cannot be sanitized makes the whole batch fail. *)
Theorem _sanitizeTransactions_all_or_nothing (transactions : list TrsRow)
    (txn : TrsRow) (t : Thrown) :
  In txn transactions ->
  sanitize txn = Throw t ->
  exists t', sanitizeAll transactions = Throw t'.
Proof. unfold _sanitizeTransactions. apply mapC_throws. Qed.

End Sanitize.

Lemma sanitize_leaves_unsigned_rows_witness :
  exists newTxn,
    sanitizeTransaction sample_utf8 sample_utf8 sample_getTransactionBytes sample_hash
      sample_verifyData sample_address failing_members sample_vote = Normal newTxn /\
    new_signatures newTxn = StoredSignatures None.
Proof.
  destruct (sanitize_leaves_unsigned_rows sample_utf8 sample_utf8
              sample_getTransactionBytes sample_hash sample_verifyData sample_address
              failing_members sample_vote) as (newTxn & Hs & Hsig & _).
  - left. discriminate.
  - exists newTxn. split; [exact Hs | exact Hsig].
Defined.

Lemma _sanitizeTransactions_positional_witness :
  exists a b,
    _sanitizeTransactions sample_utf8 sample_utf8 sample_getTransactionBytes sample_hash
      sample_verifyData sample_address sample_members [sample_transfer; sample_vote]
    = Normal [a; b] /\
    new_id a = "77" /\ new_recipientAddress a = Some "R" /\ new_id b = "79".
Proof.
  eexists _, _. split; [reflexivity|].
  pose proof (_sanitizeTransactions_positional sample_utf8 sample_utf8
                sample_getTransactionBytes sample_hash sample_verifyData sample_address
                sample_members [sample_transfer; sample_vote] _ eq_refl) as H.
  inversion H as [|? ? ? ? Ha Hrest]; subst.
  inversion Hrest as [|? ? ? ? Hb _]; subst.
  destruct Ha as (Hid & _ & _ & _ & _ & _ & _ & _ & _ & Hrec & _).
  destruct Hb as (Hid' & _).
  split; [exact Hid|]. split; [apply Hrec; reflexivity | exact Hid'].
Defined.

Lemma sanitize_keeps_signatures_witness :
  signatures sample_transfer
  = Some (String.concat ","
            (List.map signature
               [mkSigner (Some "P1L") "77:P1"; mkSigner (Some "P2L") "77:P2";
                mkSigner None "77:P3"])).
Proof.
  eapply (sanitize_keeps_signatures sample_utf8 sample_utf8 sample_getTransactionBytes
            sample_hash sample_verifyData sample_address sample_members sample_transfer);
    reflexivity.
Defined.

Lemma signers_are_wallet_members_witness : In "P2L" ["P1L"; "P2L"].
Proof.
  eapply (signers_are_wallet_members sample_utf8 sample_utf8 sample_getTransactionBytes
            sample_hash sample_verifyData sample_address sample_members sample_transfer
            _ ["P1L"; "P2L"] (mkSigner (Some "P2L") "77:P2") "P2L").
  - reflexivity.
  - reflexivity.
  - vm_compute. tauto.
  - reflexivity.
Defined.

Lemma _sanitizeTransactions_all_or_nothing_witness :
  exists t',
    _sanitizeTransactions sample_utf8 sample_utf8 sample_getTransactionBytes sample_hash
      sample_verifyData sample_address sample_members
      [sample_transfer; keyless_transfer; sample_vote] = Throw t'.
Proof.
  eapply (_sanitizeTransactions_all_or_nothing sample_utf8 sample_utf8
            sample_getTransactionBytes sample_hash sample_verifyData sample_address
            sample_members _ keyless_transfer).
  - right. left. reflexivity.
  - reflexivity.
Defined.

End SanitizeProps.

(* ===================================================================== *)
(** * Further properties of chain: bootstrap *)
(* ===================================================================== *)

Module BootstrapProps.
Import Js JsFacts JsLaws Chain BootRuns.
Local Open Scope js_scope.

(** ** Evaluation of the prelude *)

Section Results.

Context {E S : Type}.

Lemma result_of_bind {A B} (m : M E S A) (k : A -> M E S B) (s : S) :
  result_of (bind m k s)
  = match result_of (m s) with
    | Normal a => result_of (k a (state_of (m s)))
    | Throw t => Throw t
    end.
Proof.
  unfold bind, result_of, state_of. destruct (m s) as [[[a|t] s1] tr1]; [|reflexivity].
  simpl. destruct (k a s1) as [[r s2] tr2]. reflexivity.
Qed.

Lemma bind_normal {A B} (m : M E S A) (k : A -> M E S B) (s s1 : S) (a : A)
    (tr1 : list E) :
  m s = (Normal a, s1, tr1) ->
  bind m k s = (result_of (k a s1), state_of (k a s1), tr1 ++ trace_of (k a s1)).
Proof.
  intros Hm. unfold bind. rewrite Hm. unfold result_of, state_of, trace_of.
  destruct (k a s1) as [[r s2] tr2]. reflexivity.
Qed.

End Results.

Section Prelude.

Variable fails : BootCall -> option Thrown.
Variable requiredGenesisBlock : JsVal.
Variables logger_given same_log_file : bool.

Lemma call_run (c : BootCall) (s : Options) :
  call fails c s
  = (match fails c with Some t => Throw t | None => Normal tt end, s, [c]).
Proof. unfold call, bind, emit, throw, ret. destruct (fails c); reflexivity. Qed.

Ltac found E :=
  let H := fresh "H" in
  intros H; injection H as <-; eexists; split; [|exact E];
  unfold prelude_calls; simpl; tauto.

(** The failures that [bootstrap] does not catch. *)
Lemma bootstrap_throws_in_prelude (opts : Options) (t : Thrown) :
  result_of (bootstrap fails requiredGenesisBlock logger_given same_log_file opts)
  = Throw t ->
  exists c, In c prelude_calls /\ fails c = Some t.
Proof.
  unfold bootstrap.
  rewrite result_of_bind, call_run. unfold result_of at 1, state_of at 1. simpl fst.
  destruct (fails RequireGenesisBlock) as [t0|] eqn:E0.
  { found E0. }
  rewrite result_of_bind. unfold get at 1. unfold result_of at 1, state_of at 1. simpl.
  rewrite result_of_bind. unfold put at 1. unfold result_of at 1, state_of at 1. simpl.
  rewrite result_of_bind, call_run. unfold result_of at 1, state_of at 1. simpl fst.
  destruct (fails (Invoke "app:getComponentConfig logger")) as [t1|] eqn:E1.
  { found E1. }
  rewrite result_of_bind, call_run. unfold result_of at 1, state_of at 1. simpl fst.
  destruct (fails (Invoke "app:getComponentConfig storage")) as [t2|] eqn:E2.
  { found E2. }
  rewrite result_of_bind, call_run. unfold result_of at 1, state_of at 1. simpl fst.
  destruct (fails (Invoke "app:getComponentConfig cache")) as [t3|] eqn:E3.
  { found E3. }
  rewrite result_of_bind, call_run. unfold result_of at 1, state_of at 1. simpl fst.
  destruct (fails (Invoke "app:getApplicationState")) as [t4|] eqn:E4.
  { found E4. }
  rewrite result_of_bind.
  assert (Hlogger : forall s,
    (exists u, result_of
       ((if logger_given then call fails CreateLoggerComponent
         else call fails CreateLoggerComponent ;;;
              if same_log_file then ret tt else call fails CreateLoggerComponent) s)
     = Normal u) \/
    (exists t5, fails CreateLoggerComponent = Some t5 /\
       result_of
         ((if logger_given then call fails CreateLoggerComponent
           else call fails CreateLoggerComponent ;;;
                if same_log_file then ret tt else call fails CreateLoggerComponent) s)
       = Throw t5)).
  { intros s. destruct (fails CreateLoggerComponent) as [t5|] eqn:E5.
    - right. exists t5. split; [reflexivity|].
      destruct logger_given; [rewrite call_run, E5; reflexivity|].
      rewrite result_of_bind, call_run, E5. reflexivity.
    - left. exists tt.
      destruct logger_given; [rewrite call_run, E5; reflexivity|].
      rewrite result_of_bind, call_run, E5. unfold result_of at 1. simpl.
      destruct same_log_file; [reflexivity | rewrite call_run, E5; reflexivity]. }
  match goal with |- context [result_of (?m ?s)] =>
    destruct (Hlogger s) as [[u Hu] | (t5 & E5 & Hu)] end.
  2:{ rewrite Hu. found E5. }
  rewrite Hu.
  rewrite result_of_bind. unfold get at 1. unfold result_of at 1, state_of at 1. simpl.
  rewrite result_of_bind.
  match goal with |- context [if ?b then put ?o else ret tt] =>
    destruct b end;
    unfold result_of at 1; simpl;
    rewrite try_catch_total by reflexivity; discriminate.
Qed.

(** [bootstrap] rejects only when one of the calls before its [try]
    block fails; every failure inside the block is caught. *)
Theorem bootstrap_rejects_only_in_prelude (opts : Options) (t : Thrown) :
  result_of (bootstrap fails requiredGenesisBlock logger_given same_log_file opts)
  = Throw t ->
  exists c, In c prelude_calls /\ fails c = Some t.
Proof. apply bootstrap_throws_in_prelude. Qed.

End Prelude.

Lemma bootstrap_rejects_only_in_prelude_witness :
  exists c,
    In c prelude_calls /\
    (fun c => match c with
              | Invoke "app:getComponentConfig cache" => Some (ThrownError (Error "timeout"))
              | _ => None
              end) c = Some (ThrownError (Error "timeout")).
Proof.
  apply (bootstrap_rejects_only_in_prelude _ (JStr "genesis") true false regular_options).
  reflexivity.
Defined.

(** Without a genesis block nothing is started: once the prelude has
    succeeded, [bootstrap] logs the fatal error, emits the cleanup signal
    with the error "Failed to assign nethash from genesis block" and
    returns normally, without creating a component or a module. *)
Theorem bootstrap_without_genesis (fails : BootCall -> option Thrown)
    (requiredGenesisBlock : JsVal) (logger_given same_log_file : bool) (opts : Options) :
  truthy requiredGenesisBlock = false ->
  (forall c, In c prelude_calls -> fails c = None) ->
  result_of (bootstrap fails requiredGenesisBlock logger_given same_log_file opts)
  = Normal tt /\
  trace_of (bootstrap fails requiredGenesisBlock logger_given same_log_file opts)
  = prelude_trace logger_given same_log_file
    ++ [Log "fatal" "Chain initialization";
        ProcessEmitCleanup
          (Some (ThrownError (Error "Failed to assign nethash from genesis block")))].
Proof.
  intros Hgenesis Hprelude.
  unfold bootstrap, call.
  cbv [bind try_catch emit throw ret get put].
  rewrite !Hprelude by (unfold prelude_calls; simpl; tauto).
  destruct logger_given, same_log_file;
    cbv beta iota;
    cbn [rebuildUpToRound genesisBlock broadcasts_active syncing_active];
    destruct (truthy (rebuildUpToRound opts));
    cbv beta iota;
    cbn [rebuildUpToRound genesisBlock broadcasts_active syncing_active];
    rewrite Hgenesis; split; reflexivity.
Qed.

Lemma bootstrap_without_genesis_witness :
  trace_of (bootstrap no_failure JUndefined false true regular_options)
  = prelude_trace false true
    ++ [Log "fatal" "Chain initialization";
        ProcessEmitCleanup
          (Some (ThrownError (Error "Failed to assign nethash from genesis block")))].
Proof.
  apply (bootstrap_without_genesis no_failure JUndefined false true regular_options);
    reflexivity.
Defined.

(** ** A regular start *)

Section Regular.

Variable fails : BootCall -> option Thrown.
Variable requiredGenesisBlock : JsVal.
Variables logger_given same_log_file : bool.

(** The configuration that the run starts with. *)
Variable round : JsVal.
Variables b0 s0 : bool.
Hypothesis round_falsy : truthy round = false.

Local Abbreviation configured := (BootRuns.configured round b0 s0).

Lemma regular_safe_call (c : BootCall) :
  regular_call b0 s0 c -> safe configured (regular_call b0 s0) (call fails c) configured.
Proof.
  intros Hc. unfold call. eapply safe_bind; [apply safe_emit; exact Hc | | auto].
  intros _. destruct (fails c); [apply safe_throw | apply safe_ret].
Qed.

Ltac regular_call := apply regular_safe_call; simpl; try exact I; try discriminate.
Ltac regular_emit := apply safe_emit; simpl; try exact I; try discriminate.
Ltac regular_next :=
  eapply safe_bind; [first [regular_call | regular_emit] | intros _ | auto].

Lemma regular_subscribeToEvents :
  safe configured (regular_call b0 s0) (_subscribeToEvents fails) configured.
Proof.
  unfold _subscribeToEvents.
  regular_next. regular_next. regular_next. regular_next. regular_next. regular_call.
Qed.

Lemma regular_startLoader :
  safe configured (regular_call b0 s0) (_startLoader fails) configured.
Proof.
  unfold _startLoader. regular_next.
  apply safe_bind_get. intros o (_ & _ & Hs).
  destruct (syncing_active o) eqn:Hactive; simpl negb; cbv iota.
  - apply regular_safe_call. simpl. intros _. congruence.
  - apply safe_ret.
Qed.

Lemma regular_startForging :
  safe configured (regular_call b0 s0) (_startForging fails) configured.
Proof.
  unfold _startForging.
  eapply safe_bind with (Mid := configured); [| intros _ | auto].
  { eapply safe_try_catch; [regular_call | intros t; regular_emit | auto]. }
  regular_call.
Qed.

(** Every call of a regular start is a [regular_call], and the options
    keep the configured round and flags, whichever collaborators fail. *)
Lemma regular_bootstrap :
  safe configured (regular_call b0 s0)
    (bootstrap fails requiredGenesisBlock logger_given same_log_file) configured.
Proof.
  unfold bootstrap. regular_next.
  apply safe_bind_get. intros o Ho.
  eapply safe_bind with (Mid := configured); [| intros _ | auto].
  { apply safe_put. exact Ho. }
  regular_next. regular_next. regular_next. regular_next.
  eapply safe_bind with (Mid := configured); [| intros _ | auto].
  { destruct logger_given; [regular_call | regular_next].
    destruct same_log_file; [apply safe_ret | regular_call]. }
  apply safe_bind_get. intros o1 (Hr1 & Hb1 & Hs1).
  eapply safe_bind with (Mid := configured); [| intros _ | auto].
  { rewrite Hr1, round_falsy. apply safe_ret. }
  eapply safe_try_catch with (Mid := configured); [| | auto].
  2:{ intros t. regular_next. regular_emit. }
  apply safe_bind_get. intros o2 Ho2.
  eapply safe_bind with (Mid := configured); [| intros _ | auto].
  { destruct (negb (truthy (genesisBlock o2))); [apply safe_throw | apply safe_ret]. }
  regular_next. regular_next. regular_next. regular_next. regular_next.
  regular_next. regular_next.
  eapply safe_bind with (Mid := configured); [| intros _ | auto].
  { eapply safe_try_catch; [regular_call | intros t; regular_emit | auto]. }
  eapply safe_bind with (Mid := configured); [| intros _ | auto].
  { unfold _initModules. apply safe_bind_get. intros o3 (_ & Hb & Hs).
    apply regular_safe_call. simpl. auto. }
  regular_next. regular_next.
  apply safe_bind_get. intros o4 Ho4.
  regular_next.
  apply safe_bind_get. intros o5 (Hr5 & _).
  rewrite Hr5, round_falsy.
  eapply safe_bind; [apply regular_subscribeToEvents | intros _ | auto].
  eapply safe_bind; [apply regular_startLoader | intros _ | auto].
  eapply safe_bind with (Mid := configured); [| intros _ | auto].
  { unfold _calculateConsensus. regular_call. }
  eapply safe_bind; [apply regular_startForging | intros _ | auto].
  regular_next. regular_call.
Qed.

End Regular.

(** A regular start leaves [broadcasts.active] and [syncing.active] as
    configured and constructs the modules with the configured flags,
    whichever collaborators fail. *)
Theorem regular_start_keeps_flags (fails : BootCall -> option Thrown)
    (requiredGenesisBlock : JsVal) (logger_given same_log_file : bool) (opts : Options) :
  truthy (rebuildUpToRound opts) = false ->
  let run := bootstrap fails requiredGenesisBlock logger_given same_log_file opts in
  broadcasts_active (state_of run) = broadcasts_active opts /\
  syncing_active (state_of run) = syncing_active opts /\
  forall b s, In (InitModules b s) (trace_of run) ->
    b = broadcasts_active opts /\ s = syncing_active opts.
Proof.
  intros Hround run.
  destruct (regular_bootstrap fails requiredGenesisBlock logger_given same_log_file
              (rebuildUpToRound opts) (broadcasts_active opts) (syncing_active opts)
              Hround opts) as [Hcalls (_ & Hb & Hs)].
  { repeat split. }
  fold run in Hcalls, Hb, Hs. split; [exact Hb|]. split; [exact Hs|].
  intros b s Hin. rewrite List.Forall_forall in Hcalls. apply (Hcalls _ Hin).
Qed.

Lemma regular_start_keeps_flags_witness :
  broadcasts_active
    (state_of (bootstrap no_failure (JStr "genesis") true false regular_options))
  = broadcasts_active regular_options /\
  syncing_active
    (state_of (bootstrap no_failure (JStr "genesis") true false regular_options))
  = syncing_active regular_options.
Proof.
  destruct (regular_start_keeps_flags no_failure (JStr "genesis") true false
              regular_options eq_refl) as (Hb & Hs & _).
  split; assumption.
Defined.

(** The periodic sync job is registered only by a regular start with
    [syncing.active] set. *)
Theorem nextSync_needs_syncing_active (fails : BootCall -> option Thrown)
    (requiredGenesisBlock : JsVal) (logger_given same_log_file : bool) (opts : Options) :
  In (RegisterJob "nextSync")
     (trace_of (bootstrap fails requiredGenesisBlock logger_given same_log_file opts)) ->
  truthy (rebuildUpToRound opts) = false /\ syncing_active opts = true.
Proof.
  intros Hin. destruct (truthy (rebuildUpToRound opts)) eqn:Hround.
  - destruct (ChainSpec.safe_bootstrap fails requiredGenesisBlock logger_given
                same_log_file (rebuildUpToRound opts) Hround opts eq_refl) as [Hcalls _].
    rewrite List.Forall_forall in Hcalls. destruct (Hcalls _ Hin) as [Hnet _].
    discriminate Hnet.
  - destruct (regular_bootstrap fails requiredGenesisBlock logger_given same_log_file
                (rebuildUpToRound opts) (broadcasts_active opts) (syncing_active opts)
                Hround opts) as [Hcalls _].
    { repeat split. }
    rewrite List.Forall_forall in Hcalls. split; [reflexivity|].
    apply (Hcalls _ Hin). reflexivity.
Qed.

Lemma nextSync_needs_syncing_active_witness :
  truthy (rebuildUpToRound regular_options) = false /\
  syncing_active regular_options = true.
Proof.
  apply (nextSync_needs_syncing_active no_failure (JStr "genesis") true false).
  vm_compute. tauto.
Defined.

(** The cleanup signal without an error is the mark of a rebuild: a
    regular start emits the cleanup signal only with the error that
    stopped it. *)
Theorem clean_exit_only_after_rebuild (fails : BootCall -> option Thrown)
    (requiredGenesisBlock : JsVal) (logger_given same_log_file : bool) (opts : Options) :
  In (ProcessEmitCleanup None)
     (trace_of (bootstrap fails requiredGenesisBlock logger_given same_log_file opts)) ->
  truthy (rebuildUpToRound opts) = true.
Proof.
  intros Hin. destruct (truthy (rebuildUpToRound opts)) eqn:Hround; [reflexivity|].
  destruct (regular_bootstrap fails requiredGenesisBlock logger_given same_log_file
              (rebuildUpToRound opts) (broadcasts_active opts) (syncing_active opts)
              Hround opts) as [Hcalls _].
  { repeat split. }
  rewrite List.Forall_forall in Hcalls. specialize (Hcalls _ Hin). simpl in Hcalls.
  congruence.
Qed.

Lemma clean_exit_only_after_rebuild_witness :
  truthy (rebuildUpToRound rebuild_options) = true.
Proof.
  apply (clean_exit_only_after_rebuild no_failure (JStr "genesis") true false).
  vm_compute. tauto.
Defined.

(** ** The order of the calls *)

Section History.

Context {E S : Type}.

Lemma hsafe_ret {A} (Pre Qn Qe : list E -> Prop) (a : A) :
  (forall h, Pre h -> Qn h) -> hsafe (S := S) Pre (ret a) Qn Qe.
Proof. intros H h s Hh. simpl. rewrite app_nil_r. auto. Qed.

Lemma hsafe_throw {A} (Pre Qn Qe : list E -> Prop) (t : Thrown) :
  (forall h, Pre h -> Qe h) -> hsafe (S := S) Pre (throw (A := A) t) Qn Qe.
Proof. intros H h s Hh. simpl. rewrite app_nil_r. auto. Qed.

Lemma hsafe_emit (Pre Qn Qe : list E -> Prop) (e : E) :
  (forall h, Pre h -> Qn (h ++ [e])) -> hsafe (S := S) Pre (emit e) Qn Qe.
Proof. intros H h s Hh. simpl. auto. Qed.

Lemma hsafe_put (Pre Qn Qe : list E -> Prop) (s' : S) :
  (forall h, Pre h -> Qn h) -> hsafe Pre (put s') Qn Qe.
Proof. intros H h s Hh. simpl. rewrite app_nil_r. auto. Qed.

Lemma hsafe_bind {A B} (Pre Mid Qn Qe : list E -> Prop) (m : M E S A)
    (k : A -> M E S B) :
  hsafe Pre m Mid Qe ->
  (forall a, hsafe Mid (k a) Qn Qe) ->
  hsafe Pre (bind m k) Qn Qe.
Proof.
  intros Hm Hk h s Hh. specialize (Hm h s Hh).
  unfold bind, result_of, trace_of in *.
  destruct (m s) as [[[a|t] s1] tr1]; simpl in *; [|exact Hm].
  specialize (Hk a _ s1 Hm). unfold result_of, trace_of in Hk.
  destruct (k a s1) as [[r s2] tr2]; simpl in *. rewrite app_assoc. exact Hk.
Qed.

Lemma hsafe_bind_get {B} (Pre Qn Qe : list E -> Prop) (k : S -> M E S B) :
  (forall o, hsafe Pre (k o) Qn Qe) -> hsafe Pre (bind get k) Qn Qe.
Proof.
  intros Hk h s Hh. specialize (Hk s h s Hh).
  unfold bind, get, result_of, trace_of in *.
  destruct (k s s) as [[r s2] tr2]; simpl in *. exact Hk.
Qed.

Lemma hsafe_try_catch {A} (Pre Mid Qn Qe : list E -> Prop) (m : M E S A)
    (handler : Thrown -> M E S A) :
  hsafe Pre m Qn Mid ->
  (forall t, hsafe Mid (handler t) Qn Qe) ->
  hsafe Pre (try_catch m handler) Qn Qe.
Proof.
  intros Hm Hh h s Hpre. specialize (Hm h s Hpre).
  unfold try_catch, result_of, trace_of in *.
  destruct (m s) as [[[a|t] s1] tr1]; simpl in *; [exact Hm|].
  specialize (Hh t _ s1 Hm). unfold result_of, trace_of in Hh.
  destruct (handler t s1) as [[r s2] tr2]; simpl in *. rewrite app_assoc. exact Hh.
Qed.

Lemma hsafe_weaken {A} (Pre Qn Qn' Qe Qe' : list E -> Prop) (m : M E S A) :
  (forall h, Qn h -> Qn' h) -> (forall h, Qe h -> Qe' h) ->
  hsafe Pre m Qn Qe -> hsafe Pre m Qn' Qe'.
Proof.
  intros Hn He Hm h s Hh. specialize (Hm h s Hh).
  destruct (result_of (m s)); auto.
Qed.

End History.

Lemma snoc_split {A} (h before after : list A) (c x : A) :
  h ++ [c] = before ++ x :: after ->
  (after = [] /\ before = h /\ x = c) \/
  (exists after', after = after' ++ [c] /\ h = before ++ x :: after').
Proof.
  destruct after as [|z l _] using rev_ind; intros H.
  - apply app_inj_tail in H as [-> ->]. auto.
  - rewrite app_comm_cons, app_assoc in H. apply app_inj_tail in H as [-> ->].
    right. exists l. auto.
Qed.

Lemma quiet_snoc (h : list BootCall) (c : BootCall) :
  quiet h -> network_facing c = false -> quiet (h ++ [c]).
Proof. intros Hh Hc. apply Forall_app. split; [exact Hh | repeat constructor; exact Hc]. Qed.

Lemma quiet_loaded_first (h : list BootCall) : quiet h -> loaded_first h.
Proof.
  intros Hh before c after -> Hc. unfold quiet in Hh.
  apply Forall_app in Hh as [_ Hh]. inversion Hh; subst. congruence.
Qed.

Lemma loaded_first_snoc_quiet (h : list BootCall) (c : BootCall) :
  loaded_first h -> network_facing c = false -> loaded_first (h ++ [c]).
Proof.
  intros Hh Hc before x after Heq Hx.
  destruct (snoc_split _ _ _ _ _ Heq) as [(_ & _ & ->) | (after' & _ & ->)];
    [congruence|].
  apply (Hh before x after' eq_refl Hx).
Qed.

Lemma loaded_snoc (h : list BootCall) (c : BootCall) : loaded h -> loaded (h ++ [c]).
Proof.
  intros [Hfirst [round Hround]]. split.
  - intros before x after Heq Hx.
    destruct (snoc_split _ _ _ _ _ Heq) as [(_ & -> & _) | (after' & _ & ->)].
    + exists round. exact Hround.
    + apply (Hfirst before x after' eq_refl Hx).
  - exists round. apply in_or_app. left. exact Hround.
Qed.

Lemma quiet_load (h : list BootCall) (round : JsVal) :
  quiet h -> loaded (h ++ [LoadBlockChain round]).
Proof.
  intros Hh. split.
  - apply loaded_first_snoc_quiet; [apply quiet_loaded_first; exact Hh | reflexivity].
  - exists round. apply in_or_app. right. left. reflexivity.
Qed.

Lemma running_snoc (h : list BootCall) (c : BootCall) :
  running h -> is_cleanup c = false -> running (h ++ [c]).
Proof. intros Hh Hc. apply Forall_app. split; [exact Hh | repeat constructor; exact Hc]. Qed.

Section Order.

Variable fails : BootCall -> option Thrown.
Variable requiredGenesisBlock : JsVal.
Variables logger_given same_log_file : bool.

Lemma hsafe_call (Pre Qn Qe : list BootCall -> Prop) (c : BootCall) :
  (forall h, Pre h -> Qn (h ++ [c])) ->
  (forall h, Pre h -> Qe (h ++ [c])) ->
  hsafe (S := Options) Pre (call fails c) Qn Qe.
Proof.
  intros Hn He h s Hh. rewrite call_run. unfold result_of, trace_of. simpl.
  destruct (fails c); auto.
Qed.

(** Before the chain is loaded. *)
Lemma before_load_call (c : BootCall) :
  network_facing c = false -> hsafe (S := Options) quiet (call fails c) quiet loaded_first.
Proof.
  intros Hc. apply hsafe_call; intros h Hh.
  - apply quiet_snoc; assumption.
  - apply quiet_loaded_first, quiet_snoc; assumption.
Qed.

Lemma before_load_emit (c : BootCall) :
  network_facing c = false -> hsafe (S := Options) quiet (emit c) quiet loaded_first.
Proof. intros Hc. apply hsafe_emit. intros h Hh. apply quiet_snoc; assumption. Qed.

(** After the chain is loaded. *)
Lemma after_load_call (c : BootCall) :
  hsafe (S := Options) loaded (call fails c) loaded loaded_first.
Proof.
  apply hsafe_call; intros h Hh; [apply loaded_snoc | apply loaded_snoc]; exact Hh.
Qed.

Lemma after_load_emit (c : BootCall) :
  hsafe (S := Options) loaded (emit c) loaded loaded_first.
Proof. apply hsafe_emit. intros h Hh. apply loaded_snoc. exact Hh. Qed.

Ltac before_load :=
  eapply hsafe_bind with (Mid := quiet);
  [first [apply before_load_call; reflexivity | apply before_load_emit; reflexivity]
  | intros _].
Ltac after_load :=
  eapply hsafe_bind with (Mid := loaded);
  [first [apply after_load_call | apply after_load_emit] | intros _].

Lemma loaded_is_loaded_first (h : list BootCall) : loaded h -> loaded_first h.
Proof. intros [H _]. exact H. Qed.

Lemma after_load_network :
  hsafe (S := Options) loaded
    (_subscribeToEvents fails ;;;
     _startLoader fails ;;;
     _calculateConsensus fails ;;;
     _startForging fails ;;;
     call fails (SubscribeNetwork "postTransactions") ;;;
     call fails (SubscribeNetwork "postBlock"))
    loaded loaded_first.
Proof.
  eapply hsafe_bind with (Mid := loaded); [| intros _].
  { unfold _subscribeToEvents. after_load. after_load. after_load. after_load.
    after_load. apply after_load_call. }
  eapply hsafe_bind with (Mid := loaded); [| intros _].
  { unfold _startLoader. after_load. apply hsafe_bind_get. intros o.
    destruct (negb (syncing_active o)); [apply hsafe_ret; auto | apply after_load_call]. }
  eapply hsafe_bind with (Mid := loaded); [| intros _].
  { unfold _calculateConsensus. apply after_load_call. }
  eapply hsafe_bind with (Mid := loaded); [| intros _].
  { unfold _startForging. eapply hsafe_bind with (Mid := loaded); [| intros _].
    - eapply hsafe_try_catch with (Mid := loaded).
      + apply hsafe_call; intros h Hh; apply loaded_snoc; exact Hh.
      + intros t. apply after_load_emit.
    - apply after_load_call. }
  after_load. apply after_load_call.
Qed.

Lemma bootstrap_loads_first :
  hsafe quiet (bootstrap fails requiredGenesisBlock logger_given same_log_file)
    loaded_first loaded_first.
Proof.
  unfold bootstrap.
  apply hsafe_weaken with (Qn := loaded_first) (Qe := loaded_first); auto.
  before_load.
  apply hsafe_bind_get. intros o.
  eapply hsafe_bind with (Mid := quiet); [apply hsafe_put; auto | intros _].
  before_load. before_load. before_load. before_load.
  eapply hsafe_bind with (Mid := quiet); [| intros _].
  { destruct logger_given; [apply before_load_call; reflexivity | before_load].
    destruct same_log_file;
      [apply hsafe_ret; auto | apply before_load_call; reflexivity]. }
  apply hsafe_bind_get. intros o1.
  eapply hsafe_bind with (Mid := quiet); [| intros _].
  { destruct (truthy (rebuildUpToRound o1)); [apply hsafe_put | apply hsafe_ret]; auto. }
  eapply hsafe_try_catch with (Mid := loaded_first).
  2:{ intros t. eapply hsafe_bind with (Mid := loaded_first); [| intros _];
        apply hsafe_emit; intros h Hh; apply loaded_first_snoc_quiet; auto. }
  apply hsafe_weaken with (Qn := loaded) (Qe := loaded_first);
    [apply loaded_is_loaded_first | auto |].
  apply hsafe_bind_get. intros o2.
  eapply hsafe_bind with (Mid := quiet); [| intros _].
  { destruct (negb (truthy (genesisBlock o2)));
      [apply hsafe_throw; apply quiet_loaded_first | apply hsafe_ret; auto]. }
  before_load. before_load. before_load. before_load. before_load. before_load.
  before_load.
  eapply hsafe_bind with (Mid := quiet); [| intros _].
  { eapply hsafe_try_catch with (Mid := quiet).
    - apply hsafe_call; intros h Hh; apply quiet_snoc; auto.
    - intros t. apply before_load_emit. reflexivity. }
  eapply hsafe_bind with (Mid := quiet); [| intros _].
  { unfold _initModules. apply hsafe_bind_get. intros o3.
    apply before_load_call. reflexivity. }
  before_load. before_load.
  apply hsafe_bind_get. intros o4.
  eapply hsafe_bind with (Mid := loaded); [| intros _].
  { apply hsafe_call; intros h Hh.
    - apply quiet_load. exact Hh.
    - apply quiet_loaded_first, quiet_snoc; auto. }
  apply hsafe_bind_get. intros o5.
  destruct (truthy (rebuildUpToRound o5)); [apply after_load_emit|].
  apply after_load_network.
Qed.

Lemma running_call (c : BootCall) :
  is_cleanup c = false -> hsafe (S := Options) running (call fails c) running running.
Proof. intros Hc. apply hsafe_call; intros h Hh; apply running_snoc; assumption. Qed.

Lemma running_emit (c : BootCall) :
  is_cleanup c = false -> hsafe (S := Options) running (emit c) running running.
Proof. intros Hc. apply hsafe_emit. intros h Hh. apply running_snoc; assumption. Qed.

Ltac keeps_running :=
  eapply hsafe_bind with (Mid := running);
  [first [apply running_call; reflexivity | apply running_emit; reflexivity]
  | intros _].

Lemma running_network :
  hsafe (S := Options) running
    (_subscribeToEvents fails ;;;
     _startLoader fails ;;;
     _calculateConsensus fails ;;;
     _startForging fails ;;;
     call fails (SubscribeNetwork "postTransactions") ;;;
     call fails (SubscribeNetwork "postBlock"))
    running running.
Proof.
  eapply hsafe_bind with (Mid := running); [| intros _].
  { unfold _subscribeToEvents. keeps_running. keeps_running. keeps_running.
    keeps_running. keeps_running. apply running_call. reflexivity. }
  eapply hsafe_bind with (Mid := running); [| intros _].
  { unfold _startLoader. keeps_running. apply hsafe_bind_get. intros o.
    destruct (negb (syncing_active o));
      [apply hsafe_ret; auto | apply running_call; reflexivity]. }
  eapply hsafe_bind with (Mid := running); [| intros _].
  { unfold _calculateConsensus. apply running_call. reflexivity. }
  eapply hsafe_bind with (Mid := running); [| intros _].
  { unfold _startForging. eapply hsafe_bind with (Mid := running); [| intros _].
    - eapply hsafe_try_catch with (Mid := running).
      + apply running_call. reflexivity.
      + intros t. apply running_emit. reflexivity.
    - apply running_call. reflexivity. }
  keeps_running. apply running_call. reflexivity.
Qed.

Lemma bootstrap_cleans_up_last :
  hsafe running (bootstrap fails requiredGenesisBlock logger_given same_log_file)
    over over.
Proof.
  unfold bootstrap.
  apply hsafe_weaken with (Qn := over) (Qe := running); [auto | left; auto |].
  keeps_running.
  apply hsafe_bind_get. intros o.
  eapply hsafe_bind with (Mid := running); [apply hsafe_put; auto | intros _].
  keeps_running. keeps_running. keeps_running. keeps_running.
  eapply hsafe_bind with (Mid := running); [| intros _].
  { destruct logger_given; [apply running_call; reflexivity | keeps_running].
    destruct same_log_file; [apply hsafe_ret; auto | apply running_call; reflexivity]. }
  apply hsafe_bind_get. intros o1.
  eapply hsafe_bind with (Mid := running); [| intros _].
  { destruct (truthy (rebuildUpToRound o1)); [apply hsafe_put | apply hsafe_ret]; auto. }
  eapply hsafe_try_catch with (Mid := running).
  2:{ intros t. eapply hsafe_bind with (Mid := running); [| intros _].
      - apply running_emit. reflexivity.
      - apply hsafe_emit. intros h Hh. right. exists h, (Some t). auto. }
  apply hsafe_bind_get. intros o2.
  eapply hsafe_bind with (Mid := running); [| intros _].
  { destruct (negb (truthy (genesisBlock o2)));
      [apply hsafe_throw; auto | apply hsafe_ret; auto]. }
  keeps_running. keeps_running. keeps_running. keeps_running. keeps_running.
  keeps_running. keeps_running.
  eapply hsafe_bind with (Mid := running); [| intros _].
  { eapply hsafe_try_catch with (Mid := running).
    - apply running_call. reflexivity.
    - intros t. apply running_emit. reflexivity. }
  eapply hsafe_bind with (Mid := running); [| intros _].
  { unfold _initModules. apply hsafe_bind_get. intros o3.
    apply running_call. reflexivity. }
  keeps_running. keeps_running.
  apply hsafe_bind_get. intros o4.
  keeps_running.
  apply hsafe_bind_get. intros o5.
  destruct (truthy (rebuildUpToRound o5)).
  - apply hsafe_emit. intros h Hh. right. exists h, None. auto.
  - apply hsafe_weaken with (Qn := running) (Qe := running); [left; auto | auto |].
    apply running_network.
Qed.

End Order.

(** Whichever collaborators fail, [bootstrap] subscribes to block, pool
    and network events, starts the loader, registers jobs and loads the
    forging delegates only after it has called [loadBlockChain]. *)
Theorem network_only_after_load (fails : BootCall -> option Thrown)
    (requiredGenesisBlock : JsVal) (logger_given same_log_file : bool) (opts : Options)
    (before after : list BootCall) (c : BootCall) :
  trace_of (bootstrap fails requiredGenesisBlock logger_given same_log_file opts)
  = before ++ c :: after ->
  network_facing c = true ->
  exists round, In (LoadBlockChain round) before.
Proof.
  pose proof (bootstrap_loads_first fails requiredGenesisBlock logger_given
                same_log_file [] opts) as H.
  assert (Hq : quiet []) by constructor. specialize (H Hq). simpl in H.
  assert (Hfirst : loaded_first
    (trace_of (bootstrap fails requiredGenesisBlock logger_given same_log_file opts))).
  { destruct (result_of _); exact H. }
  intros Heq Hc. exact (Hfirst before c after Heq Hc).
Qed.

Lemma network_only_after_load_witness :
  exists round,
    In (LoadBlockChain round)
       (firstn 18 (trace_of (bootstrap no_failure (JStr "genesis") true false
                               regular_options))).
Proof.
  eapply (network_only_after_load no_failure (JStr "genesis") true false regular_options
            _ (skipn 19 (trace_of (bootstrap no_failure (JStr "genesis") true false
                                     regular_options)))
            (BlocksOn "EVENT_BROADCAST_BLOCK")).
  - vm_compute. reflexivity.
  - reflexivity.
Defined.

(** The cleanup signal ends the run: whichever collaborators fail,
    [bootstrap] emits it at most once, and makes no call after it. *)
Theorem cleanup_signal_is_last (fails : BootCall -> option Thrown)
    (requiredGenesisBlock : JsVal) (logger_given same_log_file : bool) (opts : Options)
    (before after : list BootCall) (error : option Thrown) :
  trace_of (bootstrap fails requiredGenesisBlock logger_given same_log_file opts)
  = before ++ ProcessEmitCleanup error :: after ->
  after = [] /\ running before.
Proof.
  pose proof (bootstrap_cleans_up_last fails requiredGenesisBlock logger_given
                same_log_file [] opts) as H.
  assert (Hr : running []) by constructor. specialize (H Hr). simpl in H.
  assert (Hover : over
    (trace_of (bootstrap fails requiredGenesisBlock logger_given same_log_file opts))).
  { destruct (result_of _); exact H. }
  intros Heq. rewrite Heq in Hover. destruct Hover as [Hrun | (pre & e & Hpre & Hrun)].
  - unfold running in Hrun. apply Forall_app in Hrun as [_ Hrun].
    inversion Hrun; subst. discriminate.
  - destruct (snoc_split _ _ _ _ _ (eq_sym Hpre)) as [(-> & -> & _) | (l & -> & ->)].
    + auto.
    + unfold running in Hrun. apply Forall_app in Hrun as [_ Hrun].
      inversion Hrun; subst. discriminate.
Qed.

Lemma cleanup_signal_is_last_witness :
  running (rebuild_prelude true false ++ [LoadBlockChain (JNum 5)]).
Proof.
  eapply (cleanup_signal_is_last no_failure (JStr "genesis") true false rebuild_options
            _ [] None).
  vm_compute. reflexivity.
Defined.

End BootstrapProps.

(* ===================================================================== *)
(** * Properties of transport: serving blocks and announcing *)
(* ===================================================================== *)

Module ServingProps.
Import Js JsLaws TransportServing.
Local Open Scope js_scope.

Section Blocks.

Variable loadBlocksDataWS : Z -> string -> Completion (list BlockData).
Variable toString_utf8 : list Byte.byte -> Completion string.

Local Abbreviation convert := (convert_tf_data toString_utf8).
Local Abbreviation each' := (each toString_utf8).
Local Abbreviation blocks' := (blocks loadBlocksDataWS toString_utf8).
Local Abbreviation converted' := (converted toString_utf8).

Lemma convert_tf_data_total (block : BlockData) :
  exists block' tr,
    convert block tt = (Normal block', tt, tr) /\ converted' block block'.
Proof.
  unfold convert_tf_data, converted. destruct block as [i h [|b|s]]; simpl.
  - eexists _, _. split; [reflexivity|]. auto.
  - unfold try_catch, bind, lift, emit, ret. destruct (toString_utf8 b) as [s|t]; simpl;
      eexists _, _; (split; [reflexivity|]); auto.
  - eexists _, _. split; [reflexivity|]. auto.
Qed.

Lemma each_total (data : list BlockData) :
  exists data' tr,
    each' data tt = (Normal data', tt, tr) /\ Forall2 converted' data data'.
Proof.
  induction data as [|block rest (rest' & tr2 & Hrest & Hall)]; simpl.
  - eexists _, _. split; [reflexivity | constructor].
  - destruct (convert_tf_data_total block) as (block' & tr1 & Hblock & Hconv).
    exists (block' :: rest'), (tr1 ++ tr2 ++ []).
    split; [|constructor; assumption].
    unfold bind at 1. rewrite Hblock. unfold bind at 1. rewrite Hrest. reflexivity.
Qed.

(** [blocks] never throws. A missing or empty [lastBlockId] is answered
    with the failure value "Invalid lastBlockId requested" without any
    call; a failure of the blocks module is answered with an empty list
    of blocks and the error. *)
Theorem blocks_never_throws (query : option BlocksQuery) :
  exists result tr,
    blocks' query tt = (Normal result, tt, tr) /\
    match query with
    | Some (mkBlocksQuery (Some lastId)) =>
        if String.eqb lastId "" then
          tr = [] /\ success_of result = false /\ blocks_of result = None
        else
          match loadBlocksDataWS 34 lastId with
          | Normal _ => success_of result = true
          | Throw t =>
              result = mkBlocksResult (Some []) (Some (MessageError t)) false /\
              tr = [LoadBlocksDataWS 34 lastId]
          end
    | _ => tr = [] /\ success_of result = false /\ blocks_of result = None
    end.
Proof.
  unfold blocks. destruct query as [[[lastId|]]|]; cbn [lastBlockId];
    try (eexists _, _; split; [reflexivity | auto]).
  destruct (String.eqb lastId ""); [eexists _, _; split; [reflexivity | auto]|].
  unfold try_catch. unfold bind at 1. unfold emit at 1. unfold bind at 1. unfold lift.
  destruct (loadBlocksDataWS 34 lastId) as [data|t].
  - destruct (each_total data) as (data' & tr & Heach & _).
    unfold bind. rewrite Heach. eexists _, _. split; reflexivity.
  - eexists _, _. split; [reflexivity | auto].
Qed.

(** A served request asks the blocks module for 34 blocks after
    [lastBlockId] and returns the rows it got, in order, with each
    [tf_data] buffer turned into text (or left as it is when the
    conversion throws). *)
Theorem blocks_serves (lastId : string) (data : list BlockData) :
  lastId <> "" ->
  loadBlocksDataWS 34 lastId = Normal data ->
  exists data' tr,
    blocks' (Some (mkBlocksQuery (Some lastId))) tt
    = (Normal (mkBlocksResult (Some data') None true), tt,
       LoadBlocksDataWS 34 lastId :: tr) /\
    Forall2 converted' data data'.
Proof.
  intros Hne Hload. unfold blocks. cbn [lastBlockId].
  apply String.eqb_neq in Hne. rewrite Hne.
  destruct (each_total data) as (data' & tr & Heach & Hall).
  exists data', (tr ++ []). split; [|exact Hall].
  unfold try_catch, bind, emit, lift. rewrite Hload. cbv beta iota. rewrite Heach.
  reflexivity.
Qed.

End Blocks.

Lemma blocks_never_throws_witness :
  exists result tr,
    blocks sample_load sample_toString (Some (mkBlocksQuery (Some "404"))) tt
    = (Normal result, tt, tr) /\
    result
    = mkBlocksResult (Some []) (Some (MessageError (ThrownError (Error "Blocks#list error"))))
        false.
Proof.
  destruct (blocks_never_throws sample_load sample_toString
              (Some (mkBlocksQuery (Some "404")))) as (result & tr & Hrun & Hres & _).
  exists result, tr. split; [exact Hrun | exact Hres].
Defined.

Lemma blocks_serves_witness :
  exists data' tr,
    blocks sample_load sample_toString (Some (mkBlocksQuery (Some "4"))) tt
    = (Normal (mkBlocksResult (Some data') None true), tt, LoadBlocksDataWS 34 "4" :: tr) /\
    List.map tf_data data' = [TfText "rent"; TfNull].
Proof.
  destruct (blocks_serves sample_load sample_toString "4"
              [mkBlockData "5" 5 (TfBuffer (list_byte_of_string "rent"));
               mkBlockData "6" 6 TfNull])
    as (data' & tr & Hrun & Hall).
  - discriminate.
  - reflexivity.
  - exists data', tr. split; [exact Hrun|].
    inversion Hall as [|? ? ? ? (_ & _ & Ha) Hrest]; subst.
    inversion Hrest as [|? ? ? ? (_ & _ & Hb) Hnil]; subst.
    inversion Hnil; subst. simpl in *. rewrite Ha, Hb. reflexivity.
Defined.

Section Announce.

Variable Transaction : Type.
Variable toJSON : Transaction -> Transport.TransactionJSON.
Variable big_toString : Z -> string.

(** [onBroadcastBlock] calls the broadcaster exactly when the broadcast
    flag is set and the loader is not syncing. The block it then sends,
    once, to the [postBlock] endpoint of the module, with the broadhash
    of the node, carries each total of the block as the string of that
    total (a total that is missing, or already a string, is passed as it
    is) and the transactions of the block as JSON, in order. *)
Theorem onBroadcastBlock_guard (moduleAlias : string) (syncing : bool)
    (broadhash : option string) (block : BroadcastBlock Transaction) (broadcast : bool) :
  let run := onBroadcastBlock Transaction toJSON big_toString moduleAlias syncing
               broadhash block broadcast tt in
  let sent_as (total sent : Amount) :=
    match total with
    | AmountBig z => sent = AmountString (big_toString z)
    | AmountString s => sent = AmountString s
    | AmountUndefined => sent = AmountUndefined
    end in
  if broadcast && negb syncing then
    result_of run = Normal (Some tt) /\
    exists sent,
      broadcasts_of (trace_of run) = [(broadhash, (moduleAlias ++ ":postBlock")%string, sent)] /\
      TransportServing.block_id sent = TransportServing.block_id block /\
      sent_as (totalAmount block) (totalAmount sent) /\
      sent_as (totalFee block) (totalFee sent) /\
      sent_as (reward block) (reward sent) /\
      block_transactions sent = option_map (List.map toJSON) (block_transactions block)
  else
    result_of run = Normal None /\ broadcasts_of (trace_of run) = [].
Proof.
  cbv zeta. unfold onBroadcastBlock.
  destruct broadcast, syncing; simpl; try (split; reflexivity).
  split; [reflexivity|]. eexists. split; [reflexivity|]. simpl.
  destruct (totalAmount block), (totalFee block), (reward block); repeat split.
Qed.

End Announce.

End ServingProps.

(* ===================================================================== *)
(** * Properties of chain: event handlers, listeners and cleanup *)
(* ===================================================================== *)

Module EventsProps.
Import Js JsLaws Chain ChainEvents.
Local Open Scope js_scope.

(** The listener of the delete event reverses the transactions of the
    block object itself: the pool is given the transactions in reverse
    block order, and the block that is published afterwards (and that
    the emitter and later listeners hold) carries them reversed as well.
    A block without transactions is only logged and published. *)
Theorem on_delete_block_reverses_in_place (T : Type) (moduleAlias : string)
    (block : Block T) :
  let run := on_delete_block T moduleAlias block in
  let reversed :=
    mkBlock (ChainEvents.block_id block) (block_height block)
      (List.rev (transactions block)) in
  result_of run = Normal tt /\
  state_of run = reversed /\
  trace_of run
  = (match transactions block with
     | [] => []
     | _ :: _ =>
         [OnDeletedTransactions (List.rev (transactions block));
          Publish (moduleAlias ++ ":transactions:confirmed:change")%string
            (PayloadTransactions (List.rev (transactions block)))]
     end)
    ++ [LogInfo "Deleted a block from the leasehold chain";
        Publish (moduleAlias ++ ":blocks:change")%string (PayloadBlock reversed)].
Proof.
  cbv zeta. unfold on_delete_block. destruct block as [i h [|tx txs]].
  - repeat split.
  - unfold bind, get, put, emit, ret, result_of, state_of, trace_of.
    assert (Hlen : (len (tx :: txs) =? 0) = false).
    { unfold len. simpl length. rewrite Nat2Z.inj_succ. apply Z.eqb_neq. lia. }
    cbn [transactions]. rewrite Hlen. repeat split.
Qed.

(** The listener of the new-block event leaves the block as it is and
    gives the pool the transactions in block order. *)
Theorem on_new_block_keeps_block (T : Type) (moduleAlias : string) (block : Block T) :
  let run := on_new_block T moduleAlias block in
  result_of run = Normal tt /\
  state_of run = block /\
  trace_of run
  = (match transactions block with
     | [] => []
     | _ :: _ =>
         [OnConfirmedTransactions (transactions block);
          Publish (moduleAlias ++ ":transactions:confirmed:change")%string
            (PayloadTransactions (transactions block))]
     end)
    ++ [LogInfo "New block added to the leasehold chain";
        Publish (moduleAlias ++ ":blocks:change")%string (PayloadBlock block)].
Proof.
  cbv zeta. unfold on_new_block. destruct block as [i h [|tx txs]].
  - repeat split.
  - unfold bind, get, put, emit, ret, result_of, state_of, trace_of.
    assert (Hlen : (len (tx :: txs) =? 0) = false).
    { unfold len. simpl length. rewrite Nat2Z.inj_succ. apply Z.eqb_neq. lia. }
    cbn [transactions]. rewrite Hlen. repeat split.
Qed.

(** ** Listeners *)

Lemma subscribed_blocks (e : Emitters) :
  blocks_listeners (subscribed e)
  = add_listener "EVENT_NEW_BROADHASH"
      (add_listener "EVENT_NEW_BLOCK"
         (add_listener "EVENT_DELETE_BLOCK"
            (add_listener "EVENT_BROADCAST_BLOCK" (blocks_listeners e)))).
Proof. reflexivity. Qed.

Lemma subscribed_pool (e : Emitters) :
  pool_listeners (subscribed e)
  = add_listener "EVENT_UNCONFIRMED_TRANSACTION" (pool_listeners e).
Proof. reflexivity. Qed.

Lemma unsubscribed_blocks (e : Emitters) (event : string) :
  In event ("EVENT_UNCONFIRMED_TRANSACTION" :: block_events) ->
  blocks_listeners (_unsubscribeToEvents e) !! event = None.
Proof.
  unfold _unsubscribeToEvents, removeAllListeners, block_events. simpl.
  intros [<- | [<- | [<- | [<- | [<- | []]]]]];
    repeat first [apply lookup_delete_eq | rewrite lookup_delete_ne by discriminate].
Qed.

Lemma cycle_pool (e : Emitters) :
  pool_listeners (cycle e) !! "EVENT_UNCONFIRMED_TRANSACTION"
  = Some (S (default 0%nat (pool_listeners e !! "EVENT_UNCONFIRMED_TRANSACTION"))).
Proof.
  unfold cycle. unfold _unsubscribeToEvents. cbn [pool_listeners].
  rewrite subscribed_pool. unfold add_listener. apply lookup_insert_eq.
Qed.

(** [_unsubscribeToEvents] removes every listener that
    [_subscribeToEvents] registered on the blocks module, but not the
    listener that it registered on the transaction pool: after any number
    of subscriptions each followed by an unsubscription the blocks module
    has no listener for the block events, and the pool has one listener
    of unconfirmed transactions more per round. *)
Theorem unsubscribe_leaves_pool_listener (e : Emitters) (rounds : nat) :
  (0 < rounds)%nat ->
  let e' := Nat.iter rounds cycle e in
  (forall event, In event block_events -> blocks_listeners e' !! event = None) /\
  pool_listeners e' !! "EVENT_UNCONFIRMED_TRANSACTION"
  = Some (rounds + default 0 (pool_listeners e !! "EVENT_UNCONFIRMED_TRANSACTION"))%nat.
Proof.
  intros Hpos. cbv zeta. destruct rounds as [|n]; [lia|]. clear Hpos.
  split.
  - intros event Hin.
    change (Nat.iter (S n) cycle e)
      with (_unsubscribeToEvents (subscribed (Nat.iter n cycle e))).
    apply unsubscribed_blocks. right. exact Hin.
  - induction n as [|n IH].
    + simpl. apply cycle_pool.
    + change (Nat.iter (S (S n)) cycle e) with (cycle (Nat.iter (S n) cycle e)).
      rewrite cycle_pool, IH. reflexivity.
Qed.

Lemma unsubscribe_leaves_pool_listener_witness :
  blocks_listeners (Nat.iter 3 cycle no_listeners) !! "EVENT_NEW_BLOCK" = None /\
  pool_listeners (Nat.iter 3 cycle no_listeners) !! "EVENT_UNCONFIRMED_TRANSACTION"
  = Some 3%nat.
Proof.
  destruct (unsubscribe_leaves_pool_listener no_listeners 3) as [Hblocks Hpool];
    [lia|].
  split; [apply Hblocks; unfold block_events; simpl; tauto | exact Hpool].
Defined.

(** ** cleanup *)

Section Cleanup.

Variable error_toString : Thrown -> string.
Variable convertErrorsToString : Thrown -> string.

Local Abbreviation cleanup' := (cleanup error_toString convertErrorsToString).

Lemma bind_run {E S A B} (m : M E S A) (k : A -> M E S B) (s s1 s2 : S) (a : A)
    (r : Completion B) (tr1 tr2 : list E) :
  m s = (Normal a, s1, tr1) ->
  k a s1 = (r, s2, tr2) ->
  bind m k s = (r, s2, tr1 ++ tr2).
Proof. intros Hm Hk. unfold bind. rewrite Hm, Hk. reflexivity. Qed.

Lemma cleanup_components_run (cs : list (string * Component)) (this : ChainObject) :
  exists tr,
    cleanup_components cs this = (Normal tt, this, tr) /\
    component_cleanups tr = with_cleanup cs /\ module_cleanups tr = [].
Proof.
  induction cs as [|[key c] rest (tr & Hrest & Hc & Hm)]; simpl.
  - exists []. auto.
  - unfold with_cleanup. simpl.
    destruct (cleanup_of c); unfold bind, emit, ret; cbv beta iota; rewrite Hrest;
      eexists; (split; [reflexivity|]); simpl; rewrite ?app_nil_r;
      fold (with_cleanup rest); rewrite ?Hc; auto.
Qed.

Lemma start_module_cleanups_run (ms : list (string * Component)) (this : ChainObject) :
  exists outcomes tr,
    start_module_cleanups ms this = (Normal outcomes, this, tr) /\
    module_cleanups tr = with_cleanup ms /\ component_cleanups tr = [].
Proof.
  induction ms as [|[key m] rest (outcomes & tr & Hrest & Hm & Hc)]; simpl.
  - exists [], []. auto.
  - unfold with_cleanup. simpl. destruct (cleanup_of m) as [r|]; simpl.
    + unfold bind at 1. unfold bind at 1. unfold emit, ret. cbv beta iota.
      unfold bind. rewrite Hrest. eexists _, _. split; [reflexivity|]. simpl.
      rewrite app_nil_r. simpl. rewrite Hm, Hc. auto.
    + unfold bind, ret. cbv beta iota. rewrite Hrest. cbv beta iota.
      eexists _, _. split; [reflexivity|]. simpl. rewrite app_nil_r. auto.
Qed.

Lemma component_cleanups_app (t1 t2 : list CleanupCall) :
  component_cleanups (t1 ++ t2) = component_cleanups t1 ++ component_cleanups t2.
Proof.
  induction t1 as [|c t1 IH]; [reflexivity|]. destruct c; simpl; rewrite IH; reflexivity.
Qed.

Lemma module_cleanups_app (t1 t2 : list CleanupCall) :
  module_cleanups (t1 ++ t2) = module_cleanups t1 ++ module_cleanups t2.
Proof.
  induction t1 as [|c t1 IH]; [reflexivity|]. destruct c; simpl; rewrite IH; reflexivity.
Qed.

Lemma cleanup_run (this : ChainObject) (error : option Thrown)
    (e : Emitters) (sc : Scope) (cs ms : list (string * Component)) :
  emitters this = Some e ->
  scope this = Some sc ->
  components sc = Some cs ->
  modules sc = Some ms ->
  exists before,
    cleanup' error this
    = (Normal tt, mkChainObject (Some (_unsubscribeToEvents e)) (Some sc),
       before ++ [LogInfoMsg "Cleaned up successfully"]) /\
    component_cleanups before = with_cleanup cs /\
    module_cleanups before = with_cleanup ms.
Proof.
  intros He Hsc Hcs Hms.
  pose (this' := mkChainObject (Some (_unsubscribeToEvents e)) (Some sc)).
  destruct (cleanup_components_run cs this') as (trc & Hrunc & Hcc & Hcm).
  destruct (start_module_cleanups_run ms this') as (outcomes & trm & Hrunm & Hmm & Hmc).
  assert (Hfatal : exists trf,
    (match error with
     | Some err => emit (LogFatal (error_toString err))
     | None => ret tt
     end) this' = (Normal tt, this', trf) /\
    component_cleanups trf = [] /\ module_cleanups trf = []).
  { destruct error; eexists; (split; [reflexivity|]); auto. }
  destruct Hfatal as (trf & Hrunf & Hfc & Hfm).
  assert (Hlog : exists trl,
    (match first_rejection outcomes with
     | Some moduleCleanupError =>
         emit (LogErrorMsg (convertErrorsToString moduleCleanupError))
     | None => ret tt
     end) this' = (Normal tt, this', trl) /\
    component_cleanups trl = [] /\ module_cleanups trl = []).
  { destruct (first_rejection outcomes); eexists; (split; [reflexivity|]); auto. }
  destruct Hlog as (trl & Hrunl & Hlc & Hlm).
  assert (Hrun : cleanup' error this
                 = (Normal tt, this',
                    [] ++ [] ++ trf ++ [LogInfoMsg "Cleaning chain..."] ++ trc ++ trm
                       ++ trl ++ [LogInfoMsg "Cleaned up successfully"])).
  { unfold cleanup.
    eapply bind_run; [reflexivity|]. cbv beta. rewrite He.
    eapply bind_run; [reflexivity|]. cbv beta. rewrite Hsc, Hcs, Hms.
    eapply bind_run; [exact Hrunf|].
    eapply bind_run; [reflexivity|].
    eapply bind_run; [exact Hrunc|].
    eapply bind_run; [exact Hrunm|].
    eapply bind_run; [exact Hrunl|]. reflexivity. }
  exists (trf ++ LogInfoMsg "Cleaning chain..." :: trc ++ trm ++ trl).
  split; [|split].
  - rewrite Hrun. f_equal. simpl. rewrite <- !app_assoc. simpl. rewrite <- !app_assoc.
    reflexivity.
  - rewrite !component_cleanups_app. simpl. rewrite !component_cleanups_app.
    rewrite Hfc, Hcc, Hmc, Hlc. simpl. rewrite ?app_nil_r. reflexivity.
  - rewrite !module_cleanups_app. simpl. rewrite !module_cleanups_app.
    rewrite Hfm, Hcm, Hmm, Hlm. simpl. rewrite ?app_nil_r. reflexivity.
Qed.

(** Once the modules are initialized, [cleanup] always completes: it
    removes the block listeners, starts the cleanup of every component
    and of every module that has one, in key order, whether or not some
    of them fail, and ends by logging "Cleaned up successfully". *)
Theorem cleanup_completes (this : ChainObject) (error : option Thrown)
    (e : Emitters) (sc : Scope) (cs ms : list (string * Component)) :
  emitters this = Some e ->
  scope this = Some sc ->
  components sc = Some cs ->
  modules sc = Some ms ->
  let run := cleanup' error this in
  result_of run = Normal tt /\
  state_of run = mkChainObject (Some (_unsubscribeToEvents e)) (Some sc) /\
  component_cleanups (trace_of run) = with_cleanup cs /\
  module_cleanups (trace_of run) = with_cleanup ms /\
  exists before, trace_of run = before ++ [LogInfoMsg "Cleaned up successfully"].
Proof.
  intros He Hsc Hcs Hms. cbv zeta.
  destruct (cleanup_run this error e sc cs ms He Hsc Hcs Hms) as (before & -> & Hc & Hm).
  unfold result_of, state_of, trace_of. cbn [fst snd].
  rewrite component_cleanups_app, module_cleanups_app, Hc, Hm. simpl.
  rewrite !app_nil_r. repeat split. exists before. reflexivity.
Qed.

(** Before the modules are initialized there is no blocks module to
    unsubscribe from: [cleanup] throws a type error at once, and cleans
    up nothing. *)
Theorem cleanup_before_init_throws (this : ChainObject) (error : option Thrown) :
  emitters this = None ->
  exists message,
    cleanup' error this = (Throw (ThrownError (TypeError message)), this, []).
Proof.
  intros He. unfold cleanup, bind, get, throw. rewrite He. eexists. reflexivity.
Qed.

End Cleanup.

Lemma cleanup_completes_witness :
  module_cleanups
    (trace_of (cleanup (fun _ => "error") (fun _ => "errors") None
                 (mkChainObject (Some no_listeners) (Some sample_scope))))
  = ["blocks"; "loader"; "transport"] /\
  component_cleanups
    (trace_of (cleanup (fun _ => "error") (fun _ => "errors") None
                 (mkChainObject (Some no_listeners) (Some sample_scope))))
  = ["storage"; "cache"].
Proof.
  destruct (cleanup_completes (fun _ => "error") (fun _ => "errors")
              (mkChainObject (Some no_listeners) (Some sample_scope)) None
              no_listeners sample_scope _ _ eq_refl eq_refl eq_refl eq_refl)
    as (_ & _ & Hc & Hm & _).
  split; [exact Hm | exact Hc].
Defined.

Lemma cleanup_before_init_throws_witness :
  exists message,
    cleanup (fun _ => "error") (fun _ => "errors") None (mkChainObject None None)
    = (Throw (ThrownError (TypeError message)), mkChainObject None None, []).
Proof.
  apply (cleanup_before_init_throws (fun _ => "error") (fun _ => "errors")).
  reflexivity.
Defined.

End EventsProps.

(* ===================================================================== *)
(** * Properties of the module wrapper *)
(* ===================================================================== *)

Module ModuleProps.
Import Js Chain BootRuns BootstrapProps LeaseholdChainModule.

Lemma alias_of_truthy (options : option (option string)) : alias_of options <> "".
Proof.
  unfold alias_of. destruct options as [[a|]|]; try discriminate.
  destruct (String.eqb_spec a ""); [discriminate | assumption].
Qed.

(** [load] publishes the bootstrap event of the module, under an alias
    that is never empty, after every bootstrap that returns: also after
    one that failed inside its [try] block and ended with the cleanup
    signal. It publishes nothing when a call of the prelude fails. *)
Theorem load_announces_bootstrap (options : option (option string))
    (fails : BootCall -> option Thrown) (requiredGenesisBlock : JsVal)
    (logger_given same_log_file : bool) (opts : Options) :
  let alias := alias_of options in
  let run := load alias fails requiredGenesisBlock logger_given same_log_file opts in
  alias <> "" /\
  ((forall c, In c prelude_calls -> fails c = None) ->
   result_of run = Normal tt /\
   exists before, trace_of run = before ++ [ChannelPublish (alias ++ ":bootstrap")%string]) /\
  (forall t, result_of run = Throw t ->
     (exists c, In c prelude_calls /\ fails c = Some t) /\
     forall event, ~ In (ChannelPublish event) (trace_of run)).
Proof.
  cbv zeta. split; [apply alias_of_truthy|]. unfold load.
  destruct (result_of (bootstrap fails requiredGenesisBlock logger_given same_log_file opts))
    as [[]|t] eqn:Hres.
  - split.
    + intros _. split; [reflexivity|]. eexists. reflexivity.
    + intros t H. discriminate H.
  - destruct (bootstrap_throws_in_prelude _ _ _ _ _ _ Hres) as (c & Hin & Hc).
    split.
    + intros Hok. rewrite (Hok c Hin) in Hc. discriminate.
    + intros t' H. unfold result_of in H. simpl in H. injection H as <-.
      split; [exists c; auto|].
      intros event Hpub. unfold trace_of in Hpub. simpl in Hpub.
      apply List.in_map_iff in Hpub as (x & Hx & _). discriminate.
Qed.

Lemma load_announces_bootstrap_witness :
  exists before,
    trace_of (load (alias_of (Some (Some ""))) no_failure JUndefined true false
                regular_options)
    = before ++ [ChannelPublish "leasehold_chain:bootstrap"].
Proof.
  destruct (load_announces_bootstrap (Some (Some "")) no_failure JUndefined true false
              regular_options) as (_ & H & _).
  destruct (H (fun c _ => eq_refl)) as (_ & before & Hbefore).
  exists before. exact Hbefore.
Defined.

End ModuleProps.

(* ===================================================================== *)
(** * Properties of the jobs of the job queue *)
(* ===================================================================== *)

Module TasksProps.
Import Js ChainTasks.
Local Open Scope js_scope.

Section Sync.

Variable NodeState : Type.
Variable loader_syncing : NodeState -> bool.
Variable blocks_isStale : NodeState -> bool.
Variable loader_sync : NodeState -> Completion unit * NodeState.
Variable pending : NodeState -> NodeState.

Local Abbreviation syncTask :=
  (_syncTask NodeState loader_syncing blocks_isStale loader_sync pending).

(** [_syncTask] never throws: a failure of the synchronization is only
    logged. It synchronizes, once, exactly when the loader is not syncing
    and the last block is stale at the time of the call; the
    synchronization itself runs later, after the tasks that are ahead in
    the sequence. *)
Theorem _syncTask_guard (st : NodeState) :
  let run := syncTask st in
  result_of run = Normal tt /\
  if negb (loader_syncing st) && blocks_isStale st then
    List.filter is_sync (trace_of run) = [LoaderSync] /\
    state_of run = snd (loader_sync (pending st))
  else
    trace_of run = [LogDebug "Sync time triggered"] /\ state_of run = st.
Proof.
  cbv zeta. unfold _syncTask, sequence_add, try_catch, external, bind, get, put, emit, ret.
  destruct (negb (loader_syncing st) && blocks_isStale st); [|repeat split].
  destruct (loader_sync (pending st)) as [[[]|t] st']; repeat split.
Qed.

End Sync.

Section Forging.

Variable NodeState : Type.
Variable loader_syncing : NodeState -> bool.
Variable forger_delegatesEnabled : NodeState -> bool.
Variable rounds_ticking : NodeState -> bool.
Variable forger_beforeForge : NodeState -> Completion unit * NodeState.
Variable forger_forge : NodeState -> Completion unit * NodeState.
Variable pending : NodeState -> NodeState.

Local Abbreviation forgingTask :=
  (_forgingTask NodeState loader_syncing forger_delegatesEnabled rounds_ticking
     forger_beforeForge forger_forge pending).

(** [_forgingTask] never throws: a failure of the forger is only logged.
    It forges at most once, and only when [beforeForge] succeeded and,
    in the state that it left, delegates are enabled, the loader is not
    syncing and the rounds module is not ticking. *)
Theorem _forgingTask_guard (st : NodeState) :
  let run := forgingTask st in
  result_of run = Normal tt /\
  (List.filter is_forge (trace_of run) = [] \/
   List.filter is_forge (trace_of run) = [Forge]) /\
  (In Forge (trace_of run) ->
   exists st1,
     forger_beforeForge (pending st) = (Normal tt, st1) /\
     forger_delegatesEnabled st1 = true /\
     loader_syncing st1 = false /\
     rounds_ticking st1 = false /\
     state_of run = snd (forger_forge st1)) /\
  (~ In Forge (trace_of run) ->
   state_of run = snd (forger_beforeForge (pending st))).
Proof.
  cbv zeta.
  unfold _forgingTask, sequence_add, try_catch, external, bind, get, put, emit, ret.
  destruct (forger_beforeForge (pending st)) as [[[]|t] st1]; cbv beta iota.
  2: { simpl. repeat split; auto. intros [H|[H|[H|[]]]]; discriminate H. }
  destruct (forger_delegatesEnabled st1) eqn:Hd; cbn [negb]; cbv beta iota.
  2: { simpl. repeat split; auto. intros [H|[H|[H|[]]]]; discriminate H. }
  destruct (loader_syncing st1) eqn:Hs; cbn [orb]; cbv beta iota.
  { simpl. repeat split; auto. intros [H|[H|[H|[]]]]; discriminate H. }
  destruct (rounds_ticking st1) eqn:Hr; cbv beta iota.
  { simpl. repeat split; auto. intros [H|[H|[H|[]]]]; discriminate H. }
  destruct (forger_forge st1) as [[[]|t] st2] eqn:Hf; simpl;
    (split; [reflexivity|]); (split; [right; reflexivity|]);
    (split; [intros _; exists st1; rewrite Hf; repeat split; assumption
            | intros H; exfalso; apply H; tauto]).
Qed.

End Forging.

Lemma _forgingTask_guard_witness :
  exists st1 : SampleNode,
    st1 = (false, 7) /\
    state_of (_forgingTask SampleNode fst (fun _ => true) (fun _ => false)
                (fun st => (Normal tt, st)) sample_forge (fun st => st) (false, 7))
    = snd (sample_forge st1).
Proof.
  destruct (_forgingTask_guard SampleNode fst (fun _ => true) (fun _ => false)
              (fun st => (Normal tt, st)) sample_forge (fun st => st) (false, 7))
    as (_ & _ & H & _).
  destruct H as (st1 & Hbefore & _ & _ & _ & Hstate).
  - vm_compute. tauto.
  - exists st1. split; [|exact Hstate]. injection Hbefore as <-. reflexivity.
Defined.

(** A failed synchronization is logged, and the task completes. *)
Example failed_sync_is_logged :
  _syncTask SampleNode fst (fun _ => true) sample_sync (fun st => st) (false, 7)
  = (Normal tt, (false, 7),
     [LogDebug "Sync time triggered"; SequenceAdd; LoaderSync;
      LogError (ThrownError (Error "Failed to sync")) (Some "Sync timer")]).
Proof. reflexivity. Qed.

End TasksProps.
